(** * Scan conversion of polygons on a 2-D canvas

    A shallow embedding of [Project1_src/scanConversion.js]: the classes
    [Point], [Polygon] and [Canvas], the drag handler, and the part of the
    browser's 2-D drawing context the program calls.

    Numbers.  The data model takes coordinates to be real-valued; they are
    modelled as exact rationals [Q] (rounding of IEEE doubles is not
    modelled).  Double arithmetic is exact on the integers a canvas can
    hold, so the model computes what the program computes there; the
    statements that depend on where a computed value falls (which lines
    the scan loop reaches, which point a pointer-down hits) are made for
    integer heights and integer coordinates.  The three non-real values that the program can compute from
    rational coordinates are kept explicit in [JS.number]: [NaN] (the "no
    intersection" result and the conversion of [undefined]) and the two
    infinities ([Math.min()] and [Math.max()] of no arguments).

    Objects.  Points are mutable objects shared by reference between the
    canvas and its polygons.  They live in a store [Heap] indexed by
    references [loc]; the canvas and the polygons hold references.

    Effects.  Methods that draw pass the drawing context along; methods
    that can throw return an [outcome].  The three listeners of the drag
    handler are functions on the state they share.

    [initCanvas] builds the scene from the tables of [config.js], which is
    not among the sources; they are a parameter of its model, [Init.config].
    The script at the end of the file, and the browser calling the
    listeners one event at a time, are in [Page]. *)

From Stdlib Require Import String.
From Stdlib Require Import QArith Qround ZArith List Bool Arith Lia Lqa.
From Stdlib Require Import Permutation Sorted.
From Equations Require Import Equations.
Import ListNotations.

Open Scope Q_scope.

(** ** JavaScript values and built-ins *)

Module JS.

Inductive number : Type :=
| NaN
| Infinity
| NegInfinity
| Num (q : Q).

Definition isNaN (v : number) : bool :=
  match v with NaN => true | _ => false end.

(** [a < b] on rationals. *)
Definition Qlt_bool (a b : Q) : bool := negb (Qle_bool b a).

(** The operator [<] on numbers: false as soon as one side is [NaN]. *)
Definition lt (a b : number) : bool :=
  match a, b with
  | NaN, _ | _, NaN => false
  | _, NegInfinity => false
  | Infinity, _ => false
  | NegInfinity, _ => true
  | Num _, Infinity => true
  | Num p, Num q => Qlt_bool p q
  end.

(** The operator [-] on numbers. *)
Definition sub (a b : number) : number :=
  match a, b with
  | NaN, _ | _, NaN => NaN
  | Infinity, Infinity => NaN
  | NegInfinity, NegInfinity => NaN
  | Infinity, _ => Infinity
  | NegInfinity, _ => NegInfinity
  | Num _, Infinity => NegInfinity
  | Num _, NegInfinity => Infinity
  | Num p, Num q => Num (p - q)
  end.

(** Conversion of an array read to a number argument: an index out of
    range reads [undefined], which converts to [NaN]. *)
Definition ToNumber (v : option number) : number :=
  match v with Some n => n | None => NaN end.

(** [Math.min(...l)] and [Math.max(...l)]; with no argument they are
    [Infinity] and [-Infinity]. *)
Definition Math_min (l : list Q) : number :=
  fold_left (fun acc v => if lt (Num v) acc then Num v else acc) l Infinity.

Definition Math_max (l : list Q) : number :=
  fold_left (fun acc v => if lt acc (Num v) then Num v else acc) l NegInfinity.

(** [Array.prototype.sort(compare)].  The sort is stable, and for a
    consistent comparator its result does not depend on the algorithm;
    it is modelled as a stable insertion sort.  A comparator result that
    is not greater than zero (including [NaN]) keeps the order. *)
Section Sort.
Context {A : Type} (compare : A -> A -> number).

Definition positive (v : number) : bool := lt (Num 0) v.

Fixpoint insert (a : A) (l : list A) : list A :=
  match l with
  | [] => [a]
  | b :: l' => if positive (compare a b) then b :: insert a l'
               else a :: b :: l'
  end.

Fixpoint sort (l : list A) : list A :=
  match l with
  | [] => []
  | a :: l' => insert a (sort l')
  end.
End Sort.

(** An array of four numbers [[r, g, b, a]]: the colour of a polygon. *)
Record Color : Type := mkColor { red : Q; green : Q; blue : Q; alpha : Q }.

(** Exceptions thrown by the program. *)
Inductive exn : Type :=
| Error (message : String.string)
| TypeError.

End JS.

Import JS.

(** ** The 2-D drawing context

    The part of [CanvasRenderingContext2D] that the program calls, after
    the HTML standard.  The bitmap is abstracted by the list of painting
    operations applied to the blank (transparent) bitmap, oldest first:
    equal lists give equal pixels. *)

Module Ctx.

Record HTMLCanvasElement : Type := mkElement { width : Z; height : Z }.

(** [strokeStyle]: the colour ["black"], or the string [rgba(r,g,b,a)]
    that joins the four numbers of a colour array; such a string is
    always a colour the context accepts. *)
Inductive style : Type :=
| Black
| Rgba (color : Color).

Inductive segment : Type :=
| Line (x0 y0 x1 y1 : Q)
| Circle (cx cy radius : Q).

(** A subpath: its last point and its segments, oldest first.  A subpath
    made by [moveTo] alone has no segment. *)
Record subpath : Type := mkSubpath { last : Q * Q; segments : list segment }.

Inductive paint : Type :=
| Stroked (s : style) (shape : list segment)
| Cleared (x y w h : Q).

Record t : Type := mk {
  canvas : HTMLCanvasElement;
  translation : Q * Q;          (* the current transform, a translation *)
  strokeStyle : style;
  path : list subpath;          (* current default path, newest first *)
  surface : list paint
}.

Definition getContext (dom : HTMLCanvasElement) : t :=
  mk dom (0, 0) Black [] [].

Definition translate (dx dy : Q) (c : t) : t :=
  mk (canvas c) (fst (translation c) + dx, snd (translation c) + dy)
     (strokeStyle c) (path c) (surface c).

Definition set_strokeStyle (s : style) (c : t) : t :=
  mk (canvas c) (translation c) s (path c) (surface c).

Definition set_path (p : list subpath) (c : t) : t :=
  mk (canvas c) (translation c) (strokeStyle c) p (surface c).

Definition set_surface (s : list paint) (c : t) : t :=
  mk (canvas c) (translation c) (strokeStyle c) (path c) s.

Definition beginPath (c : t) : t := set_path [] c.

(** [moveTo] and [lineTo] return without effect when an argument is
    infinite or [NaN]. *)
Definition moveTo (x y : number) (c : t) : t :=
  match x, y with
  | Num x, Num y => set_path (mkSubpath (x, y) [] :: path c) c
  | _, _ => c
  end.

Definition lineTo (x y : number) (c : t) : t :=
  match x, y with
  | Num x, Num y =>
      match path c with
      | [] => set_path [mkSubpath (x, y) []] c
      | sp :: rest =>
          set_path (mkSubpath (x, y)
                      (segments sp ++ [Line (fst (last sp)) (snd (last sp)) x y])
                    :: rest) c
      end
  | _, _ => c
  end.

(** [arc(x, y, radius, 0, 2*Math.PI)]: a full circle, which starts and
    ends at [(x + radius, y)]; it is joined to the last point of the
    current subpath by a straight line when there is one. *)
Definition arc_full (x y radius : Q) (c : t) : t :=
  match path c with
  | [] => set_path [mkSubpath (x + radius, y) [Circle x y radius]] c
  | sp :: rest =>
      set_path (mkSubpath (x + radius, y)
                  (segments sp
                     ++ [Line (fst (last sp)) (snd (last sp)) (x + radius) y;
                         Circle x y radius])
                :: rest) c
  end.

(** [stroke()] paints the segments of the current path, oldest subpath
    first, with the current style; subpaths without a segment are
    ignored, and nothing is painted when no segment is left. *)
Definition stroke (c : t) : t :=
  match flat_map segments (rev (path c)) with
  | [] => c
  | shape => set_surface (surface c ++ [Stroked (strokeStyle c) shape]) c
  end.

(** [clearRect(x, y, w, h)].  A rectangle that covers the whole bitmap
    returns it to blank; any other is recorded as an operation. *)
Definition covers_bitmap (c : t) (x y w h : Q) : bool :=
  let dx := x + fst (translation c) in
  let dy := y + snd (translation c) in
  Qle_bool dx 0 && Qle_bool dy 0
  && Qle_bool (inject_Z (width (canvas c))) (dx + w)
  && Qle_bool (inject_Z (height (canvas c))) (dy + h).

Definition clearRect (x y w h : Q) (c : t) : t :=
  if covers_bitmap c x y w h then set_surface [] c
  else set_surface
         (surface c ++ [Cleared (x + fst (translation c))
                                (y + snd (translation c)) w h]) c.

End Ctx.

(** ** The store of Point objects *)

Definition POINT_RADIUS : Q := 10.

Module Point.

Record t : Type := mk { x : Q; y : Q; z : Q }.

Definition draw (this : t) (ctx : Ctx.t) (radius : Q) : Ctx.t :=
  let ctx := Ctx.beginPath ctx in
  let ctx := Ctx.arc_full (x this) (y this) radius ctx in
  let ctx := Ctx.set_strokeStyle Ctx.Black ctx in
  Ctx.stroke ctx.

End Point.

Definition loc : Type := nat.

Definition Heap : Type := loc -> Point.t.

Definition update (h : Heap) (l : loc) (p : Point.t) : Heap :=
  fun l' => if Nat.eqb l' l then p else h l'.

(** ** Loops

    The two [for] loops of [Polygon.fill] are defined by well-founded
    recursion on the number of iterations left. *)

Lemma Qlt_bool_iff (a b : Q) : Qlt_bool a b = true <-> a < b.
Proof.
  unfold Qlt_bool. rewrite negb_true_iff. split.
  - intros H. apply Qnot_le_lt. intro Hle.
    apply Qle_bool_iff in Hle. congruence.
  - intros H. destruct (Qle_bool b a) eqn:E; [|reflexivity].
    apply Qle_bool_iff in E. lra.
Qed.

(** Iterations left in [for (y = ...; y < maxY; y++)]. *)
Definition remaining (y maxY : Q) : nat := Z.to_nat (Qceiling (maxY - y)).

Lemma remaining_step (y maxY : Q) :
  Qlt_bool y maxY = true -> (remaining (y + 1) maxY < remaining y maxY)%nat.
Proof.
  rewrite Qlt_bool_iff. unfold remaining. intros Hlt.
  pose proof (Qle_ceiling (maxY - y)) as Hc.
  pose proof (Qceiling_lt (maxY - (y + 1))) as Hc'.
  set (c := Qceiling (maxY - y)) in *.
  set (c' := Qceiling (maxY - (y + 1))) in *.
  assert (H0 : (0 < c)%Z).
  { rewrite Zlt_Qlt. change (inject_Z 0) with 0. lra. }
  assert (H1 : (c' < c)%Z).
  { rewrite Zlt_Qlt. unfold Z.sub in Hc'. rewrite inject_Z_plus in Hc'.
    change (inject_Z (- (1))) with (- (1)) in Hc'. lra. }
  lia.
Defined.

Definition inspect {A : Type} (a : A) : {b : A | a = b} := exist _ a eq_refl.

(** [for (let y = minY; y < maxY; y++) s = body(y, s)].  The increment is
    the exact [y + 1]: it is the double increment of the program on every
    integer [y] a canvas can hold, and within an ulp of it elsewhere. *)
Equations for_y {S : Type} (body : Q -> S -> S) (y maxY : Q) (s : S) : S
  by wf (remaining y maxY) Peano.lt :=
  for_y body y maxY s with inspect (Qlt_bool y maxY) := {
    | exist _ true _ => for_y body (y + 1) maxY (body y s)
    | exist _ false _ => s }.
Next Obligation. apply remaining_step. assumption. Defined.

(** [for (let i = start; i < len; i += 2) s = body(i, s)] *)
Equations for_i2 {S : Type} (body : nat -> S -> S) (i len : nat) (s : S) : S
  by wf (len - i)%nat Peano.lt :=
  for_i2 body i len s with inspect (i <? len)%nat := {
    | exist _ true _ => for_i2 body (i + 2) len (body i s)
    | exist _ false _ => s }.
Next Obligation. apply Nat.ltb_lt in e. lia. Defined.

(** ** Polygon *)

Module Polygon.

Record t : Type := mk { points : list loc; color : Color }.

(** x-coordinate of the intersection of the edge [[p1, p2)] and the
    horizontal scan line at [y]; [NaN] when there is none. *)
Definition getIntersection (p1 p2 : Point.t) (y : Q) : number :=
  if Qeq_bool (Point.y p1) (Point.y p2)
     || Qlt_bool y (Point.y p1)
     || Qle_bool (Point.y p2) y
  then NaN
  else Num (Point.x p1
            + (Point.x p2 - Point.x p1) * (y - Point.y p1)
              / (Point.y p2 - Point.y p1)).

(** The edges that are not parallel to the scan lines, lower end first.
    [pts] are the polygon's points as they are now in the store. *)
Definition add_edge (pts : list Point.t) (edges : list (Point.t * Point.t))
           (i : nat) : list (Point.t * Point.t) :=
  match nth_error pts i, nth_error pts ((i + 1) mod length pts) with
  | Some p1, Some p2 =>
      if Qeq_bool (Point.y p1) (Point.y p2) then edges
      else
        match sort (fun p1 p2 => Num (Point.y p1 - Point.y p2)) [p1; p2] with
        | [e0; e1] => edges ++ [(e0, e1)]
        | _ => edges
        end
  | _, _ => edges   (* not reached: both indices are below the length *)
  end.

Definition build_edges (pts : list Point.t) : list (Point.t * Point.t) :=
  fold_left (add_edge pts) (seq 0 (length pts)) [].

(** The sorted x-coordinates at which the scan line [y] meets the edges. *)
Definition intersections (edges : list (Point.t * Point.t)) (y : Q)
  : list number :=
  sort sub
    (filter (fun x => negb (isNaN x))
       (map (fun e => getIntersection (fst e) (snd e) y) edges)).

(** One step of the pairing loop: the span from [xs[i]] to [xs[i+1]]. *)
Definition stroke_span (color : Color) (xs : list number) (y : Q)
           (i : nat) (ctx : Ctx.t) : Ctx.t :=
  let ctx := Ctx.beginPath ctx in
  let ctx := Ctx.set_strokeStyle (Ctx.Rgba color) ctx in
  let ctx := Ctx.moveTo (ToNumber (nth_error xs i)) (Num y) ctx in
  let ctx := Ctx.lineTo (ToNumber (nth_error xs (i + 1))) (Num y) ctx in
  Ctx.stroke ctx.

(** The body of the scan loop: fill the scan line [y]. *)
Definition fill_row (edges : list (Point.t * Point.t)) (color : Color)
           (y : Q) (ctx : Ctx.t) : Ctx.t :=
  let intersection_x_coordinates := intersections edges y in
  for_i2 (stroke_span color intersection_x_coordinates y)
         0 (length intersection_x_coordinates) ctx.

Definition fill (h : Heap) (this : t) (ctx : Ctx.t) : Ctx.t :=
  let pts := map h (points this) in
  let edges := build_edges pts in
  let minY := Math_min (map Point.y pts) in
  let maxY := Math_max (map Point.y pts) in
  match minY, maxY with
  | Num minY, Num maxY => for_y (fill_row edges (color this)) minY maxY ctx
  | _, _ => ctx   (* no point: [Infinity < -Infinity] fails at once *)
  end.

End Polygon.

(** ** Canvas *)

Module Canvas.

Record t : Type := mk {
  ctx : Ctx.t;
  points : list loc;
  polygons : list Polygon.t
}.

(** [this.dom] is the element the context draws into. *)
Definition dom (this : t) : Ctx.HTMLCanvasElement := Ctx.canvas (ctx this).

Definition new (width height : Z) : t :=
  let dom := Ctx.mkElement width height in
  let ctx := Ctx.translate (1 # 2) (1 # 2) (Ctx.getContext dom) in
  mk ctx [] [].

(** The outcome of a method: normal completion, or an exception thrown
    with the canvas as it is at that moment. *)
Inductive outcome : Type :=
| Normal (this : t)
| Throw (e : exn) (this : t).

Definition isOutOfBounds (this : t) (point : Point.t) : bool :=
  Qlt_bool (Point.x point) 0
  || Qlt_bool (inject_Z (Ctx.width (dom this))) (Point.x point)
  || Qlt_bool (Point.y point) 0
  || Qlt_bool (inject_Z (Ctx.height (dom this))) (Point.y point).

Definition addPoint (h : Heap) (this : t) (point : loc) : outcome :=
  if isOutOfBounds this (h point)
  then Throw (Error "Point out of bounds"%string) this
  else Normal (mk (ctx this) (points this ++ [point]) (polygons this)).

Definition addPolygon (h : Heap) (this : t) (polygon : Polygon.t) : outcome :=
  if existsb (fun p => isOutOfBounds this (h p)) (Polygon.points polygon)
  then Throw (Error "Polygon out of bounds"%string) this
  else Normal (mk (ctx this) (points this) (polygons this ++ [polygon])).

Definition clear_and_draw (h : Heap) (this : t) : t :=
  let c := Ctx.clearRect (- (1 # 2)) (- (1 # 2))
             (inject_Z (Ctx.width (dom this)))
             (inject_Z (Ctx.height (dom this))) (ctx this) in
  let c := fold_left (fun c p => Point.draw (h p) c POINT_RADIUS)
             (points this) c in
  let c := fold_left (fun c p => Polygon.fill h p c) (polygons this) c in
  mk c (points this) (polygons this).

End Canvas.

(** ** The drag handler *)

Module Drag.

Record MouseEvent : Type := mkEvent { offsetX : Q; offsetY : Q }.

(** The variables captured by the three listeners, with the store and
    the canvas they act on. *)
Record state : Type := mk {
  heap : Heap;
  canvas : Canvas.t;
  drag_flag : bool;
  drag_point : option loc;      (* [None] is [null] *)
  drag_offset : Q * Q
}.

Inductive outcome : Type :=
| Normal (s : state)
| Throw (e : exn) (s : state).

Definition init (h : Heap) (canvas : Canvas.t) : state :=
  mk h canvas false None (0, 0).

(** The test of [find]: [Math.pow(p.x - x, 2) + Math.pow(p.y - y, 2) <=
    Math.pow(POINT_RADIUS, 2)], computed exactly: as the program computes
    it on integer coordinates, on which its differences, squares and sum
    do not round. *)
Definition hit (h : Heap) (x y : Q) (p : loc) : bool :=
  Qle_bool ((Point.x (h p) - x) ^ 2 + (Point.y (h p) - y) ^ 2)
           (POINT_RADIUS ^ 2).

Definition mousedown (e : MouseEvent) (s : state) : state :=
  let x := offsetX e in
  let y := offsetY e in
  match find (hit (heap s) x y) (Canvas.points (canvas s)) with
  | Some point =>
      mk (heap s) (canvas s) true (Some point)
         (x - Point.x (heap s point), y - Point.y (heap s point))
  | None => s
  end.

Definition mousemove (e : MouseEvent) (s : state) : outcome :=
  if drag_flag s then
    match drag_point s with
    | Some point =>
        let p := heap s point in
        let h := update (heap s) point
                   (Point.mk (offsetX e - fst (drag_offset s))
                             (offsetY e - snd (drag_offset s))
                             (Point.z p)) in
        Normal (mk h (Canvas.clear_and_draw h (canvas s))
                   (drag_flag s) (drag_point s) (drag_offset s))
    | None => Throw TypeError s   (* assignment to a property of [null] *)
    end
  else Normal s.

Definition mouseup (e : MouseEvent) (s : state) : state :=
  mk (heap s) (canvas s) false None (drag_offset s).

End Drag.

(** ** Scene initialisation

    [initCanvas] reads the tables of [config.js], which is not among the
    sources.  They are taken as a parameter [config], typed as the program
    uses them: [vertex_pos] holds the triples spread into [new Point(...p)],
    [polygon] holds arrays of indices into the canvas points,
    [vertex_color] holds the colour triples that [concat(ALPHA)] completes,
    and [canvasSize] holds [maxX] and [maxY]. *)

Definition ALPHA : Q := 0.5.

Module Init.

Record config : Type := mkConfig {
  vertex_pos : list (Q * Q * Q);
  polygon : list (list nat);
  vertex_color : list (Q * Q * Q);
  canvasSize : Z * Z
}.

(** The store, the next free reference, and the canvas. *)
Record world : Type := mkWorld { heap : Heap; next : loc; canvas : Canvas.t }.

Inductive outcome : Type :=
| Normal (w : world)
| Throw (e : exn) (w : world).

(** [new Point(x, y, z)]: a fresh object in the store. *)
Definition new_Point (p : Q * Q * Q) (w : world) : loc * world :=
  let '(x, y, z) := p in
  (next w,
   mkWorld (update (heap w) (next w) (Point.mk x y z)) (S (next w)) (canvas w)).

(** The outcome of a canvas method, in the world it ran in. *)
Definition lift (w : world) (r : Canvas.outcome) : outcome :=
  match r with
  | Canvas.Normal cv => Normal (mkWorld (heap w) (next w) cv)
  | Canvas.Throw e cv => Throw e (mkWorld (heap w) (next w) cv)
  end.

(** [l.forEach(f)]: an exception thrown by [f] ends the iteration. *)
Fixpoint forEach {A : Type} (f : A -> world -> outcome) (l : list A)
         (w : world) : outcome :=
  match l with
  | [] => Normal w
  | a :: l' =>
      match f a w with
      | Normal w' => forEach f l' w'
      | Throw e w' => Throw e w'
      end
  end.

(** [p => canvas.addPoint(new Point(...p))] *)
Definition add_vertex (p : Q * Q * Q) (w : world) : outcome :=
  let (point, w) := new_Point p w in
  lift w (Canvas.addPoint (heap w) (canvas w) point).

(** The elements of an array before its first [undefined] one, and
    whether the array holds no [undefined]. *)
Fixpoint defined_prefix (points : list (option loc)) : list loc * bool :=
  match points with
  | [] => ([], true)
  | None :: _ => ([], false)
  | Some l :: rest =>
      let (pre, complete) := defined_prefix rest in (l :: pre, complete)
  end.

(** The body of [polygon.forEach].  An index out of range reads
    [undefined] from [canvas.points]: [vertex_color[p[0]].concat] throws a
    [TypeError] on an undefined colour, and the test of [addPolygon] throws
    one when it reaches an undefined point, unless it has found a point
    out of bounds before. *)
Definition add_polygon (cfg : config) (p : list nat) (w : world) : outcome :=
  let points := map (nth_error (Canvas.points (canvas w))) p in
  match hd_error p with
  | None => Throw TypeError w
  | Some i0 =>
      match nth_error (vertex_color cfg) i0 with
      | None => Throw TypeError w
      | Some (r, g, b) =>
          let color := mkColor r g b ALPHA in
          let (pre, complete) := defined_prefix points in
          let result := Canvas.addPolygon (heap w) (canvas w)
                          (Polygon.mk pre color) in
          if complete then lift w result
          else match result with
               | Canvas.Throw e cv => lift w result
               | Canvas.Normal _ => Throw TypeError w
               end
      end
  end.

Definition initCanvas (cfg : config) (w : world) : outcome :=
  match forEach add_vertex (vertex_pos cfg) w with
  | Throw e w => Throw e w
  | Normal w =>
      match forEach (add_polygon cfg) (polygon cfg) w with
      | Throw e w => Throw e w
      | Normal w =>
          Normal (mkWorld (heap w) (next w)
                    (Canvas.clear_and_draw (heap w) (canvas w)))
      end
  end.

End Init.

(** ** The page

    The script creates the canvas, initialises it and installs the drag
    handler; the browser then calls the listeners, one event at a time.  An
    exception thrown by a listener is reported and the next event is
    handled in the state the listener left. *)

Module Page.

(** [new Canvas(..., canvasSize.maxX, canvasSize.maxY)] followed by
    [initCanvas(canvas)], from a store whose references from 0 on are
    free. *)
Definition load (cfg : Init.config) (h : Heap) : Init.outcome :=
  Init.initCanvas cfg
    (Init.mkWorld h 0%nat
       (Canvas.new (fst (Init.canvasSize cfg)) (snd (Init.canvasSize cfg)))).

(** [addDragHandler(canvas)]: the state the listeners start in. *)
Definition addDragHandler (w : Init.world) : Drag.state :=
  Drag.init (Init.heap w) (Init.canvas w).

Inductive event : Type :=
| mousedown (e : Drag.MouseEvent)
| mousemove (e : Drag.MouseEvent)
| mouseup (e : Drag.MouseEvent).

Definition dispatch (ev : event) (s : Drag.state) : Drag.outcome :=
  match ev with
  | mousedown e => Drag.Normal (Drag.mousedown e s)
  | mousemove e => Drag.mousemove e s
  | mouseup e => Drag.Normal (Drag.mouseup e s)
  end.

(** The state after a sequence of events, and the exceptions reported. *)
Fixpoint run (evs : list event) (s : Drag.state) : Drag.state * list exn :=
  match evs with
  | [] => (s, [])
  | ev :: rest =>
      match dispatch ev s with
      | Drag.Normal s' => run rest s'
      | Drag.Throw e s' => let (s'', es) := run rest s' in (s'', e :: es)
      end
  end.

End Page.

(** * Vocabulary of the properties

    The notions in which the properties are stated, and the inputs of the
    examples.  Nothing here is part of the program. *)

(** ** Intersections and bounds, in the words of the specification *)

(** The interpolation formula
    [p_low.x + (p_high.x - p_low.x) * (y - p_low.y) / (p_high.y - p_low.y)]. *)
Definition interpolate (p_low p_high : Point.t) (y : Q) : Q :=
  Point.x p_low
  + (Point.x p_high - Point.x p_low) * (y - Point.y p_low)
    / (Point.y p_high - Point.y p_low).

(** The surface rectangle [[0,width] x [0,height]], both ends included. *)
Definition in_bounds (cv : Canvas.t) (p : Point.t) : Prop :=
  0 <= Point.x p <= inject_Z (Ctx.width (Canvas.dom cv))
  /\ 0 <= Point.y p <= inject_Z (Ctx.height (Canvas.dom cv)).

(** The canvas after [this.points.push(l)], and after
    [this.polygons.push(p)]. *)
Definition push_point (cv : Canvas.t) (l : loc) : Canvas.t :=
  Canvas.mk (Canvas.ctx cv) (Canvas.points cv ++ [l]) (Canvas.polygons cv).

Definition push_polygon (cv : Canvas.t) (p : Polygon.t) : Canvas.t :=
  Canvas.mk (Canvas.ctx cv) (Canvas.points cv) (Canvas.polygons cv ++ [p]).

(** ** Spans and scan lines *)

(** A number that is neither [NaN] nor infinite, and the rationals of a
    list of numbers. *)
Definition is_finite (v : number) : Prop := exists q, v = Num q.

Definition finite_values (l : list number) : list Q :=
  flat_map (fun v => match v with Num q => [q] | _ => [] end) l.

Definition not_NaN (x : number) : bool := negb (isNaN x).

(** The horizontal span painted at row [y] between two intersections. *)
Definition span (color : Color) (y : Q) (a b : Q) : Ctx.paint :=
  Ctx.Stroked (Ctx.Rgba color) [Ctx.Line a y b y].

(** Consecutive pairing of a list: indices 0-1, 2-3, ...; an element left
    without partner at the end belongs to no pair. *)
Fixpoint pairs (qs : list Q) : list (Q * Q) :=
  match qs with
  | a :: b :: rest => (a, b) :: pairs rest
  | _ => []
  end.

(** The scan lines visited by [for (y = minY; y < maxY; y++)], in order:
    the loop itself, run with a body that records [y]. *)
Definition scan_lines (minY maxY : Q) : list Q :=
  for_y (fun y visited => visited ++ [y]) minY maxY [].

(** Least and greatest element of a list. *)
Definition is_min (m : Q) (ys : list Q) : Prop :=
  In m ys /\ forall v, In v ys -> m <= v.

Definition is_max (m : Q) (ys : list Q) : Prop :=
  In m ys /\ forall v, In v ys -> v <= m.

(** The y-coordinates of a polygon's points, as they are in the store. *)
Definition vertex_ys (h : Heap) (p : Polygon.t) : list Q :=
  map Point.y (map h (Polygon.points p)).

(** The scan lines that [fill] visits on a polygon. *)
Definition polygon_scan_lines (h : Heap) (p : Polygon.t) : list Q :=
  match Math_min (vertex_ys h p), Math_max (vertex_ys h p) with
  | Num minY, Num maxY => scan_lines minY maxY
  | _, _ => []
  end.

(** ** Integer coordinates

    The program computes with doubles, the model with rationals.  The two
    agree wherever the double operations are exact, and they are on the
    integers a canvas can hold: [y++] on an integer height, the
    differences, squares and sum of the hit test on integer coordinates,
    the pointer arithmetic of a drag.  Away from the integers a double
    operation may round, by an ulp of its result; statements that depend on
    where a computed value falls (which scan lines the loop reaches, which
    point a pointer-down hits) are therefore made for integer heights and
    integer coordinates. *)

Definition is_integer (q : Q) : Prop := exists n : Z, q == inject_Z n.

Definition integer_point (p : Point.t) : Prop :=
  is_integer (Point.x p) /\ is_integer (Point.y p).

(** The integers [n] with [m <= n < maxY], in ascending order. *)
Definition integers_below (m : Z) (maxY : Q) : list Z :=
  map (fun k => (m + Z.of_nat k)%Z) (seq 0 (Z.to_nat (Qceiling maxY - m))).

(** A scan line with the span painted on it: the line [row_y], from
    [row_from] to [row_to]. *)
Record row : Type := mkRow { row_y : Q; row_from : Q; row_to : Q }.

Definition row_span (color : Color) (r : row) : Ctx.paint :=
  span color (row_y r) (row_from r) (row_to r).

(** ** What is painted *)

(** The spans of one scan line, and of a whole polygon. *)
Definition row_paints (edges : list (Point.t * Point.t)) (color : Color)
           (y : Q) : list Ctx.paint :=
  map (fun ab => span color y (fst ab) (snd ab))
      (pairs (finite_values (Polygon.intersections edges y))).

Definition fill_paints (h : Heap) (p : Polygon.t) : list Ctx.paint :=
  flat_map (row_paints (Polygon.build_edges (map h (Polygon.points p)))
                       (Polygon.color p))
           (polygon_scan_lines h p).

(** The circle stroked for a point. *)
Definition point_paint (p : Point.t) : Ctx.paint :=
  Ctx.Stroked Ctx.Black [Ctx.Circle (Point.x p) (Point.y p) POINT_RADIUS].

(** What a redraw leaves on the surface: the circles of the points in
    insertion order, then the spans of the polygons in insertion order. *)
Definition scene_paints (h : Heap) (cv : Canvas.t) : list Ctx.paint :=
  map (fun l => point_paint (h l)) (Canvas.points cv)
  ++ flat_map (fill_paints h) (Canvas.polygons cv).

(** Two contexts on the same element with the same transform. *)
Definition same_frame (c c' : Ctx.t) : Prop :=
  Ctx.canvas c' = Ctx.canvas c /\ Ctx.translation c' = Ctx.translation c.

(** The transform set up by the constructor of [Canvas]: a shift by half
    a pixel.  No method changes it. *)
Definition half_pixel_shift (c : Ctx.t) : Prop :=
  fst (Ctx.translation c) == 1 # 2 /\ snd (Ctx.translation c) == 1 # 2.

(** ** Dragging *)

(** The listeners keep [drag_point] set whenever [drag_flag] is. *)
Definition dragging_consistent (s : Drag.state) : Prop :=
  Drag.drag_flag s = true -> Drag.drag_point s <> None.

(** The point a pointer move at [e] drags the grabbed point to. *)
Definition dragged_to (s : Drag.state) (e : Drag.MouseEvent) (l : loc)
  : Point.t :=
  Point.mk (Drag.offsetX e - fst (Drag.drag_offset s))
           (Drag.offsetY e - snd (Drag.drag_offset s))
           (Point.z (Drag.heap s l)).

(** ** The vertex loop of a polygon *)

(** Vertex [i] of the closed vertex loop: the index wraps around. *)
Definition origin : Point.t := Point.mk 0 0 0.

Definition vertex (pts : list Point.t) (i : nat) : Point.t :=
  nth (i mod length pts) pts origin.

(** The edge that starts at vertex [i], lower end first; none when the
    two ends have the same height. *)
Definition edge_at (pts : list Point.t) (i : nat) : list (Point.t * Point.t) :=
  let p1 := vertex pts i in
  let p2 := vertex pts (S i) in
  if Qeq_bool (Point.y p1) (Point.y p2) then []
  else if Qlt_bool (Point.y p2) (Point.y p1) then [(p2, p1)] else [(p1, p2)].

(** [above y p]: the point lies strictly above the scan line (in the
    direction of growing y). *)
Definition above (y : Q) (p : Point.t) : bool := Qlt_bool y (Point.y p).

(** The edge from vertex [i] to the next goes up through the scan line,
    [v_i.y <= y < v_(i+1).y], or down through it,
    [v_(i+1).y <= y < v_i.y]. *)
Definition up (pts : list Point.t) (y : Q) (i : nat) : bool :=
  negb (above y (vertex pts i)) && above y (vertex pts (S i)).

Definition down (pts : list Point.t) (y : Q) (i : nat) : bool :=
  above y (vertex pts i) && negb (above y (vertex pts (S i))).

(** The valid intersection of the edge that starts at vertex [i], if it
    has one. *)
Definition crossing_x (pts : list Point.t) (y : Q) (i : nat) : list number :=
  if up pts y i
  then [Num (interpolate (vertex pts i) (vertex pts (S i)) y)]
  else if down pts y i
       then [Num (interpolate (vertex pts (S i)) (vertex pts i) y)]
       else [].

(** The number of indices below [k] at which [f] holds. *)
Definition count (f : nat -> bool) (k : nat) : nat :=
  length (filter f (seq 0 k)).

(** ** Convex polygons *)

(** Twice the signed area of the triangle [a], [b], [(px, py)]: its sign
    tells on which side of the line from [a] to [b] the point lies. *)
Definition cross (a b : Point.t) (px py : Q) : Q :=
  (Point.x b - Point.x a) * (py - Point.y a)
  - (Point.y b - Point.y a) * (px - Point.x a).

(** The sense in which the vertices of a polygon are listed. *)
Inductive orientation : Type := Positive | Negative.

(** The point is on the inner side of the line from [a] to [b], or on it. *)
Definition on_side (o : orientation) (a b : Point.t) (px py : Q) : Prop :=
  match o with
  | Positive => 0 <= cross a b px py
  | Negative => cross a b px py <= 0
  end.

(** The point at parameter [t] on the segment from [a] to [b]. *)
Definition along (a b : Point.t) (t : Q) : Q * Q :=
  (Point.x a + t * (Point.x b - Point.x a),
   Point.y a + t * (Point.y b - Point.y a)).

Definition same_point (p q : Q * Q) : Prop :=
  fst p == fst q /\ snd p == snd q.

(** A simple polygon: two edges meet only when they are consecutive,
    and then only at the vertex they share. *)
Definition simple (pts : list Point.t) : Prop :=
  forall (i j : nat) (t s : Q),
    (i < length pts)%nat -> (j < length pts)%nat -> i <> j ->
    0 <= t <= 1 -> 0 <= s <= 1 ->
    same_point (along (vertex pts i) (vertex pts (S i)) t)
               (along (vertex pts j) (vertex pts (S j)) s) ->
    (t == 1 /\ s == 0 /\ j = (S i) mod length pts)
    \/ (t == 0 /\ s == 1 /\ i = (S j) mod length pts).

(** A convex polygon: a simple polygon of at least three vertices, all of
    which lie on the same side of (or on) the line of every edge. *)
Definition convex (o : orientation) (pts : list Point.t) : Prop :=
  (3 <= length pts)%nat
  /\ simple pts
  /\ forall i j, (i < length pts)%nat -> (j < length pts)%nat ->
       on_side o (vertex pts i) (vertex pts (S i))
               (Point.x (vertex pts j)) (Point.y (vertex pts j)).

(** The closed region of a convex polygon: the points on the inner side
    of every edge. *)
Definition in_polygon (o : orientation) (pts : list Point.t) (px py : Q)
  : Prop :=
  forall i, (i < length pts)%nat ->
    on_side o (vertex pts i) (vertex pts (S i)) px py.

(** ** Inputs of the examples *)

(** The triangle (0,0), (10,0), (5,10) with colour [255,0,0,1.0], alone
    on a 20 x 20 canvas with its three points. *)
Definition triangle_heap : Heap := fun l =>
  match l with
  | O => Point.mk 0 0 0
  | S O => Point.mk 10 0 0
  | _ => Point.mk 5 10 0
  end.

Definition triangle : Polygon.t := Polygon.mk [0; 1; 2]%nat (mkColor 255 0 0 1).

Definition triangle_edges : list (Point.t * Point.t) :=
  Polygon.build_edges (map triangle_heap (Polygon.points triangle)).

Definition triangle_scene : Canvas.t :=
  Canvas.mk (Canvas.ctx (Canvas.new 20 20)) [0; 1; 2]%nat [triangle].

(** A triangle with its vertices at the heights 1/2 and 5/2. *)
Definition half_heap : Heap := fun l =>
  match l with
  | O => Point.mk 0 (1 # 2) 0
  | S O => Point.mk 4 (1 # 2) 0
  | _ => Point.mk 2 (5 # 2) 0
  end.

Definition half_triangle : Polygon.t :=
  Polygon.mk [0; 1; 2]%nat (mkColor 255 0 0 1).

(** A point on the corner (20,20) of a 20 x 20 surface, and one a unit
    beyond its right side. *)
Definition corner_heap : Heap := fun l =>
  match l with
  | O => Point.mk 20 20 0
  | S O => Point.mk 21 20 0
  | _ => Point.mk 0 0 0
  end.

(** The apex of the triangle grabbed by a pointer-down at (5,12), and a
    pointer move that takes it to (100,-40), far outside the surface. *)
Definition grabbed : Drag.state :=
  Drag.mousedown (Drag.mkEvent 5 12) (Drag.init triangle_heap triangle_scene).

Definition far_away : Drag.MouseEvent := Drag.mkEvent 100 (-38).

(** ** Pointer events *)

(** A pointer position in whole pixels. *)
Definition integer_event (e : Drag.MouseEvent) : Prop :=
  is_integer (Drag.offsetX e) /\ is_integer (Drag.offsetY e).

(** The pointer is within the hit radius of the point: the distance from
    [(offsetX, offsetY)] to the point is at most [POINT_RADIUS]. *)
Definition near (h : Heap) (e : Drag.MouseEvent) (l : loc) : Prop :=
  (Point.x (h l) - Drag.offsetX e) ^ 2 + (Point.y (h l) - Drag.offsetY e) ^ 2
  <= POINT_RADIUS ^ 2.

(** The point being dragged, if any, is a point of the canvas. *)
Definition drags_scene_point (s : Drag.state) : Prop :=
  forall l, Drag.drag_point s = Some l -> In l (Canvas.points (Drag.canvas s)).

(** The surface shows the scene as the store has it now. *)
Definition shows_scene (s : Drag.state) : Prop :=
  half_pixel_shift (Canvas.ctx (Drag.canvas s))
  /\ Ctx.surface (Canvas.ctx (Drag.canvas s))
     = scene_paints (Drag.heap s) (Drag.canvas s).

(** What one event keeps, whichever listener it reaches. *)
Record kept (s s' : Drag.state) : Prop := mkKept {
  kept_points : Canvas.points (Drag.canvas s') = Canvas.points (Drag.canvas s);
  kept_polygons :
    Canvas.polygons (Drag.canvas s') = Canvas.polygons (Drag.canvas s);
  kept_dom : Canvas.dom (Drag.canvas s') = Canvas.dom (Drag.canvas s);
  kept_others :
    forall l, ~ In l (Canvas.points (Drag.canvas s)) ->
              Drag.heap s' l = Drag.heap s l;
  kept_z : forall l, Point.z (Drag.heap s' l) = Point.z (Drag.heap s l)
}.

(** ** Scene initialisation *)

(** The point [new Point(...v)] creates. *)
Definition point_of (v : Q * Q * Q) : Point.t :=
  let '(x, y, z) := v in Point.mk x y z.

(** The store after a point was created for each triple of [vs], at the
    references from [n] on. *)
Fixpoint store_points (h : Heap) (n : loc) (vs : list (Q * Q * Q)) : Heap :=
  match vs with
  | [] => h
  | v :: vs' => store_points (update h n (point_of v)) (S n) vs'
  end.

(** The colour of the polygon with the index array [p]: the colour of its
    first vertex, with [ALPHA]. *)
Definition color_of (cfg : Init.config) (p : list nat) : Color :=
  match hd_error p with
  | Some i0 =>
      match nth_error (Init.vertex_color cfg) i0 with
      | Some (r, g, b) => mkColor r g b ALPHA
      | None => mkColor 0 0 0 ALPHA
      end
  | None => mkColor 0 0 0 ALPHA
  end.

(** The polygon built from the index array [p] over the canvas points
    [points]. *)
Definition polygon_of (cfg : Init.config) (points : list loc) (p : list nat)
  : Polygon.t :=
  Polygon.mk (map (fun i => nth i points 0%nat) p) (color_of cfg p).

(** An index array that [initCanvas] accepts on a canvas of [n] points: it
    is not empty, its first index has a colour, and all its indices are
    below [n]. *)
Definition valid_polygon (cfg : Init.config) (n : nat) (p : list nat) : Prop :=
  (exists i0, hd_error p = Some i0
              /\ (i0 < length (Init.vertex_color cfg))%nat)
  /\ Forall (fun i => (i < n)%nat) p.

(** The canvas the script creates. *)
Definition fresh_canvas (cfg : Init.config) : Canvas.t :=
  Canvas.new (fst (Init.canvasSize cfg)) (snd (Init.canvasSize cfg)).

Definition vertex_in_bounds (cfg : Init.config) (v : Q * Q * Q) : Prop :=
  in_bounds (fresh_canvas cfg) (point_of v).

Definition valid_config (cfg : Init.config) : Prop :=
  Forall (vertex_in_bounds cfg) (Init.vertex_pos cfg)
  /\ Forall (valid_polygon cfg (length (Init.vertex_pos cfg)))
            (Init.polygon cfg).

(** Every point of the canvas is within its bounds. *)
Definition points_in_bounds (w : Init.world) : Prop :=
  forall l, In l (Canvas.points (Init.canvas w)) ->
            in_bounds (Init.canvas w) (Init.heap w l).

(** The world after the vertices of the configuration were added, with
    the polygons built from the index arrays [ps], and the world a
    successful initialisation ends in. *)
Definition populated (cfg : Init.config) (h : Heap) (ps : list (list nat))
  : Init.world :=
  let n := length (Init.vertex_pos cfg) in
  Init.mkWorld (store_points h 0%nat (Init.vertex_pos cfg)) n
    (Canvas.mk (Canvas.ctx (fresh_canvas cfg)) (seq 0 n)
               (map (polygon_of cfg (seq 0 n)) ps)).

Definition loaded (cfg : Init.config) (h : Heap) : Init.world :=
  let w := populated cfg h (Init.polygon cfg) in
  Init.mkWorld (Init.heap w) (Init.next w)
    (Canvas.clear_and_draw (Init.heap w) (Init.canvas w)).

(** A store to start from: nothing was created yet, and every reference
    reads as the origin. *)
Definition blank : Heap := fun _ => origin.

(** A configuration: a square of side 10 and one of its diagonals'
    triangles, on a canvas of 20 by 20. *)
Definition square_config : Init.config :=
  Init.mkConfig [(0, 0, 0); (10, 0, 0); (10, 10, 0); (0, 10, 0)]
                [[0; 1; 2; 3]%nat; [0; 1; 2]%nat]
                [(255, 0, 0); (0, 255, 0)]
                (20%Z, 20%Z).

(** The same with a vertex outside the canvas, and with a polygon that
    names a vertex that does not exist. *)
Definition outside_config : Init.config :=
  Init.mkConfig [(0, 0, 0); (10, 0, 0); (10, 30, 0); (0, 10, 0)]
                [[0; 1; 2; 3]%nat]
                [(255, 0, 0)]
                (20%Z, 20%Z).

Definition dangling_config : Init.config :=
  Init.mkConfig [(0, 0, 0); (10, 0, 0); (10, 10, 0)]
                [[0; 1; 2]%nat; [0; 1; 5]%nat]
                [(255, 0, 0)]
                (20%Z, 20%Z).

(** ** Rectangles *)

(** The rectangle with the corners [(x0, y0)] and [(x1, y1)], its sides
    parallel to the axes, listed around its boundary. *)
Definition rectangle_heap (x0 y0 x1 y1 : Q) : Heap := fun l =>
  match l with
  | O => Point.mk x0 y0 0
  | S O => Point.mk x1 y0 0
  | S (S O) => Point.mk x1 y1 0
  | _ => Point.mk x0 y1 0
  end.

Definition rectangle (color : Color) : Polygon.t :=
  Polygon.mk [0; 1; 2; 3]%nat color.

(** * Properties *)

(** ** Comparisons *)

Lemma Qlt_bool_false_iff (a b : Q) : Qlt_bool a b = false <-> b <= a.
Proof.
  unfold Qlt_bool. rewrite negb_false_iff. apply Qle_bool_iff.
Qed.

Lemma Qle_bool_false_iff (a b : Q) : Qle_bool a b = false <-> b < a.
Proof.
  rewrite <- Qlt_bool_iff. unfold Qlt_bool.
  destruct (Qle_bool a b); simpl; intuition congruence.
Qed.

Lemma Qeq_bool_false_iff (a b : Q) : Qeq_bool a b = false <-> ~ a == b.
Proof.
  rewrite <- Qeq_bool_iff. destruct (Qeq_bool a b); intuition congruence.
Qed.

(** Settle the value of a comparison from the linear facts at hand. *)
Ltac cmp :=
  first [ apply Qlt_bool_iff; lra | apply Qlt_bool_false_iff; lra
        | apply Qle_bool_iff; lra | apply Qle_bool_false_iff; lra
        | apply Qeq_bool_iff; lra | apply Qeq_bool_false_iff; lra ].

(** ** The intersection of an edge and a scan line *)

Lemma getIntersection_inside (p1 p2 : Point.t) (y : Q) :
  Point.y p1 <= y < Point.y p2 ->
  Polygon.getIntersection p1 p2 y = Num (interpolate p1 p2 y).
Proof.
  intros [Hlo Hhi]. unfold Polygon.getIntersection.
  assert (E1 : Qeq_bool (Point.y p1) (Point.y p2) = false)
    by (cmp).
  assert (E2 : Qlt_bool y (Point.y p1) = false)
    by (cmp).
  assert (E3 : Qle_bool (Point.y p2) y = false)
    by (cmp).
  rewrite E1, E2, E3. reflexivity.
Qed.

Lemma getIntersection_outside (p1 p2 : Point.t) (y : Q) :
  ~ (Point.y p1 <= y < Point.y p2) ->
  Polygon.getIntersection p1 p2 y = NaN.
Proof.
  intros Hout. unfold Polygon.getIntersection.
  destruct (Qeq_bool (Point.y p1) (Point.y p2)); [reflexivity|].
  destruct (Qlt_bool y (Point.y p1)) eqn:E2; [reflexivity|].
  destruct (Qle_bool (Point.y p2) y) eqn:E3; [reflexivity|].
  apply Qlt_bool_false_iff in E2. apply Qle_bool_false_iff in E3.
  exfalso. apply Hout. split; assumption.
Qed.

Lemma getIntersection_horizontal (p1 p2 : Point.t) (y : Q) :
  Point.y p1 == Point.y p2 -> Polygon.getIntersection p1 p2 y = NaN.
Proof.
  intros Heq. apply getIntersection_outside. lra.
Qed.

(** The value returned lies on the line through the two ends of the edge,
    at the height of the scan line. *)
Lemma interpolate_on_line (p1 p2 : Point.t) (y : Q) :
  ~ Point.y p1 == Point.y p2 ->
  (interpolate p1 p2 y - Point.x p1) * (Point.y p2 - Point.y p1)
  == (Point.x p2 - Point.x p1) * (y - Point.y p1).
Proof.
  intros Hne. unfold interpolate. field. lra.
Qed.

(** C1: for an edge with [p_low.y < p_high.y], [getIntersection] returns
    the linear interpolation [p_low.x + (p_high.x - p_low.x) * (y - p_low.y)
    / (p_high.y - p_low.y)] when [p_low.y <= y < p_high.y] and [NaN] when
    [y] is outside this half-open interval; for a horizontal edge it
    returns [NaN] at every [y]. *)
Theorem getIntersection_half_open (p_low p_high : Point.t) (y : Q) :
  (Point.y p_low < Point.y p_high ->
   Point.y p_low <= y < Point.y p_high ->
   Polygon.getIntersection p_low p_high y = Num (interpolate p_low p_high y))
  /\ (Point.y p_low < Point.y p_high ->
      ~ (Point.y p_low <= y < Point.y p_high) ->
      Polygon.getIntersection p_low p_high y = NaN)
  /\ (Point.y p_low == Point.y p_high ->
      Polygon.getIntersection p_low p_high y = NaN).
Proof.
  split; [|split].
  - intros _. apply getIntersection_inside.
  - intros _. apply getIntersection_outside.
  - apply getIntersection_horizontal.
Qed.

(** On the left edge of the triangle (0,0), (5,10): the lower end is
    included, the upper end is not; the edge (0,0), (10,0) is horizontal. *)
Lemma getIntersection_half_open_witness :
  let a := Point.mk 0 0 0 in
  let b := Point.mk 5 10 0 in
  let c := Point.mk 10 0 0 in
  (Point.y a < Point.y b /\ Point.y a <= 0 < Point.y b
   /\ Polygon.getIntersection a b 0 = Num (interpolate a b 0))
  /\ (Point.y a < Point.y b /\ ~ (Point.y a <= 10 < Point.y b)
      /\ Polygon.getIntersection a b 10 = NaN)
  /\ (Point.y a == Point.y c /\ Polygon.getIntersection a c 0 = NaN).
Proof.
  intros a b c.
  assert (Hedge : Point.y a < Point.y b) by reflexivity.
  assert (Hin : Point.y a <= 0 < Point.y b)
    by (split; [discriminate | reflexivity]).
  assert (Hout : ~ (Point.y a <= 10 < Point.y b))
    by (intros [_ H]; discriminate H).
  assert (Hflat : Point.y a == Point.y c) by reflexivity.
  split; [|split].
  - split; [exact Hedge | split; [exact Hin |]].
    exact (proj1 (getIntersection_half_open a b 0) Hedge Hin).
  - split; [exact Hedge | split; [exact Hout |]].
    exact (proj1 (proj2 (getIntersection_half_open a b 10)) Hedge Hout).
  - split; [exact Hflat |].
    exact (proj2 (proj2 (getIntersection_half_open a c 0)) Hflat).
Defined.

(** ** Bounds checks of the canvas *)

Lemma isOutOfBounds_false_iff (cv : Canvas.t) (p : Point.t) :
  Canvas.isOutOfBounds cv p = false <-> in_bounds cv p.
Proof.
  unfold Canvas.isOutOfBounds, in_bounds.
  rewrite !orb_false_iff, !Qlt_bool_false_iff. tauto.
Qed.

Lemma isOutOfBounds_true_iff (cv : Canvas.t) (p : Point.t) :
  Canvas.isOutOfBounds cv p = true <-> ~ in_bounds cv p.
Proof.
  rewrite <- isOutOfBounds_false_iff.
  destruct (Canvas.isOutOfBounds cv p); intuition congruence.
Qed.

Lemma addPoint_inside (h : Heap) (cv : Canvas.t) (l : loc) :
  in_bounds cv (h l) <-> Canvas.addPoint h cv l = Canvas.Normal (push_point cv l).
Proof.
  unfold Canvas.addPoint, push_point.
  destruct (Canvas.isOutOfBounds cv (h l)) eqn:E.
  - apply isOutOfBounds_true_iff in E. split; [contradiction | discriminate].
  - apply isOutOfBounds_false_iff in E. split; [reflexivity | intros _; exact E].
Qed.

Lemma addPoint_outside (h : Heap) (cv : Canvas.t) (l : loc) :
  ~ in_bounds cv (h l) <->
  Canvas.addPoint h cv l = Canvas.Throw (Error "Point out of bounds") cv.
Proof.
  unfold Canvas.addPoint.
  destruct (Canvas.isOutOfBounds cv (h l)) eqn:E.
  - apply isOutOfBounds_true_iff in E. split; [reflexivity | intros _; exact E].
  - apply isOutOfBounds_false_iff in E. split; [contradiction | discriminate].
Qed.

(** C4: [addPoint] appends the point exactly when [0 <= x <= width] and
    [0 <= y <= height] (both ends included); otherwise it throws the
    out-of-bounds error and the canvas, with its point list, is as before. *)
Theorem addPoint_inclusive_bounds (h : Heap) (cv : Canvas.t) (l : loc) :
  (in_bounds cv (h l) <-> Canvas.addPoint h cv l = Canvas.Normal (push_point cv l))
  /\ (~ in_bounds cv (h l) <->
      Canvas.addPoint h cv l = Canvas.Throw (Error "Point out of bounds") cv).
Proof.
  split; [apply addPoint_inside | apply addPoint_outside].
Qed.

(** The corners of the surface are accepted; one unit beyond is not. *)
Lemma addPoint_on_boundary (h : Heap) (cv : Canvas.t) (l : loc) :
  0 <= inject_Z (Ctx.width (Canvas.dom cv)) ->
  0 <= inject_Z (Ctx.height (Canvas.dom cv)) ->
  Point.x (h l) == inject_Z (Ctx.width (Canvas.dom cv)) ->
  Point.y (h l) == inject_Z (Ctx.height (Canvas.dom cv)) ->
  Canvas.addPoint h cv l = Canvas.Normal (push_point cv l).
Proof.
  intros Hw Hh Hx Hy. apply addPoint_inside.
  unfold in_bounds. lra.
Qed.

Lemma addPoint_one_beyond (h : Heap) (cv : Canvas.t) (l : loc) :
  Point.x (h l) == inject_Z (Ctx.width (Canvas.dom cv)) + 1
  \/ Point.y (h l) == inject_Z (Ctx.height (Canvas.dom cv)) + 1 ->
  Canvas.addPoint h cv l = Canvas.Throw (Error "Point out of bounds") cv.
Proof.
  intros H. apply addPoint_outside.
  unfold in_bounds. lra.
Qed.

Lemma existsb_isOutOfBounds_true (h : Heap) (cv : Canvas.t) (ls : list loc) :
  existsb (fun p => Canvas.isOutOfBounds cv (h p)) ls = true
  <-> exists l, In l ls /\ ~ in_bounds cv (h l).
Proof.
  rewrite existsb_exists. split; intros [l [Hin H]]; exists l; split; auto;
    apply isOutOfBounds_true_iff; assumption.
Qed.

Lemma existsb_isOutOfBounds_false (h : Heap) (cv : Canvas.t) (ls : list loc) :
  existsb (fun p => Canvas.isOutOfBounds cv (h p)) ls = false
  <-> forall l, In l ls -> in_bounds cv (h l).
Proof.
  split.
  - intros E l Hin. apply isOutOfBounds_false_iff.
    destruct (Canvas.isOutOfBounds cv (h l)) eqn:El; [|reflexivity].
    rewrite <- E. symmetry. apply existsb_exists. exists l. auto.
  - intros H. destruct (existsb _ ls) eqn:E; [|reflexivity].
    apply existsb_isOutOfBounds_true in E. destruct E as [l [Hin Hout]].
    exfalso. apply Hout, H, Hin.
Qed.

Lemma addPolygon_outside (h : Heap) (cv : Canvas.t) (polygon : Polygon.t) :
  (exists l, In l (Polygon.points polygon) /\ ~ in_bounds cv (h l)) <->
  Canvas.addPolygon h cv polygon
  = Canvas.Throw (Error "Polygon out of bounds") cv.
Proof.
  unfold Canvas.addPolygon.
  destruct (existsb _ (Polygon.points polygon)) eqn:E.
  - apply existsb_isOutOfBounds_true in E. split; [reflexivity | intros _; exact E].
  - pose proof (proj1 (existsb_isOutOfBounds_false h cv _) E) as Hall.
    split; [|discriminate].
    intros [l [Hin Hout]]. exfalso. apply Hout, Hall, Hin.
Qed.

Lemma addPolygon_inside (h : Heap) (cv : Canvas.t) (polygon : Polygon.t) :
  (forall l, In l (Polygon.points polygon) -> in_bounds cv (h l)) <->
  Canvas.addPolygon h cv polygon = Canvas.Normal (push_polygon cv polygon).
Proof.
  unfold Canvas.addPolygon, push_polygon.
  destruct (existsb _ (Polygon.points polygon)) eqn:E.
  - apply existsb_isOutOfBounds_true in E. destruct E as [l [Hin Hout]].
    split; [|discriminate].
    intros H. exfalso. apply Hout, H, Hin.
  - pose proof (proj1 (existsb_isOutOfBounds_false h cv _) E) as Hall.
    split; [reflexivity | intros _; exact Hall].
Qed.

(** C5: [addPolygon] throws the out-of-bounds error exactly when one of
    the points the polygon refers to, read from the store at the time of
    the call, is outside the surface rectangle, and then the canvas (its
    polygon list and the length of it) is as before; otherwise the polygon
    is appended. *)
Theorem addPolygon_checks_current_points (h : Heap) (cv : Canvas.t)
        (polygon : Polygon.t) :
  ((exists l, In l (Polygon.points polygon) /\ ~ in_bounds cv (h l)) <->
   Canvas.addPolygon h cv polygon
   = Canvas.Throw (Error "Polygon out of bounds") cv)
  /\ ((forall l, In l (Polygon.points polygon) -> in_bounds cv (h l)) <->
      Canvas.addPolygon h cv polygon = Canvas.Normal (push_polygon cv polygon)).
Proof.
  split; [apply addPolygon_outside | apply addPolygon_inside].
Qed.

(** The check reads the store: the same polygon is accepted before one of
    its points is moved out of the surface and refused after. *)
Lemma addPolygon_reads_store :
  let cv := Canvas.new 20 20 in
  let h : Heap := fun _ => Point.mk 5 5 0 in
  let h' := update h 1%nat (Point.mk 25 5 0) in
  let polygon := Polygon.mk [0; 1; 2]%nat (mkColor 255 0 0 1) in
  Canvas.addPolygon h cv polygon = Canvas.Normal (push_polygon cv polygon)
  /\ Canvas.addPolygon h' cv polygon
     = Canvas.Throw (Error "Polygon out of bounds") cv.
Proof. split; reflexivity. Qed.

(** C10: [addPolygon] does not look at the number of vertices: a polygon
    with fewer than three points, all of them inside the surface (an empty
    point list included), is appended. *)
Theorem addPolygon_no_vertex_count_check (h : Heap) (cv : Canvas.t)
        (polygon : Polygon.t)
        (Hfew : (length (Polygon.points polygon) < 3)%nat)
        (Hin : forall l, In l (Polygon.points polygon) -> in_bounds cv (h l)) :
  Canvas.addPolygon h cv polygon = Canvas.Normal (push_polygon cv polygon)
  /\ Canvas.polygons (push_polygon cv polygon) = Canvas.polygons cv ++ [polygon].
Proof.
  split; [|reflexivity].
  apply addPolygon_inside. exact Hin.
Qed.

(** A polygon without points and one with two points are both added. *)
Lemma addPolygon_no_vertex_count_check_witness :
  let cv := Canvas.new 20 20 in
  let h : Heap := fun _ => Point.mk 5 5 0 in
  let empty := Polygon.mk [] (mkColor 255 0 0 1) in
  let segment := Polygon.mk [0; 1]%nat (mkColor 255 0 0 1) in
  (Canvas.addPolygon h cv empty = Canvas.Normal (push_polygon cv empty)
   /\ Canvas.polygons (push_polygon cv empty) = Canvas.polygons cv ++ [empty])
  /\ (Canvas.addPolygon h cv segment = Canvas.Normal (push_polygon cv segment)
      /\ Canvas.polygons (push_polygon cv segment)
         = Canvas.polygons cv ++ [segment]).
Proof.
  intros cv h empty segment.
  assert (Hb : forall l : loc, in_bounds cv (h l)).
  { intros l. unfold in_bounds. simpl. split; split; discriminate. }
  split.
  - apply (addPolygon_no_vertex_count_check h cv empty).
    + simpl. lia.
    + intros l _. apply Hb.
  - apply (addPolygon_no_vertex_count_check h cv segment).
    + simpl. lia.
    + intros l _. apply Hb.
Defined.

(** ** The loops, unfolded *)

Lemma for_i2_step {S : Type} (body : nat -> S -> S) (i len : nat) (s : S) :
  for_i2 body i len s
  = if (i <? len)%nat then for_i2 body (i + 2) len (body i s) else s.
Proof.
  rewrite for_i2_equation_1.
  destruct (inspect (i <? len)%nat) as [[] e]; simp for_i2; rewrite e;
    reflexivity.
Qed.

Lemma for_y_step {S : Type} (body : Q -> S -> S) (y maxY : Q) (s : S) :
  for_y body y maxY s
  = if Qlt_bool y maxY then for_y body (y + 1) maxY (body y s) else s.
Proof.
  rewrite for_y_equation_1.
  destruct (inspect (Qlt_bool y maxY)) as [[] e]; simp for_y; rewrite e;
    reflexivity.
Qed.

(** ** Sorting *)

Section SortFacts.
Context {A : Type} (compare : A -> A -> number).

Lemma insert_perm (a : A) (l : list A) :
  Permutation (insert compare a l) (a :: l).
Proof.
  induction l as [|b l IH]; simpl.
  - reflexivity.
  - destruct (positive (compare a b)).
    + rewrite IH. apply perm_swap.
    + reflexivity.
Qed.

Lemma sort_perm (l : list A) : Permutation (sort compare l) l.
Proof.
  induction l as [|a l IH]; simpl.
  - reflexivity.
  - rewrite insert_perm. apply perm_skip, IH.
Qed.

Lemma sort_length (l : list A) : length (sort compare l) = length l.
Proof. apply Permutation_length, sort_perm. Qed.

Lemma sort_Forall (P : A -> Prop) (l : list A) :
  Forall P l -> Forall P (sort compare l).
Proof.
  intros H. eapply Permutation_Forall; [|exact H].
  symmetry. apply sort_perm.
Qed.
End SortFacts.

Lemma all_finite_map (l : list number) :
  Forall is_finite l -> exists qs, l = map Num qs.
Proof.
  induction 1 as [|v l [q ->] _ [qs ->]].
  - exists []. reflexivity.
  - exists (q :: qs). reflexivity.
Qed.

(** Every valid intersection is a rational: the sorted list holds no
    [NaN] and no infinity. *)
Lemma intersections_finite (edges : list (Point.t * Point.t)) (y : Q) :
  exists qs, Polygon.intersections edges y = map Num qs.
Proof.
  apply all_finite_map. unfold Polygon.intersections.
  apply sort_Forall, Forall_forall. intros v Hv.
  apply filter_In in Hv. destruct Hv as [Hv Hnan].
  apply in_map_iff in Hv. destruct Hv as [[p1 p2] [<- _]].
  unfold Polygon.getIntersection in *. simpl in *.
  destruct (_ || _ || _); [discriminate | eexists; reflexivity].
Qed.

Lemma insert_sub_sorted (a : Q) (l : list Q) :
  StronglySorted Qle l ->
  exists l', insert sub (Num a) (map Num l) = map Num l'
             /\ Permutation (a :: l) l' /\ StronglySorted Qle l'.
Proof.
  induction 1 as [|b l Hs IH Hb]; simpl.
  - exists [a]. repeat split; auto. repeat constructor.
  - unfold positive, lt. destruct (Qlt_bool 0 (a - b)) eqn:E.
    + apply Qlt_bool_iff in E. destruct IH as [l' [El [Hp Hs']]].
      exists (b :: l'). rewrite El. split; [reflexivity | split].
      * rewrite perm_swap. apply perm_skip, Hp.
      * constructor; [exact Hs'|].
        eapply Permutation_Forall; [exact Hp|].
        constructor; [lra | exact Hb].
    + apply Qlt_bool_false_iff in E.
      exists (a :: b :: l). split; [reflexivity | split; [reflexivity|]].
      constructor; [constructor; assumption|].
      constructor; [lra|].
      eapply Forall_impl; [|exact Hb]. intros c Hc. simpl in Hc. lra.
Qed.

Lemma sort_sub_sorted (qs : list Q) :
  exists qs', sort sub (map Num qs) = map Num qs'
              /\ Permutation qs qs' /\ StronglySorted Qle qs'.
Proof.
  induction qs as [|a qs [l [El [Hp Hs]]]]; simpl.
  - exists []. repeat split; auto. constructor.
  - rewrite El. destruct (insert_sub_sorted a l Hs) as [l' [El' [Hp' Hs']]].
    exists l'. split; [exact El' | split; [|exact Hs']].
    rewrite <- Hp'. apply perm_skip, Hp.
Qed.

(** The intersections of a scan line come out in ascending order. *)
Lemma intersections_sorted (edges : list (Point.t * Point.t)) (y : Q) :
  exists qs, Polygon.intersections edges y = map Num qs
             /\ StronglySorted Qle qs.
Proof.
  unfold Polygon.intersections.
  destruct (all_finite_map
              (filter (fun x => negb (isNaN x))
                 (map (fun e => Polygon.getIntersection (fst e) (snd e) y)
                      edges))) as [qs0 E].
  - apply Forall_forall. intros v Hv.
    apply filter_In in Hv. destruct Hv as [Hv Hnan].
    apply in_map_iff in Hv. destruct Hv as [[p1 p2] [<- _]].
    unfold Polygon.getIntersection in *. simpl in *.
    destruct (_ || _ || _); [discriminate | eexists; reflexivity].
  - rewrite E. destruct (sort_sub_sorted qs0) as [qs [Eq [_ Hs]]].
    exists qs. split; assumption.
Qed.

(** ** The pairing loop *)

Lemma list_pair_ind {A : Type} (P : list A -> Prop) :
  P [] -> (forall a, P [a]) -> (forall a b l, P l -> P (a :: b :: l)) ->
  forall l, P l.
Proof.
  intros H0 H1 H2.
  assert (H : forall l, P l /\ forall a, P (a :: l)).
  { induction l as [|b l [IH1 IH2]]; split; auto. }
  intros l. apply H.
Qed.

Lemma stroke_span_pair (color : Color) (xs : list number) (y : Q) (i : nat)
      (ctx : Ctx.t) (a b : Q) :
  nth_error xs i = Some (Num a) ->
  nth_error xs (i + 1) = Some (Num b) ->
  Polygon.stroke_span color xs y i ctx
  = Ctx.mk (Ctx.canvas ctx) (Ctx.translation ctx) (Ctx.Rgba color)
           [Ctx.mkSubpath (b, y) [Ctx.Line a y b y]]
           (Ctx.surface ctx ++ [span color y a b]).
Proof.
  intros Ha Hb. unfold Polygon.stroke_span. rewrite Ha, Hb. reflexivity.
Qed.

Lemma stroke_span_alone (color : Color) (xs : list number) (y : Q) (i : nat)
      (ctx : Ctx.t) (a : Q) :
  nth_error xs i = Some (Num a) ->
  nth_error xs (i + 1) = None ->
  Polygon.stroke_span color xs y i ctx
  = Ctx.mk (Ctx.canvas ctx) (Ctx.translation ctx) (Ctx.Rgba color)
           [Ctx.mkSubpath (a, y) []] (Ctx.surface ctx).
Proof.
  intros Ha Hb. unfold Polygon.stroke_span. rewrite Ha, Hb. reflexivity.
Qed.

Lemma pairing_loop_from (color : Color) (y : Q) (qs : list Q) :
  forall (done : list Q) (ctx : Ctx.t),
    let xs := map Num (done ++ qs) in
    Ctx.surface (for_i2 (Polygon.stroke_span color xs y)
                        (length done) (length xs) ctx)
    = Ctx.surface ctx ++ map (fun ab => span color y (fst ab) (snd ab)) (pairs qs).
Proof.
  induction qs as [|a|a b qs IH] using list_pair_ind; intros done ctx xs.
  - rewrite for_i2_step.
    replace (length done <? length xs)%nat with false.
    + simpl. rewrite app_nil_r. reflexivity.
    + symmetry. apply Nat.ltb_ge. unfold xs.
      rewrite length_map, app_nil_r. lia.
  - assert (Ha : nth_error xs (length done) = Some (Num a)).
    { unfold xs. rewrite map_app, nth_error_app2; rewrite length_map; [|lia].
      rewrite Nat.sub_diag. reflexivity. }
    assert (Hb : nth_error xs (length done + 1) = None).
    { apply nth_error_None. unfold xs.
      rewrite length_map, length_app. simpl. lia. }
    assert (Hlen : length xs = (length done + 1)%nat).
    { unfold xs. rewrite length_map, length_app. reflexivity. }
    rewrite for_i2_step.
    replace (length done <? length xs)%nat with true
      by (symmetry; apply Nat.ltb_lt; lia).
    rewrite for_i2_step.
    replace (length done + 2 <? length xs)%nat with false
      by (symmetry; apply Nat.ltb_ge; lia).
    rewrite (stroke_span_alone _ _ _ _ _ a Ha Hb). simpl.
    rewrite app_nil_r. reflexivity.
  - assert (Ha : nth_error xs (length done) = Some (Num a)).
    { unfold xs. rewrite map_app, nth_error_app2; rewrite length_map; [|lia].
      rewrite Nat.sub_diag. reflexivity. }
    assert (Hb : nth_error xs (length done + 1) = Some (Num b)).
    { unfold xs. rewrite map_app, nth_error_app2; rewrite length_map; [|lia].
      replace (length done + 1 - length done)%nat with 1%nat by lia.
      reflexivity. }
    assert (Hlen : length xs = (length done + 2 + length qs)%nat).
    { unfold xs. rewrite length_map, length_app. simpl. lia. }
    rewrite for_i2_step.
    replace (length done <? length xs)%nat with true
      by (symmetry; apply Nat.ltb_lt; lia).
    rewrite (stroke_span_pair _ _ _ _ _ a b Ha Hb).
    specialize (IH (done ++ [a; b])). simpl in IH.
    rewrite length_app in IH. simpl in IH.
    rewrite <- app_assoc in IH. simpl in IH. fold xs in IH.
    rewrite IH. simpl. rewrite <- app_assoc. reflexivity.
Qed.

(** The row loop paints one span per consecutive pair, whatever was in
    the context's path and style before. *)
Lemma pairing_loop (color : Color) (y : Q) (qs : list Q) (ctx : Ctx.t) :
  Ctx.surface (for_i2 (Polygon.stroke_span color (map Num qs) y)
                      0 (length (map Num qs)) ctx)
  = Ctx.surface ctx ++ map (fun ab => span color y (fst ab) (snd ab)) (pairs qs).
Proof. exact (pairing_loop_from color y qs [] ctx). Qed.

Lemma pairs_by_index (qs : list Q) :
  pairs qs
  = map (fun j => (nth (2 * j) qs 0, nth (2 * j + 1) qs 0))
        (seq 0 (length qs / 2)).
Proof.
  induction qs as [|a|a b qs IH] using list_pair_ind.
  - reflexivity.
  - reflexivity.
  - change (length (a :: b :: qs)) with (1 * 2 + length qs)%nat.
    rewrite Nat.add_comm, Nat.div_add by lia.
    rewrite Nat.add_comm. cbn [Nat.add seq pairs map].
    rewrite IH, <- seq_shift, map_map. f_equal.
    apply map_ext. intros j.
    replace (2 * S j)%nat with (S (S (2 * j))) by lia. reflexivity.
Qed.

Lemma fill_row_surface (edges : list (Point.t * Point.t)) (color : Color)
      (y : Q) (ctx : Ctx.t) (qs : list Q) :
  Polygon.intersections edges y = map Num qs ->
  Ctx.surface (Polygon.fill_row edges color y ctx)
  = Ctx.surface ctx ++ map (fun ab => span color y (fst ab) (snd ab)) (pairs qs).
Proof.
  intros Hxs. unfold Polygon.fill_row. rewrite Hxs. apply pairing_loop.
Qed.

(** The row loop on a list of odd length [2k+1], whatever the edges it
    comes from: it paints exactly the [k] spans of the consecutive pairs
    (indices 0-1, 2-3, ...); the last element has no partner and paints
    nothing, and the loop ends normally.  On the edges of a polygon the
    list is never of odd length ([intersections_even]). *)
Lemma fill_row_odd_drops_last (edges : list (Point.t * Point.t))
        (color : Color) (y : Q) (ctx : Ctx.t) (qs : list Q) (k : nat) :
  Polygon.intersections edges y = map Num qs ->
  length qs = (2 * k + 1)%nat ->
  Ctx.surface (Polygon.fill_row edges color y ctx)
  = Ctx.surface ctx
    ++ map (fun j => span color y (nth (2 * j) qs 0) (nth (2 * j + 1) qs 0))
           (seq 0 k).
Proof.
  intros Hxs Hodd. rewrite (fill_row_surface _ _ _ _ qs Hxs).
  rewrite pairs_by_index, map_map, Hodd.
  replace ((2 * k + 1) / 2)%nat with k; [reflexivity|].
  symmetry. rewrite Nat.mul_comm, Nat.div_add_l by lia.
  rewrite (Nat.div_small 1 2) by lia. lia.
Qed.

(** Three vertical edges met at x = 0, 4 and 9: one span from 0 to 4, and
    nothing for the intersection at 9. *)
Lemma fill_row_odd_example :
  let edges := [(Point.mk 0 0 0, Point.mk 0 2 0);
                (Point.mk 4 0 0, Point.mk 4 2 0);
                (Point.mk 9 0 0, Point.mk 9 2 0)] in
  let color := (mkColor 255 0 0 1) in
  let ctx := Canvas.ctx (Canvas.new 20 20) in
  let qs := [0 # 2; 8 # 2; 18 # 2] in
  Polygon.intersections edges 1 = map Num qs
  /\ length qs = (2 * 1 + 1)%nat
  /\ Ctx.surface (Polygon.fill_row edges color 1 ctx)
     = Ctx.surface ctx ++ [span color 1 (0 # 2) (8 # 2)].
Proof.
  intros edges color ctx qs.
  assert (Hxs : Polygon.intersections edges 1 = map Num qs) by reflexivity.
  assert (Hodd : length qs = (2 * 1 + 1)%nat) by reflexivity.
  split; [exact Hxs | split; [exact Hodd |]].
  exact (fill_row_odd_drops_last edges color 1 ctx qs 1 Hxs Hodd).
Defined.

(** ** The scan loop *)

(** Induction along [for (y = ...; y < maxY; y++)]. *)
Lemma scan_ind (maxY : Q) (P : Q -> Prop) :
  (forall y, maxY <= y -> P y) ->
  (forall y, y < maxY -> P (y + 1) -> P y) ->
  forall y, P y.
Proof.
  intros Hstop Hstep.
  assert (H : forall n y, (remaining y maxY < n)%nat -> P y).
  { induction n as [|n IH]; intros y Hn; [lia|].
    destruct (Qlt_le_dec y maxY) as [Hlt | Hge].
    - apply Hstep; [exact Hlt|]. apply IH.
      pose proof (remaining_step y maxY (proj2 (Qlt_bool_iff _ _) Hlt)). lia.
    - apply Hstop, Hge. }
  intros y. apply (H (S (remaining y maxY))). lia.
Qed.

Lemma visited_app (maxY : Q) :
  forall (y : Q) (visited : list Q),
    for_y (fun y visited => visited ++ [y]) y maxY visited
    = visited ++ scan_lines y maxY.
Proof.
  intros y. pattern y. apply (scan_ind maxY); clear y; unfold scan_lines.
  - intros y Hge visited.
    rewrite (for_y_step _ y maxY visited), (for_y_step _ y maxY []).
    apply Qlt_bool_false_iff in Hge. rewrite Hge.
    rewrite app_nil_r. reflexivity.
  - intros y Hlt IH visited.
    rewrite (for_y_step _ y maxY visited), (for_y_step _ y maxY []).
    apply Qlt_bool_iff in Hlt. rewrite Hlt.
    rewrite (IH (visited ++ [y])), (IH ([] ++ [y])).
    rewrite <- app_assoc. reflexivity.
Qed.

Lemma scan_lines_step (y maxY : Q) :
  scan_lines y maxY
  = if Qlt_bool y maxY then y :: scan_lines (y + 1) maxY else [].
Proof.
  unfold scan_lines at 1. rewrite for_y_step.
  destruct (Qlt_bool y maxY); [|reflexivity].
  apply (visited_app maxY (y + 1) [y]).
Qed.

(** The loop runs its body once for each scan line visited, in order. *)
Lemma for_y_fold {S : Type} (body : Q -> S -> S) (maxY : Q) :
  forall (y : Q) (s : S),
    for_y body y maxY s
    = fold_left (fun s y => body y s) (scan_lines y maxY) s.
Proof.
  intros y. pattern y. apply (scan_ind maxY); clear y.
  - intros y Hge s. rewrite for_y_step, scan_lines_step.
    apply Qlt_bool_false_iff in Hge. rewrite Hge. reflexivity.
  - intros y Hlt IH s. rewrite for_y_step, scan_lines_step.
    apply Qlt_bool_iff in Hlt. rewrite Hlt. simpl. apply IH.
Qed.

(** The scan lines are [y], [y + 1], [y + 2], ... as long as they are
    below [maxY]. *)
Lemma scan_lines_sound (maxY : Q) :
  forall y y', In y' (scan_lines y maxY) ->
    y' < maxY /\ exists k : nat, y' == y + inject_Z (Z.of_nat k).
Proof.
  intros y. pattern y. apply (scan_ind maxY); clear y.
  - intros y Hge y'. rewrite scan_lines_step.
    apply Qlt_bool_false_iff in Hge. rewrite Hge. contradiction.
  - intros y Hlt IH y'. rewrite scan_lines_step.
    rewrite (proj2 (Qlt_bool_iff _ _) Hlt). intros [<- | Hin].
    + split; [exact Hlt|]. exists 0%nat. simpl. ring.
    + destruct (IH y' Hin) as [Hlt' [k Hk]]. split; [exact Hlt'|].
      exists (S k). rewrite Nat2Z.inj_succ. unfold Z.succ.
      rewrite inject_Z_plus. rewrite Hk. simpl. ring.
Qed.

(** ** The vertical extent of a polygon *)

Lemma fold_min_from (ys : list Q) :
  forall m, exists m',
    fold_left (fun acc v => if lt (Num v) acc then Num v else acc) ys (Num m)
    = Num m'
    /\ (m' = m \/ In m' ys) /\ m' <= m /\ forall v, In v ys -> m' <= v.
Proof.
  induction ys as [|a ys IH]; intros m; simpl.
  - exists m. repeat split; auto; [lra | contradiction].
  - destruct (Qlt_bool a m) eqn:E.
    + apply Qlt_bool_iff in E. destruct (IH a) as [m' [Hf [Hin [Hle Hall]]]].
      exists m'. repeat split; auto.
      * right. destruct Hin as [-> | Hin]; auto.
      * lra.
      * intros v [<- | Hv]; auto.
    + apply Qlt_bool_false_iff in E.
      destruct (IH m) as [m' [Hf [Hin [Hle Hall]]]].
      exists m'. repeat split; auto.
      * destruct Hin as [-> | Hin]; auto.
      * intros v [<- | Hv]; [lra | auto].
Qed.

Lemma fold_max_from (ys : list Q) :
  forall m, exists m',
    fold_left (fun acc v => if lt acc (Num v) then Num v else acc) ys (Num m)
    = Num m'
    /\ (m' = m \/ In m' ys) /\ m <= m' /\ forall v, In v ys -> v <= m'.
Proof.
  induction ys as [|a ys IH]; intros m; simpl.
  - exists m. repeat split; auto; [lra | contradiction].
  - destruct (Qlt_bool m a) eqn:E.
    + apply Qlt_bool_iff in E. destruct (IH a) as [m' [Hf [Hin [Hle Hall]]]].
      exists m'. repeat split; auto.
      * right. destruct Hin as [-> | Hin]; auto.
      * lra.
      * intros v [<- | Hv]; auto.
    + apply Qlt_bool_false_iff in E.
      destruct (IH m) as [m' [Hf [Hin [Hle Hall]]]].
      exists m'. repeat split; auto.
      * destruct Hin as [-> | Hin]; auto.
      * intros v [<- | Hv]; [lra | auto].
Qed.

Lemma Math_min_is_min (ys : list Q) :
  ys <> [] -> exists m, Math_min ys = Num m /\ is_min m ys.
Proof.
  destruct ys as [|a ys]; [congruence | intros _].
  unfold Math_min. simpl.
  destruct (fold_min_from ys a) as [m [Hf [Hin [Hle Hall]]]].
  exists m. split; [exact Hf | split].
  - destruct Hin as [-> | Hin]; [left; reflexivity | right; exact Hin].
  - intros v [<- | Hv]; auto.
Qed.

Lemma Math_max_is_max (ys : list Q) :
  ys <> [] -> exists m, Math_max ys = Num m /\ is_max m ys.
Proof.
  destruct ys as [|a ys]; [congruence | intros _].
  unfold Math_max. simpl.
  destruct (fold_max_from ys a) as [m [Hf [Hin [Hle Hall]]]].
  exists m. split; [exact Hf | split].
  - destruct Hin as [-> | Hin]; [left; reflexivity | right; exact Hin].
  - intros v [<- | Hv]; auto.
Qed.

(** With no point the extent is [Infinity .. -Infinity], and the loop
    test [minY < maxY] fails at once. *)
Lemma empty_extent :
  Math_min [] = Infinity /\ Math_max [] = NegInfinity
  /\ lt Infinity NegInfinity = false.
Proof. repeat split. Qed.

(** The extent is finite unless there is no point. *)
Lemma extent_cases (ys : list Q) :
  (ys = [] /\ Math_min ys = Infinity /\ Math_max ys = NegInfinity)
  \/ (exists lo hi, Math_min ys = Num lo /\ Math_max ys = Num hi).
Proof.
  destruct ys as [|a ys]; [left; repeat split|right].
  destruct (Math_min_is_min (a :: ys)) as [lo [Elo _]]; [discriminate|].
  destruct (Math_max_is_max (a :: ys)) as [hi [Ehi _]]; [discriminate|].
  exists lo, hi. split; assumption.
Qed.

Lemma fill_as_rows (h : Heap) (p : Polygon.t) (ctx : Ctx.t) :
  Polygon.fill h p ctx
  = fold_left
      (fun c y => Polygon.fill_row (Polygon.build_edges (map h (Polygon.points p)))
                    (Polygon.color p) y c)
      (polygon_scan_lines h p) ctx.
Proof.
  unfold Polygon.fill, polygon_scan_lines, vertex_ys.
  destruct (Math_min _); try reflexivity.
  destruct (Math_max _); try reflexivity.
  apply for_y_fold.
Qed.

Lemma polygon_scan_lines_empty (h : Heap) (p : Polygon.t) :
  Polygon.points p = [] -> polygon_scan_lines h p = [].
Proof.
  intros E. unfold polygon_scan_lines, vertex_ys. rewrite E. reflexivity.
Qed.

Lemma polygon_scan_lines_extent (h : Heap) (p : Polygon.t) :
  Polygon.points p <> [] ->
  exists minY maxY,
    is_min minY (vertex_ys h p) /\ is_max maxY (vertex_ys h p)
    /\ polygon_scan_lines h p = scan_lines minY maxY.
Proof.
  intros Hne.
  assert (Hys : vertex_ys h p <> []).
  { unfold vertex_ys. destruct (Polygon.points p); [congruence | discriminate]. }
  destruct (Math_min_is_min _ Hys) as [lo [Elo Hlo]].
  destruct (Math_max_is_max _ Hys) as [hi [Ehi Hhi]].
  exists lo, hi. split; [exact Hlo | split; [exact Hhi |]].
  unfold polygon_scan_lines. rewrite Elo, Ehi. reflexivity.
Qed.

(** *** The lines of the loop *)

Lemma scan_lines_range (maxY : Q) (y y' : Q) :
  In y' (scan_lines y maxY) -> y <= y' < maxY.
Proof.
  intros Hin. destruct (scan_lines_sound maxY y y' Hin) as [Hlt [k Hk]].
  assert (Hk0 : 0 <= inject_Z (Z.of_nat k)).
  { change 0 with (inject_Z 0). rewrite <- Zle_Qle. lia. }
  lra.
Qed.

Lemma scan_lines_first (y maxY : Q) :
  y < maxY -> scan_lines y maxY = y :: scan_lines (y + 1) maxY.
Proof.
  intros Hlt. rewrite scan_lines_step at 1.
  rewrite (proj2 (Qlt_bool_iff _ _) Hlt). reflexivity.
Qed.

Lemma scan_lines_none (y maxY : Q) : maxY <= y -> scan_lines y maxY = [].
Proof.
  intros Hge. rewrite scan_lines_step.
  rewrite (proj2 (Qlt_bool_false_iff _ _) Hge). reflexivity.
Qed.

(** The loop never comes back to a line: the lines are in strictly
    ascending order. *)
Lemma scan_lines_ascending (maxY : Q) :
  forall y, StronglySorted Qlt (scan_lines y maxY).
Proof.
  apply (scan_ind maxY).
  - intros y Hge. rewrite (scan_lines_none y maxY Hge). constructor.
  - intros y Hlt IH. rewrite (scan_lines_first y maxY Hlt).
    constructor; [exact IH|]. apply Forall_forall. intros y' Hin.
    apply scan_lines_range in Hin. lra.
Qed.

Lemma integers_below_spec (m : Z) (maxY : Q) (n : Z) :
  In n (integers_below m maxY) <-> (m <= n)%Z /\ inject_Z n < maxY.
Proof.
  unfold integers_below. rewrite in_map_iff.
  pose proof (Qle_ceiling maxY) as Hc.
  pose proof (Qceiling_lt maxY) as Hc'.
  split.
  - intros (k & <- & Hk). apply in_seq in Hk. split; [lia|].
    assert (H : (m + Z.of_nat k <= Qceiling maxY - 1)%Z) by lia.
    rewrite Zle_Qle in H. lra.
  - intros [Hmn Hn]. exists (Z.to_nat (n - m)). split; [lia|].
    apply in_seq.
    assert (H : (n < Qceiling maxY)%Z) by (rewrite Zlt_Qlt; lra).
    lia.
Qed.

Lemma integers_below_none (m : Z) (maxY : Q) :
  maxY <= inject_Z m -> integers_below m maxY = [].
Proof.
  intros Hge. unfold integers_below.
  pose proof (Qceiling_lt maxY) as Hc.
  assert (H : (Qceiling maxY - 1 < m)%Z) by (rewrite Zlt_Qlt; lra).
  replace (Z.to_nat (Qceiling maxY - m)) with 0%nat by lia. reflexivity.
Qed.

Lemma integers_below_first (m : Z) (maxY : Q) :
  inject_Z m < maxY ->
  integers_below m maxY = m :: integers_below (m + 1) maxY.
Proof.
  intros Hlt. unfold integers_below.
  pose proof (Qle_ceiling maxY) as Hc.
  assert (H : (m < Qceiling maxY)%Z) by (rewrite Zlt_Qlt; lra).
  replace (Z.to_nat (Qceiling maxY - m))
    with (S (Z.to_nat (Qceiling maxY - (m + 1)))) by lia.
  cbn [seq map]. f_equal; [lia|].
  rewrite <- seq_shift, map_map. apply map_ext. intros k. lia.
Qed.

(** From an integer height the loop visits the integers below [maxY],
    one after the other. *)
Lemma scan_lines_integers (maxY : Q) :
  forall (y : Q) (m : Z),
    y == inject_Z m ->
    Forall2 (fun y n => y == inject_Z n)
            (scan_lines y maxY) (integers_below m maxY).
Proof.
  intros y. pattern y. apply (scan_ind maxY); clear y.
  - intros y Hge m Hm. rewrite (scan_lines_none y maxY Hge).
    rewrite integers_below_none by lra. constructor.
  - intros y Hlt IH m Hm. rewrite (scan_lines_first y maxY Hlt).
    rewrite integers_below_first by lra.
    constructor; [exact Hm|]. apply IH.
    rewrite inject_Z_plus, Hm. reflexivity.
Qed.

Lemma is_min_unique (ys : list Q) (a b : Q) :
  is_min a ys -> is_min b ys -> a == b.
Proof.
  intros [Ha Hla] [Hb Hlb]. pose proof (Hla b Hb). pose proof (Hlb a Ha). lra.
Qed.

Lemma is_max_unique (ys : list Q) (a b : Q) :
  is_max a ys -> is_max b ys -> a == b.
Proof.
  intros [Ha Hla] [Hb Hlb]. pose proof (Hla b Hb). pose proof (Hlb a Ha). lra.
Qed.

Lemma integers_below_compat (m : Z) (a b : Q) :
  a == b -> integers_below m a = integers_below m b.
Proof. intros E. unfold integers_below. rewrite E. reflexivity. Qed.

(** C2, as the code has it: [fill] runs its row body once for each line of
    the loop [for (y = minY; y < maxY; y++)], where [minY] and [maxY] are
    the least and the greatest y of the polygon's vertices.  The lines
    start at [minY] itself, go strictly upwards, and none is below [minY]
    or at or above [maxY].  When [minY] is an integer they are exactly the
    integers of [[minY, maxY)], each visited once, in ascending order. *)
Theorem fill_scan_range (h : Heap) (p : Polygon.t) (ctx : Ctx.t) :
  Polygon.fill h p ctx
  = fold_left
      (fun c y => Polygon.fill_row (Polygon.build_edges (map h (Polygon.points p)))
                    (Polygon.color p) y c)
      (polygon_scan_lines h p) ctx
  /\ (Polygon.points p = [] -> polygon_scan_lines h p = [])
  /\ (Polygon.points p <> [] ->
      exists minY maxY,
        is_min minY (vertex_ys h p) /\ is_max maxY (vertex_ys h p)
        /\ (forall y, In y (polygon_scan_lines h p) -> minY <= y < maxY)
        /\ (minY < maxY ->
            exists rest, polygon_scan_lines h p = minY :: rest)
        /\ StronglySorted Qlt (polygon_scan_lines h p)
        /\ (forall m : Z, minY == inject_Z m ->
              Forall2 (fun y n => y == inject_Z n)
                      (polygon_scan_lines h p) (integers_below m maxY))).
Proof.
  split; [apply fill_as_rows | split; [apply polygon_scan_lines_empty |]].
  intros Hne.
  destruct (polygon_scan_lines_extent h p Hne) as [lo [hi [Hlo [Hhi E]]]].
  exists lo, hi. rewrite E.
  split; [exact Hlo | split; [exact Hhi | split; [|split; [|split]]]].
  - intros y Hin. apply scan_lines_range, Hin.
  - intros Hlt. eexists. apply scan_lines_first, Hlt.
  - apply scan_lines_ascending.
  - intros m Hm. apply scan_lines_integers, Hm.
Qed.

(** The claim C2 as written, with integer scan lines, fails on the
    triangle with vertices at the heights 1/2 and 5/2: the integer line 1
    lies in [[minY, maxY)], and [fill] visits the lines 1/2 and 3/2 only. *)
Lemma fill_skips_integer_scan_line :
  is_min (1 # 2) (vertex_ys half_heap half_triangle)
  /\ is_max (5 # 2) (vertex_ys half_heap half_triangle)
  /\ (1 # 2) <= inject_Z 1 < (5 # 2)
  /\ polygon_scan_lines half_heap half_triangle = [1 # 2; (1 # 2) + 1]
  /\ ~ (exists y, In y (polygon_scan_lines half_heap half_triangle)
                  /\ y == inject_Z 1).
Proof.
  assert (E : polygon_scan_lines half_heap half_triangle = [1 # 2; (1 # 2) + 1])
    by reflexivity.
  split; [|split; [|split; [|split; [exact E|]]]].
  - split; [left; reflexivity|].
    intros v [<- | [<- | [<- | []]]]; discriminate.
  - split; [right; right; left; reflexivity|].
    intros v [<- | [<- | [<- | []]]]; discriminate.
  - split; [discriminate | reflexivity].
  - rewrite E. intros [y [[<- | [<- | []]] Hy]]; vm_compute in Hy;
      discriminate Hy.
Qed.

(** ** What [fill] and [draw] paint *)

Lemma finite_values_map (qs : list Q) : finite_values (map Num qs) = qs.
Proof.
  induction qs as [|q qs IH]; simpl; [reflexivity | now rewrite IH].
Qed.

Lemma same_frame_refl (c : Ctx.t) : same_frame c c.
Proof. split; reflexivity. Qed.

Lemma same_frame_trans (c1 c2 c3 : Ctx.t) :
  same_frame c1 c2 -> same_frame c2 c3 -> same_frame c1 c3.
Proof. intros [H1 H2] [H3 H4]. split; congruence. Qed.

Lemma fill_row_paints (edges : list (Point.t * Point.t)) (color : Color)
      (y : Q) (ctx : Ctx.t) :
  Ctx.surface (Polygon.fill_row edges color y ctx)
  = Ctx.surface ctx ++ row_paints edges color y.
Proof.
  destruct (intersections_finite edges y) as [qs Hqs].
  rewrite (fill_row_surface _ _ _ _ qs Hqs).
  unfold row_paints. rewrite Hqs, finite_values_map. reflexivity.
Qed.

Lemma moveTo_frame (x y : number) (c : Ctx.t) : same_frame c (Ctx.moveTo x y c).
Proof. destruct x, y; split; reflexivity. Qed.

Lemma lineTo_frame (x y : number) (c : Ctx.t) : same_frame c (Ctx.lineTo x y c).
Proof.
  destruct x, y; try apply same_frame_refl.
  unfold Ctx.lineTo. destruct (Ctx.path c); split; reflexivity.
Qed.

Lemma stroke_frame (c : Ctx.t) : same_frame c (Ctx.stroke c).
Proof.
  unfold Ctx.stroke. destruct (flat_map _ _); split; reflexivity.
Qed.

Lemma stroke_span_frame (color : Color) (xs : list number) (y : Q) (i : nat)
      (c : Ctx.t) :
  same_frame c (Polygon.stroke_span color xs y i c).
Proof.
  unfold Polygon.stroke_span.
  eapply same_frame_trans; [|apply stroke_frame].
  eapply same_frame_trans; [|apply lineTo_frame].
  eapply same_frame_trans; [|apply moveTo_frame].
  split; reflexivity.
Qed.

Lemma for_i2_preserves {S : Type} (I : S -> Prop) (body : nat -> S -> S)
      (len : nat) :
  (forall i s, I s -> I (body i s)) ->
  forall i s, I s -> I (for_i2 body i len s).
Proof.
  intros Hbody.
  assert (H : forall n i s, (len - i < n)%nat -> I s -> I (for_i2 body i len s)).
  { induction n as [|n IH]; intros i s Hn Hs; [lia|].
    rewrite for_i2_step. destruct (i <? len)%nat eqn:E; [|exact Hs].
    apply Nat.ltb_lt in E. apply IH; [lia | apply Hbody, Hs]. }
  intros i s. apply (H (Datatypes.S (len - i)%nat)). lia.
Qed.

Lemma fill_row_frame (edges : list (Point.t * Point.t)) (color : Color)
      (y : Q) (c : Ctx.t) :
  same_frame c (Polygon.fill_row edges color y c).
Proof.
  unfold Polygon.fill_row.
  apply (for_i2_preserves (same_frame c)); [|apply same_frame_refl].
  intros i s Hs. eapply same_frame_trans; [exact Hs|].
  apply stroke_span_frame.
Qed.

Lemma fold_rows (edges : list (Point.t * Point.t)) (color : Color)
      (ys : list Q) :
  forall c,
    let c' := fold_left (fun c y => Polygon.fill_row edges color y c) ys c in
    same_frame c c'
    /\ Ctx.surface c' = Ctx.surface c ++ flat_map (row_paints edges color) ys.
Proof.
  induction ys as [|y ys IH]; intros c; simpl.
  - split; [apply same_frame_refl | now rewrite app_nil_r].
  - destruct (IH (Polygon.fill_row edges color y c)) as [Hf Hs]. split.
    + eapply same_frame_trans; [apply fill_row_frame | exact Hf].
    + rewrite Hs, fill_row_paints, <- app_assoc. reflexivity.
Qed.

(** [fill] appends the polygon's spans to the surface, whatever the path
    and the style of the context were, and keeps the frame. *)
Lemma fill_effect (h : Heap) (p : Polygon.t) (c : Ctx.t) :
  same_frame c (Polygon.fill h p c)
  /\ Ctx.surface (Polygon.fill h p c) = Ctx.surface c ++ fill_paints h p.
Proof.
  rewrite fill_as_rows. apply fold_rows.
Qed.

Lemma draw_effect (p : Point.t) (c : Ctx.t) :
  same_frame c (Point.draw p c POINT_RADIUS)
  /\ Ctx.surface (Point.draw p c POINT_RADIUS) = Ctx.surface c ++ [point_paint p].
Proof. split; [split|]; reflexivity. Qed.

Lemma fold_draw (h : Heap) (ls : list loc) :
  forall c,
    let c' := fold_left (fun c p => Point.draw (h p) c POINT_RADIUS) ls c in
    same_frame c c'
    /\ Ctx.surface c' = Ctx.surface c ++ map (fun l => point_paint (h l)) ls.
Proof.
  induction ls as [|l ls IH]; intros c; simpl.
  - split; [apply same_frame_refl | now rewrite app_nil_r].
  - destruct (IH (Point.draw (h l) c POINT_RADIUS)) as [Hf Hs]. split.
    + eapply same_frame_trans; [apply draw_effect | exact Hf].
    + rewrite Hs. destruct (draw_effect (h l) c) as [_ ->].
      rewrite <- app_assoc. reflexivity.
Qed.

Lemma fold_fill (h : Heap) (ps : list Polygon.t) :
  forall c,
    let c' := fold_left (fun c p => Polygon.fill h p c) ps c in
    same_frame c c'
    /\ Ctx.surface c' = Ctx.surface c ++ flat_map (fill_paints h) ps.
Proof.
  induction ps as [|p ps IH]; intros c; simpl.
  - split; [apply same_frame_refl | now rewrite app_nil_r].
  - destruct (IH (Polygon.fill h p c)) as [Hf Hs].
    destruct (fill_effect h p c) as [Hf1 Hs1]. split.
    + eapply same_frame_trans; [exact Hf1 | exact Hf].
    + rewrite Hs, Hs1, <- app_assoc. reflexivity.
Qed.

(** ** Redraw *)

Lemma new_half_pixel_shift (width height : Z) :
  half_pixel_shift (Canvas.ctx (Canvas.new width height)).
Proof. split; reflexivity. Qed.

Lemma clearRect_whole (c : Ctx.t) :
  half_pixel_shift c ->
  Ctx.clearRect (- (1 # 2)) (- (1 # 2))
    (inject_Z (Ctx.width (Ctx.canvas c)))
    (inject_Z (Ctx.height (Ctx.canvas c))) c
  = Ctx.set_surface [] c.
Proof.
  intros [Hx Hy]. unfold Ctx.clearRect.
  replace (Ctx.covers_bitmap c _ _ _ _) with true; [reflexivity|].
  symmetry. unfold Ctx.covers_bitmap.
  rewrite !andb_true_iff, !Qle_bool_iff. repeat split; lra.
Qed.

Lemma clear_and_draw_effect (h : Heap) (cv : Canvas.t) :
  half_pixel_shift (Canvas.ctx cv) ->
  let cv' := Canvas.clear_and_draw h cv in
  same_frame (Canvas.ctx cv) (Canvas.ctx cv')
  /\ Ctx.surface (Canvas.ctx cv') = scene_paints h cv
  /\ Canvas.points cv' = Canvas.points cv
  /\ Canvas.polygons cv' = Canvas.polygons cv.
Proof.
  intros Hshift. unfold Canvas.clear_and_draw, Canvas.dom. simpl.
  rewrite (clearRect_whole _ Hshift).
  set (c0 := Ctx.set_surface [] (Canvas.ctx cv)).
  destruct (fold_draw h (Canvas.points cv) c0) as [Hf1 Hs1].
  set (c1 := fold_left _ (Canvas.points cv) c0) in *.
  destruct (fold_fill h (Canvas.polygons cv) c1) as [Hf2 Hs2].
  split; [|split; [|split; reflexivity]].
  - eapply same_frame_trans; [|exact Hf2].
    eapply same_frame_trans; [|exact Hf1]. split; reflexivity.
  - rewrite Hs2, Hs1. reflexivity.
Qed.

Lemma clear_and_draw_keeps_shift (h : Heap) (cv : Canvas.t) :
  half_pixel_shift (Canvas.ctx cv) ->
  half_pixel_shift (Canvas.ctx (Canvas.clear_and_draw h cv)).
Proof.
  intros Hshift.
  destruct (clear_and_draw_effect h cv Hshift) as [[_ Ht] _].
  unfold half_pixel_shift in *. rewrite Ht. exact Hshift.
Qed.

Lemma scene_paints_ext (h : Heap) (cv cv' : Canvas.t) :
  Canvas.points cv' = Canvas.points cv ->
  Canvas.polygons cv' = Canvas.polygons cv ->
  scene_paints h cv' = scene_paints h cv.
Proof. intros Hp Hq. unfold scene_paints. rewrite Hp, Hq. reflexivity. Qed.

Lemma redraw_iter (h : Heap) (cv : Canvas.t) (n : nat) :
  half_pixel_shift (Canvas.ctx cv) ->
  let cv' := Nat.iter n (Canvas.clear_and_draw h) cv in
  half_pixel_shift (Canvas.ctx cv')
  /\ Canvas.points cv' = Canvas.points cv
  /\ Canvas.polygons cv' = Canvas.polygons cv
  /\ (n <> 0%nat -> Ctx.surface (Canvas.ctx cv') = scene_paints h cv).
Proof.
  intros Hshift. cbv zeta. induction n as [|n IH].
  - repeat split; try apply Hshift; congruence.
  - rewrite Nat.iter_succ. destruct IH as [Hs [Hp [Hq _]]].
    destruct (clear_and_draw_effect h _ Hs) as [_ [Hsurf [Hp' Hq']]].
    split; [apply clear_and_draw_keeps_shift, Hs|].
    split; [congruence | split; [congruence|]].
    intros _. rewrite Hsurf. apply scene_paints_ext; assumption.
Qed.

(** C8: redraw is idempotent.  Each call clears the whole surface and
    then paints the points in insertion order followed by the polygons in
    insertion order, so with points, polygons and dimensions unchanged a
    second call, and any number of further calls, leave the same surface
    as the first. *)
Theorem clear_and_draw_idempotent (h : Heap) (cv : Canvas.t) (n : nat)
        (Hshift : half_pixel_shift (Canvas.ctx cv)) :
  let once := Canvas.clear_and_draw h cv in
  Ctx.surface (Canvas.ctx once) = scene_paints h cv
  /\ Ctx.surface (Canvas.ctx (Canvas.clear_and_draw h once))
     = Ctx.surface (Canvas.ctx once)
  /\ Ctx.surface (Canvas.ctx (Nat.iter (S n) (Canvas.clear_and_draw h) cv))
     = Ctx.surface (Canvas.ctx once).
Proof.
  intros once.
  destruct (clear_and_draw_effect h cv Hshift) as [_ [Hs [Hp Hq]]].
  fold once in Hs, Hp, Hq.
  pose proof (clear_and_draw_keeps_shift h cv Hshift) as Hshift'.
  fold once in Hshift'.
  destruct (clear_and_draw_effect h once Hshift') as [_ [Hs' _]].
  split; [exact Hs | split].
  - rewrite Hs', Hs. apply scene_paints_ext; assumption.
  - destruct (redraw_iter h cv (S n) Hshift) as [_ [_ [_ Hn]]].
    rewrite Hn by discriminate. symmetry. exact Hs.
Qed.

(** The triangle scene, redrawn once, twice and three times. *)
Lemma clear_and_draw_idempotent_witness :
  half_pixel_shift (Canvas.ctx triangle_scene)
  /\ (let once := Canvas.clear_and_draw triangle_heap triangle_scene in
      Ctx.surface (Canvas.ctx once) = scene_paints triangle_heap triangle_scene
      /\ Ctx.surface (Canvas.ctx (Canvas.clear_and_draw triangle_heap once))
         = Ctx.surface (Canvas.ctx once)
      /\ Ctx.surface
           (Canvas.ctx (Nat.iter 3 (Canvas.clear_and_draw triangle_heap)
                                 triangle_scene))
         = Ctx.surface (Canvas.ctx once)).
Proof.
  assert (Hshift : half_pixel_shift (Canvas.ctx triangle_scene))
    by (split; reflexivity).
  split; [exact Hshift|].
  exact (clear_and_draw_idempotent triangle_heap triangle_scene 2 Hshift).
Defined.

(** Without the clearing step a second pass would add to the surface:
    painting is not idempotent by itself. *)
Lemma fill_twice_paints_twice (h : Heap) (p : Polygon.t) (c : Ctx.t) :
  Ctx.surface (Polygon.fill h p (Polygon.fill h p c))
  = Ctx.surface c ++ fill_paints h p ++ fill_paints h p.
Proof.
  destruct (fill_effect h p (Polygon.fill h p c)) as [_ ->].
  destruct (fill_effect h p c) as [_ ->].
  rewrite <- app_assoc. reflexivity.
Qed.

(** ** Dragging *)

Lemma init_consistent (h : Heap) (cv : Canvas.t) :
  dragging_consistent (Drag.init h cv).
Proof. intros H. discriminate H. Qed.

Lemma mousedown_consistent (e : Drag.MouseEvent) (s : Drag.state) :
  dragging_consistent s -> dragging_consistent (Drag.mousedown e s).
Proof.
  intros Hs. unfold Drag.mousedown.
  destruct (find _ _); [|exact Hs]. intros _. discriminate.
Qed.

Lemma mouseup_consistent (e : Drag.MouseEvent) (s : Drag.state) :
  dragging_consistent (Drag.mouseup e s).
Proof. intros H. discriminate H. Qed.

Lemma mousemove_consistent (e : Drag.MouseEvent) (s : Drag.state) :
  dragging_consistent s ->
  exists s', Drag.mousemove e s = Drag.Normal s' /\ dragging_consistent s'.
Proof.
  intros Hs. unfold Drag.mousemove.
  destruct (Drag.drag_flag s) eqn:Hflag; [|exists s; auto].
  destruct (Drag.drag_point s) as [l|] eqn:Hpoint.
  - eexists. split; [reflexivity|]. unfold dragging_consistent. simpl.
    intros _. discriminate.
  - exfalso. apply (Hs Hflag). exact Hpoint.
Qed.

Lemma update_same (h : Heap) (l : loc) (p : Point.t) : update h l p l = p.
Proof. unfold update. rewrite Nat.eqb_refl. reflexivity. Qed.

Lemma update_other (h : Heap) (l l' : loc) (p : Point.t) :
  l' <> l -> update h l p l' = h l'.
Proof.
  intros Hne. unfold update.
  destruct (Nat.eqb_spec l' l); [contradiction | reflexivity].
Qed.

(** C9: while a point is dragged, a pointer move at any position sets the
    point's coordinates to (pointer - offset), unclamped, and redraws; no
    bounds check is made and nothing is thrown, also when the new position
    is outside [[0,width] x [0,height]]. *)
Theorem mousemove_no_bounds_check (s : Drag.state) (e : Drag.MouseEvent)
        (l : loc)
        (Hflag : Drag.drag_flag s = true)
        (Hpoint : Drag.drag_point s = Some l) :
  let h' := update (Drag.heap s) l (dragged_to s e l) in
  Drag.mousemove e s
  = Drag.Normal (Drag.mk h' (Canvas.clear_and_draw h' (Drag.canvas s))
                         true (Some l) (Drag.drag_offset s))
  /\ Point.x (h' l) = Drag.offsetX e - fst (Drag.drag_offset s)
  /\ Point.y (h' l) = Drag.offsetY e - snd (Drag.drag_offset s)
  /\ (forall l', l' <> l -> h' l' = Drag.heap s l')
  /\ Canvas.points (Canvas.clear_and_draw h' (Drag.canvas s))
     = Canvas.points (Drag.canvas s)
  /\ Canvas.polygons (Canvas.clear_and_draw h' (Drag.canvas s))
     = Canvas.polygons (Drag.canvas s).
Proof.
  intros h'. unfold Drag.mousemove. rewrite Hflag, Hpoint.
  split; [reflexivity|]. unfold h'. rewrite update_same.
  split; [reflexivity | split; [reflexivity | split; [|split; reflexivity]]].
  intros l' Hne. apply update_other, Hne.
Qed.

(** The apex of the triangle dragged far outside the 20 x 20 surface:
    the move completes and the point is stored where the pointer took it. *)
Lemma mousemove_no_bounds_check_witness :
  Drag.drag_flag grabbed = true
  /\ Drag.drag_point grabbed = Some 2%nat
  /\ (let h' := update (Drag.heap grabbed) 2%nat
                  (dragged_to grabbed far_away 2%nat) in
      Drag.mousemove far_away grabbed
      = Drag.Normal (Drag.mk h' (Canvas.clear_and_draw h' (Drag.canvas grabbed))
                             true (Some 2%nat) (Drag.drag_offset grabbed))
      /\ Point.x (h' 2%nat) = Drag.offsetX far_away - fst (Drag.drag_offset grabbed)
      /\ Point.y (h' 2%nat) = Drag.offsetY far_away - snd (Drag.drag_offset grabbed)
      /\ (forall l', l' <> 2%nat -> h' l' = Drag.heap grabbed l')
      /\ Canvas.points (Canvas.clear_and_draw h' (Drag.canvas grabbed))
         = Canvas.points (Drag.canvas grabbed)
      /\ Canvas.polygons (Canvas.clear_and_draw h' (Drag.canvas grabbed))
         = Canvas.polygons (Drag.canvas grabbed)).
Proof.
  assert (Hflag : Drag.drag_flag grabbed = true) by reflexivity.
  assert (Hpoint : Drag.drag_point grabbed = Some 2%nat) by reflexivity.
  split; [exact Hflag | split; [exact Hpoint |]].
  exact (mousemove_no_bounds_check grabbed far_away 2%nat Hflag Hpoint).
Defined.

(** [addPoint] would refuse a point at that position. *)
Lemma dragged_point_out_of_bounds :
  let p := dragged_to grabbed far_away 2%nat in
  Point.x p == 100 /\ Point.y p == - (40)
  /\ Canvas.isOutOfBounds (Drag.canvas grabbed) p = true.
Proof. repeat split. Qed.

(** Reference semantics: after the move, the polygon that holds the
    dragged point is filled from the point's new coordinates. *)
Lemma drag_moves_polygon_vertex (s : Drag.state) (e : Drag.MouseEvent)
      (l : loc) (p : Polygon.t) :
  In l (Polygon.points p) ->
  In (dragged_to s e l)
     (map (update (Drag.heap s) l (dragged_to s e l)) (Polygon.points p)).
Proof.
  intros Hin. apply in_map_iff. exists l. split; [apply update_same | exact Hin].
Qed.

(** ** The triangle example *)

Lemma triangle_edges_value :
  triangle_edges
  = [(Point.mk 10 0 0, Point.mk 5 10 0); (Point.mk 0 0 0, Point.mk 5 10 0)].
Proof. reflexivity. Qed.

(** C6: for the triangle (0,0), (10,0), (5,10), both 0 and 5 are scan
    lines of [fill].  At [y = 5] there are exactly two intersections, 2.5
    and 7.5, and one span is painted between them.  At [y = 0] (which is
    [minY]) the horizontal top edge gives no intersection, both slanted
    edges have their lower end at [y], the intersections are 0 and 10, and
    one span from 0 to 10 is painted. *)
Theorem triangle_rows (ctx : Ctx.t) :
  let color := Polygon.color triangle in
  polygon_scan_lines triangle_heap triangle = [0; 1; 2; 3; 4; 5; 6; 7; 8; 9]
  /\ (Polygon.intersections triangle_edges 5 = [Num 2.5; Num 7.5]
      /\ 2.5 == 5 # 2 /\ 7.5 == 15 # 2
      /\ Ctx.surface (Polygon.fill_row triangle_edges color 5 ctx)
         = Ctx.surface ctx ++ [span color 5 2.5 7.5])
  /\ (Polygon.getIntersection (triangle_heap 0%nat) (triangle_heap 1%nat) 0 = NaN
      /\ Forall (fun e => Point.y (fst e) == 0) triangle_edges
      /\ Polygon.intersections triangle_edges 0 = [Num 0.0; Num 10.0]
      /\ 0.0 == 0 /\ 10.0 == 10
      /\ Ctx.surface (Polygon.fill_row triangle_edges color 0 ctx)
         = Ctx.surface ctx ++ [span color 0 0.0 10.0])
  /\ Ctx.surface (Polygon.fill triangle_heap triangle ctx)
     = Ctx.surface ctx
       ++ [span color 0 0.0 10.0; span color 1 0.5 9.5; span color 2 1.0 9.0;
           span color 3 1.5 8.5; span color 4 2.0 8.0; span color 5 2.5 7.5;
           span color 6 3.0 7.0; span color 7 3.5 6.5; span color 8 4.0 6.0;
           span color 9 4.5 5.5].
Proof.
  intros color. split; [vm_compute; reflexivity | split; [|split]].
  - split; [vm_compute; reflexivity | split; [reflexivity | split; [reflexivity|]]].
    rewrite fill_row_paints. f_equal.
  - split; [reflexivity | split].
    + rewrite triangle_edges_value. repeat constructor.
    + split; [vm_compute; reflexivity
             | split; [reflexivity | split; [reflexivity|]]].
      rewrite fill_row_paints. f_equal.
  - destruct (fill_effect triangle_heap triangle ctx) as [_ ->].
    apply (f_equal (app (Ctx.surface ctx))). vm_compute. reflexivity.
Qed.

(** ** Convex polygons *)

Lemma vertex_nth_error (pts : list Point.t) (i : nat) :
  pts <> [] -> nth_error pts (i mod length pts) = Some (vertex pts i).
Proof.
  intros Hne. unfold vertex. apply nth_error_nth'.
  apply Nat.mod_upper_bound. destruct pts; [congruence | discriminate].
Qed.

Lemma vertex_below (pts : list Point.t) (i : nat) :
  (i < length pts)%nat -> nth_error pts i = Some (vertex pts i).
Proof.
  intros Hi. unfold vertex. rewrite Nat.mod_small by exact Hi.
  apply nth_error_nth', Hi.
Qed.

Lemma vertex_In (pts : list Point.t) (i : nat) :
  pts <> [] -> In (vertex pts i) pts.
Proof.
  intros Hne. eapply nth_error_In. apply vertex_nth_error, Hne.
Qed.

Lemma In_vertex (pts : list Point.t) (p : Point.t) :
  In p pts -> exists i, (i < length pts)%nat /\ vertex pts i = p.
Proof.
  intros Hin. destruct (In_nth _ _ origin Hin) as [i [Hi Hp]].
  exists i. split; [exact Hi|]. unfold vertex.
  rewrite Nat.mod_small by exact Hi. exact Hp.
Qed.

Lemma vertex_mod (pts : list Point.t) (i : nat) :
  vertex pts (i mod length pts) = vertex pts i.
Proof.
  unfold vertex. destruct pts as [|p pts]; [reflexivity|].
  rewrite Nat.Div0.mod_mod. reflexivity.
Qed.

Lemma vertex_succ_mod (pts : list Point.t) (i : nat) :
  vertex pts (S (i mod length pts)) = vertex pts (S i).
Proof.
  unfold vertex. destruct pts as [|p pts]; [reflexivity|].
  f_equal. rewrite <- (Nat.add_1_r (i mod _)), <- (Nat.add_1_r i).
  apply Nat.Div0.add_mod_idemp_l.
Qed.

Lemma add_edge_eq (pts : list Point.t) (edges : list (Point.t * Point.t))
      (i : nat) :
  (i < length pts)%nat ->
  Polygon.add_edge pts edges i = edges ++ edge_at pts i.
Proof.
  intros Hi. unfold Polygon.add_edge, edge_at.
  assert (Hne : pts <> []) by (destruct pts; [simpl in Hi; lia | discriminate]).
  rewrite (vertex_below pts i Hi).
  rewrite (vertex_nth_error pts (i + 1) Hne).
  rewrite Nat.add_1_r.
  destruct (Qeq_bool _ _); [now rewrite app_nil_r|].
  simpl. unfold positive, lt.
  assert (E : Qlt_bool 0 (Point.y (vertex pts i) - Point.y (vertex pts (S i)))
              = Qlt_bool (Point.y (vertex pts (S i))) (Point.y (vertex pts i))).
  { destruct (Qlt_bool (Point.y (vertex pts (S i))) _) eqn:E.
    - apply Qlt_bool_iff in E. cmp.
    - apply Qlt_bool_false_iff in E. cmp. }
  rewrite E. clear E.
  destruct (Qlt_bool (Point.y (vertex pts (S i))) (Point.y (vertex pts i)));
    reflexivity.
Qed.

Lemma build_edges_eq (pts : list Point.t) :
  Polygon.build_edges pts = flat_map (edge_at pts) (seq 0 (length pts)).
Proof.
  unfold Polygon.build_edges.
  assert (H : forall l acc,
             (forall i, In i l -> (i < length pts)%nat) ->
             fold_left (Polygon.add_edge pts) l acc
             = acc ++ flat_map (edge_at pts) l).
  { induction l as [|i l IH]; intros acc Hl; simpl.
    - now rewrite app_nil_r.
    - rewrite IH by (intros j Hj; apply Hl; right; exact Hj).
      rewrite add_edge_eq by (apply Hl; left; reflexivity).
      now rewrite <- app_assoc. }
  apply (H _ []). intros i Hi. apply in_seq in Hi. lia.
Qed.

(** *** Edges crossed by a scan line *)

Lemma up_iff (pts : list Point.t) (y : Q) (i : nat) :
  up pts y i = true
  <-> Point.y (vertex pts i) <= y < Point.y (vertex pts (S i)).
Proof.
  unfold up, above.
  rewrite andb_true_iff, negb_true_iff, Qlt_bool_false_iff, Qlt_bool_iff.
  tauto.
Qed.

Lemma down_iff (pts : list Point.t) (y : Q) (i : nat) :
  down pts y i = true
  <-> Point.y (vertex pts (S i)) <= y < Point.y (vertex pts i).
Proof.
  unfold down, above.
  rewrite andb_true_iff, negb_true_iff, Qlt_bool_false_iff, Qlt_bool_iff.
  tauto.
Qed.

Lemma up_down_exclusive (pts : list Point.t) (y : Q) (i : nat) :
  up pts y i = true -> down pts y i = true -> False.
Proof.
  rewrite up_iff, down_iff. lra.
Qed.

Lemma edge_at_crossing (pts : list Point.t) (y : Q) (i : nat) :
  filter not_NaN
    (map (fun e => Polygon.getIntersection (fst e) (snd e) y) (edge_at pts i))
  = crossing_x pts y i.
Proof.
  unfold edge_at, crossing_x.
  set (p1 := vertex pts i). set (p2 := vertex pts (S i)).
  destruct (up pts y i) eqn:Hup; [|destruct (down pts y i) eqn:Hdown].
  - apply up_iff in Hup. fold p1 p2 in Hup.
    replace (Qeq_bool (Point.y p1) (Point.y p2)) with false
      by (symmetry; cmp).
    replace (Qlt_bool (Point.y p2) (Point.y p1)) with false
      by (symmetry; cmp).
    simpl. rewrite (getIntersection_inside p1 p2 y Hup). reflexivity.
  - apply down_iff in Hdown. fold p1 p2 in Hdown.
    replace (Qeq_bool (Point.y p1) (Point.y p2)) with false
      by (symmetry; cmp).
    replace (Qlt_bool (Point.y p2) (Point.y p1)) with true
      by (symmetry; cmp).
    simpl. rewrite (getIntersection_inside p2 p1 y Hdown). reflexivity.
  - assert (Hnu : ~ (Point.y p1 <= y < Point.y p2)).
    { intros H. apply up_iff in H. congruence. }
    assert (Hnd : ~ (Point.y p2 <= y < Point.y p1)).
    { intros H. apply down_iff in H. congruence. }
    destruct (Qeq_bool (Point.y p1) (Point.y p2)); [reflexivity|].
    destruct (Qlt_bool (Point.y p2) (Point.y p1)); simpl.
    + rewrite (getIntersection_outside p2 p1 y Hnd). reflexivity.
    + rewrite (getIntersection_outside p1 p2 y Hnu). reflexivity.
Qed.

Lemma valid_intersections (pts : list Point.t) (y : Q) :
  filter not_NaN
    (map (fun e => Polygon.getIntersection (fst e) (snd e) y)
         (Polygon.build_edges pts))
  = flat_map (crossing_x pts y) (seq 0 (length pts)).
Proof.
  rewrite build_edges_eq.
  induction (seq 0 (length pts)) as [|i l IH]; simpl; [reflexivity|].
  rewrite map_app, filter_app, IH, edge_at_crossing. reflexivity.
Qed.

Lemma intersections_eq (pts : list Point.t) (y : Q) :
  Polygon.intersections (Polygon.build_edges pts) y
  = sort sub (flat_map (crossing_x pts y) (seq 0 (length pts))).
Proof.
  unfold Polygon.intersections. f_equal. apply valid_intersections.
Qed.

(** *** Counting the crossings of a closed loop *)

Lemma above_periodic (pts : list Point.t) (y : Q) (i : nat) :
  above y (vertex pts (i + length pts)) = above y (vertex pts i).
Proof.
  unfold vertex. destruct pts as [|p pts].
  - rewrite !nth_overflow by (simpl; lia). reflexivity.
  - rewrite <- Nat.Div0.add_mod_idemp_r, Nat.Div0.mod_same, Nat.add_0_r.
    reflexivity.
Qed.

Lemma up_mod (pts : list Point.t) (y : Q) (i : nat) :
  up pts y (i mod length pts) = up pts y i.
Proof. unfold up. rewrite vertex_mod, vertex_succ_mod. reflexivity. Qed.

Lemma down_mod (pts : list Point.t) (y : Q) (i : nat) :
  down pts y (i mod length pts) = down pts y i.
Proof. unfold down. rewrite vertex_mod, vertex_succ_mod. reflexivity. Qed.

(** Between a vertex that is not above the scan line and a later one
    that is, some edge goes up. *)
Lemma up_between (pts : list Point.t) (y : Q) (k : nat) :
  forall m,
    above y (vertex pts m) = false ->
    above y (vertex pts (m + k)) = true ->
    exists i, up pts y i = true.
Proof.
  induction k as [|k IH]; intros m Hm Hk.
  - rewrite Nat.add_0_r in Hk. congruence.
  - destruct (above y (vertex pts (S m))) eqn:E.
    + exists m. unfold up. rewrite Hm, E. reflexivity.
    + apply (IH (S m) E). rewrite <- Nat.add_succ_comm in Hk. exact Hk.
Qed.

Lemma down_between (pts : list Point.t) (y : Q) (k : nat) :
  forall m,
    above y (vertex pts m) = true ->
    above y (vertex pts (m + k)) = false ->
    exists i, down pts y i = true.
Proof.
  induction k as [|k IH]; intros m Hm Hk.
  - rewrite Nat.add_0_r in Hk. congruence.
  - destruct (above y (vertex pts (S m))) eqn:E.
    + apply (IH (S m) E). rewrite <- Nat.add_succ_comm in Hk. exact Hk.
    + exists m. unfold down. rewrite Hm, E. reflexivity.
Qed.

Lemma index_mod_below (pts : list Point.t) (i : nat) :
  pts <> [] -> (i mod length pts < length pts)%nat.
Proof.
  intros Hne. apply Nat.mod_upper_bound.
  destruct pts; [congruence | discriminate].
Qed.

(** A scan line in [[minY, maxY)] is crossed by an edge that goes up and
    by one that goes down. *)
Lemma crossings_exist (pts : list Point.t) (y minY maxY : Q) :
  is_min minY (map Point.y pts) -> is_max maxY (map Point.y pts) ->
  minY <= y < maxY ->
  (exists i, (i < length pts)%nat /\ up pts y i = true)
  /\ (exists i, (i < length pts)%nat /\ down pts y i = true).
Proof.
  intros [Hmin _] [Hmax _] [Hlo Hhi].
  apply in_map_iff in Hmin. destruct Hmin as [pm [Em Hpm]].
  apply in_map_iff in Hmax. destruct Hmax as [pM [EM HpM]].
  assert (Hne : pts <> []) by (intros ->; contradiction).
  destruct (In_vertex pts pm Hpm) as [m [Hm Evm]].
  destruct (In_vertex pts pM HpM) as [M [HM EvM]].
  assert (Hbelow : above y (vertex pts m) = false).
  { unfold above. rewrite Evm, Em. apply Qlt_bool_false_iff. exact Hlo. }
  assert (Habove : above y (vertex pts M) = true).
  { unfold above. rewrite EvM, EM. apply Qlt_bool_iff. exact Hhi. }
  split.
  - destruct (up_between pts y (M + length pts - m) m Hbelow) as [i Hi].
    + replace (m + (M + length pts - m))%nat with (M + length pts)%nat by lia.
      rewrite above_periodic. exact Habove.
    + exists (i mod length pts). split; [apply index_mod_below, Hne|].
      rewrite up_mod. exact Hi.
  - destruct (down_between pts y (m + length pts - M) M Habove) as [i Hi].
    + replace (M + (m + length pts - M))%nat with (m + length pts)%nat by lia.
      rewrite above_periodic. exact Hbelow.
    + exists (i mod length pts). split; [apply index_mod_below, Hne|].
      rewrite down_mod. exact Hi.
Qed.

(** *** Half-planes and crossings *)

Lemma cross_compat (a b : Point.t) (px py qx qy : Q) :
  px == qx -> py == qy -> cross a b px py == cross a b qx qy.
Proof. intros Hx Hy. unfold cross. rewrite Hx, Hy. reflexivity. Qed.

Lemma on_side_compat (o : orientation) (a b : Point.t) (px py qx qy : Q) :
  px == qx -> py == qy -> on_side o a b px py -> on_side o a b qx qy.
Proof.
  intros Hx Hy. pose proof (cross_compat a b px py qx qy Hx Hy) as E.
  destruct o; simpl; lra.
Qed.

Lemma cross_along (a b c d : Point.t) (t : Q) :
  cross a b (fst (along c d t)) (snd (along c d t))
  == (1 - t) * cross a b (Point.x c) (Point.y c)
     + t * cross a b (Point.x d) (Point.y d).
Proof. unfold cross, along. simpl. ring. Qed.

(** A half-plane is convex. *)
Lemma on_side_along (o : orientation) (a b c d : Point.t) (t : Q) :
  0 <= t <= 1 ->
  on_side o a b (Point.x c) (Point.y c) ->
  on_side o a b (Point.x d) (Point.y d) ->
  on_side o a b (fst (along c d t)) (snd (along c d t)).
Proof.
  intros Ht Hc Hd. pose proof (cross_along a b c d t) as E.
  destruct o; simpl in *; nra.
Qed.

(** At the height of the scan line, the side of a point is read off its
    distance to the crossing. *)
Lemma cross_up (a b : Point.t) (px y : Q) :
  Point.y a < Point.y b ->
  cross a b px y == (Point.y b - Point.y a) * (interpolate a b y - px).
Proof. intros H. unfold cross, interpolate. field. lra. Qed.

Lemma cross_down (a b : Point.t) (px y : Q) :
  Point.y b < Point.y a ->
  cross a b px y == (Point.y b - Point.y a) * (interpolate b a y - px).
Proof. intros H. unfold cross, interpolate. field. lra. Qed.

Lemma along_up (a b : Point.t) (y : Q) :
  Point.y a <= y < Point.y b ->
  exists t, 0 <= t /\ t < 1
            /\ same_point (along a b t) (interpolate a b y, y).
Proof.
  intros Hy. exists ((y - Point.y a) / (Point.y b - Point.y a)).
  assert (Hd : 0 < Point.y b - Point.y a) by lra.
  split; [|split; [|split]].
  - apply Qle_shift_div_l; [exact Hd | lra].
  - apply Qlt_shift_div_r; [exact Hd | lra].
  - unfold along, interpolate. simpl. field. lra.
  - unfold along. simpl. field. lra.
Qed.

Lemma along_down (a b : Point.t) (y : Q) :
  Point.y b <= y < Point.y a ->
  exists t, 0 < t /\ t <= 1
            /\ same_point (along a b t) (interpolate b a y, y).
Proof.
  intros Hy. exists ((Point.y a - y) / (Point.y a - Point.y b)).
  assert (Hd : 0 < Point.y a - Point.y b) by lra.
  split; [|split; [|split]].
  - apply Qlt_shift_div_l; [exact Hd | lra].
  - apply Qle_shift_div_r; [exact Hd | lra].
  - unfold along, interpolate. simpl. field. lra.
  - unfold along. simpl. field. lra.
Qed.

Lemma same_point_trans (p q r : Q * Q) :
  same_point p q -> same_point q r -> same_point p r.
Proof. intros [H1 H2] [H3 H4]. split; lra. Qed.

Lemma same_point_sym (p q : Q * Q) : same_point p q -> same_point q p.
Proof. intros [H1 H2]. split; lra. Qed.

(** On a horizontal line the inner side of an edge is an interval. *)
Lemma on_side_between (o : orientation) (a b : Point.t) (x1 x2 x y : Q) :
  x1 <= x <= x2 ->
  on_side o a b x1 y -> on_side o a b x2 y -> on_side o a b x y.
Proof.
  intros Hx H1 H2. unfold on_side, cross in *.
  destruct (Qlt_le_dec (Point.y b - Point.y a) 0); destruct o; nra.
Qed.

Lemma flat_map_none {A B : Type} (f : A -> list B) (l : list A) :
  (forall i, In i l -> f i = []) -> flat_map f l = [].
Proof.
  induction l as [|a l IH]; intros H; simpl; [reflexivity|].
  rewrite (H a) by (left; reflexivity).
  apply IH. intros i Hi. apply H. right. exact Hi.
Qed.

Lemma flat_map_one {A B : Type} (f : A -> list B) (l : list A) (u : A) :
  NoDup l -> In u l ->
  (forall i, In i l -> i <> u -> f i = []) ->
  flat_map f l = f u.
Proof.
  induction l as [|a l IH]; intros Hnd Hu H; [contradiction|].
  inversion Hnd as [|? ? Ha Hnd']; subst. simpl.
  destruct Hu as [-> | Hu].
  - rewrite flat_map_none; [apply app_nil_r|].
    intros i Hi. apply H; [right; exact Hi|]. intros ->. contradiction.
  - rewrite (H a); [|left; reflexivity | intros ->; contradiction].
    apply IH; auto. intros i Hi. apply H. right. exact Hi.
Qed.

Lemma flat_map_two {A B : Type} (f : A -> list B) (l : list A) (u d : A) :
  NoDup l -> In u l -> In d l -> u <> d ->
  (forall i, In i l -> i <> u -> i <> d -> f i = []) ->
  flat_map f l = f u ++ f d \/ flat_map f l = f d ++ f u.
Proof.
  induction l as [|a l IH]; intros Hnd Hu Hd Hne H; [contradiction|].
  inversion Hnd as [|? ? Ha Hnd']; subst. simpl.
  destruct Hu as [-> | Hu], Hd as [-> | Hd].
  - congruence.
  - left. f_equal. apply flat_map_one; auto.
    intros i Hi Hid. apply H; [right; exact Hi | | exact Hid].
    intros ->. contradiction.
  - right. f_equal. apply flat_map_one; auto.
    intros i Hi Hiu. apply H; [right; exact Hi | exact Hiu |].
    intros ->. contradiction.
  - rewrite (H a); [|left; reflexivity | intros ->; contradiction
                    | intros ->; contradiction].
    apply IH; auto. intros i Hi. apply H. right. exact Hi.
Qed.

Lemma crossing_x_up (pts : list Point.t) (y : Q) (i : nat) :
  up pts y i = true ->
  crossing_x pts y i
  = [Num (interpolate (vertex pts i) (vertex pts (S i)) y)].
Proof. intros H. unfold crossing_x. rewrite H. reflexivity. Qed.

Lemma crossing_x_down (pts : list Point.t) (y : Q) (i : nat) :
  down pts y i = true ->
  crossing_x pts y i
  = [Num (interpolate (vertex pts (S i)) (vertex pts i) y)].
Proof.
  intros H. unfold crossing_x. rewrite H.
  destruct (up pts y i) eqn:E; [|reflexivity].
  exfalso. exact (up_down_exclusive pts y i E H).
Qed.

Lemma crossing_x_none (pts : list Point.t) (y : Q) (i : nat) :
  up pts y i = false -> down pts y i = false -> crossing_x pts y i = [].
Proof. intros Hu Hd. unfold crossing_x. rewrite Hu, Hd. reflexivity. Qed.

Lemma sort_two (a b : Q) :
  sort sub [Num a; Num b]
  = if Qlt_bool b a then [Num b; Num a] else [Num a; Num b].
Proof.
  simpl. unfold positive, lt.
  assert (E : Qlt_bool 0 (a - b) = Qlt_bool b a).
  { destruct (Qlt_bool b a) eqn:E.
    - apply Qlt_bool_iff in E. cmp.
    - apply Qlt_bool_false_iff in E. cmp. }
  rewrite E. reflexivity.
Qed.

Lemma sort_two_cases (a b : Q) :
  exists lo hi,
    sort sub [Num a; Num b] = [Num lo; Num hi] /\ lo <= hi
    /\ ((lo = a /\ hi = b) \/ (lo = b /\ hi = a)).
Proof.
  rewrite sort_two. destruct (Qlt_bool b a) eqn:E.
  - apply Qlt_bool_iff in E. exists b, a. split; [reflexivity|].
    split; [lra | right; auto].
  - apply Qlt_bool_false_iff in E. exists a, b. split; [reflexivity|].
    split; [lra | left; auto].
Qed.

(** *** Convexity *)

Section ConvexPolygon.

Variables (o : orientation) (pts : list Point.t).
Hypothesis Hconvex : convex o pts.

Lemma convex_every_vertex (i k : nat) :
  (i < length pts)%nat ->
  on_side o (vertex pts i) (vertex pts (S i))
          (Point.x (vertex pts k)) (Point.y (vertex pts k)).
Proof.
  intros Hi. destruct Hconvex as [Hn [_ Hside]].
  rewrite <- (vertex_mod pts k).
  apply Hside; [exact Hi|]. apply Nat.mod_upper_bound. lia.
Qed.

(** The crossing of any edge with the scan line is on the inner side of
    every edge. *)
Lemma crossing_on_side (i j : nat) (t X y : Q) :
  (i < length pts)%nat ->
  0 <= t <= 1 ->
  same_point (along (vertex pts j) (vertex pts (S j)) t) (X, y) ->
  on_side o (vertex pts i) (vertex pts (S i)) X y.
Proof.
  intros Hi Ht [Hx Hy]. simpl in Hx, Hy.
  apply (on_side_compat o _ _ _ _ _ _ Hx Hy).
  apply on_side_along; [exact Ht | |]; apply convex_every_vertex; assumption.
Qed.

(** In a convex polygon at most one edge goes up through a scan line,
    and at most one goes down. *)
Lemma up_unique (y : Q) (i j : nat) :
  (i < length pts)%nat -> (j < length pts)%nat ->
  up pts y i = true -> up pts y j = true -> i = j.
Proof.
  intros Hi Hj Hui Huj.
  destruct (Nat.eq_dec i j) as [E | Hne]; [exact E | exfalso].
  apply up_iff in Hui. apply up_iff in Huj.
  destruct (along_up _ _ y Hui) as [t [Ht0 [Ht1 Pt]]].
  destruct (along_up _ _ y Huj) as [s [Hs0 [Hs1 Ps]]].
  set (Xi := interpolate (vertex pts i) (vertex pts (S i)) y) in *.
  set (Xj := interpolate (vertex pts j) (vertex pts (S j)) y) in *.
  assert (Hji : on_side o (vertex pts i) (vertex pts (S i)) Xj y).
  { apply (crossing_on_side i j s); auto. lra. }
  assert (Hij : on_side o (vertex pts j) (vertex pts (S j)) Xi y).
  { apply (crossing_on_side j i t); auto. lra. }
  assert (Ei : cross (vertex pts i) (vertex pts (S i)) Xj y
               == (Point.y (vertex pts (S i)) - Point.y (vertex pts i))
                  * (Xi - Xj)) by (apply cross_up; lra).
  assert (Ej : cross (vertex pts j) (vertex pts (S j)) Xi y
               == (Point.y (vertex pts (S j)) - Point.y (vertex pts j))
                  * (Xj - Xi)) by (apply cross_up; lra).
  assert (EX : Xi == Xj) by (destruct o; simpl in Hji, Hij; nra).
  destruct Hconvex as [_ [Hsimple _]].
  assert (P : same_point (along (vertex pts i) (vertex pts (S i)) t)
                         (along (vertex pts j) (vertex pts (S j)) s)).
  { eapply same_point_trans; [exact Pt|]. apply same_point_sym.
    eapply same_point_trans; [exact Ps|]. split; simpl; lra. }
  destruct (Hsimple i j t s Hi Hj Hne) as [[H _] | [_ [H _]]]; auto; lra.
Qed.

Lemma down_unique (y : Q) (i j : nat) :
  (i < length pts)%nat -> (j < length pts)%nat ->
  down pts y i = true -> down pts y j = true -> i = j.
Proof.
  intros Hi Hj Hdi Hdj.
  destruct (Nat.eq_dec i j) as [E | Hne]; [exact E | exfalso].
  apply down_iff in Hdi. apply down_iff in Hdj.
  destruct (along_down _ _ y Hdi) as [t [Ht0 [Ht1 Pt]]].
  destruct (along_down _ _ y Hdj) as [s [Hs0 [Hs1 Ps]]].
  set (Xi := interpolate (vertex pts (S i)) (vertex pts i) y) in *.
  set (Xj := interpolate (vertex pts (S j)) (vertex pts j) y) in *.
  assert (Hji : on_side o (vertex pts i) (vertex pts (S i)) Xj y).
  { apply (crossing_on_side i j s); auto. lra. }
  assert (Hij : on_side o (vertex pts j) (vertex pts (S j)) Xi y).
  { apply (crossing_on_side j i t); auto. lra. }
  assert (Ei : cross (vertex pts i) (vertex pts (S i)) Xj y
               == (Point.y (vertex pts (S i)) - Point.y (vertex pts i))
                  * (Xi - Xj)) by (apply cross_down; lra).
  assert (Ej : cross (vertex pts j) (vertex pts (S j)) Xi y
               == (Point.y (vertex pts (S j)) - Point.y (vertex pts j))
                  * (Xj - Xi)) by (apply cross_down; lra).
  assert (EX : Xi == Xj) by (destruct o; simpl in Hji, Hij; nra).
  destruct Hconvex as [_ [Hsimple _]].
  assert (P : same_point (along (vertex pts i) (vertex pts (S i)) t)
                         (along (vertex pts j) (vertex pts (S j)) s)).
  { eapply same_point_trans; [exact Pt|]. apply same_point_sym.
    eapply same_point_trans; [exact Ps|]. split; simpl; lra. }
  destruct (Hsimple i j t s Hi Hj Hne) as [[_ [H _]] | [H _]]; auto; lra.
Qed.

(** A scan line in [[minY, maxY)] meets a convex polygon on exactly two
    edges: one that goes up and one that goes down. *)
Lemma convex_two_crossings (y minY maxY : Q) :
  is_min minY (map Point.y pts) -> is_max maxY (map Point.y pts) ->
  minY <= y < maxY ->
  exists u d,
    (u < length pts)%nat /\ (d < length pts)%nat
    /\ up pts y u = true /\ down pts y d = true
    /\ let Xu := interpolate (vertex pts u) (vertex pts (S u)) y in
       let Xd := interpolate (vertex pts (S d)) (vertex pts d) y in
       flat_map (crossing_x pts y) (seq 0 (length pts)) = [Num Xu; Num Xd]
       \/ flat_map (crossing_x pts y) (seq 0 (length pts)) = [Num Xd; Num Xu].
Proof.
  intros Hmin Hmax Hy.
  destruct (crossings_exist pts y minY maxY Hmin Hmax Hy)
    as [[u [Hu Hup]] [d [Hd Hdown]]].
  exists u, d. repeat (split; [assumption|]). cbv zeta.
  assert (Hne : u <> d).
  { intros ->. exact (up_down_exclusive pts y d Hup Hdown). }
  destruct (flat_map_two (crossing_x pts y) (seq 0 (length pts)) u d)
    as [E | E].
  - apply seq_NoDup.
  - apply in_seq. lia.
  - apply in_seq. lia.
  - exact Hne.
  - intros i Hi Hiu Hid. apply in_seq in Hi. apply crossing_x_none.
    + destruct (up pts y i) eqn:E; [|reflexivity]. exfalso. apply Hiu.
      apply (up_unique y i u); auto. lia.
    + destruct (down pts y i) eqn:E; [|reflexivity]. exfalso. apply Hid.
      apply (down_unique y i d); auto. lia.
  - left. rewrite E, (crossing_x_up _ _ _ Hup), (crossing_x_down _ _ _ Hdown).
    reflexivity.
  - right. rewrite E, (crossing_x_up _ _ _ Hup), (crossing_x_down _ _ _ Hdown).
    reflexivity.
Qed.

(** The section of a convex polygon by a scan line is the interval
    between the two crossings. *)
Lemma section_of_convex (y : Q) (u d : nat) :
  (u < length pts)%nat -> (d < length pts)%nat ->
  up pts y u = true -> down pts y d = true ->
  let Xu := interpolate (vertex pts u) (vertex pts (S u)) y in
  let Xd := interpolate (vertex pts (S d)) (vertex pts d) y in
  match o with
  | Positive => Xd <= Xu /\ forall x, in_polygon o pts x y <-> Xd <= x <= Xu
  | Negative => Xu <= Xd /\ forall x, in_polygon o pts x y <-> Xu <= x <= Xd
  end.
Proof.
  intros Hu Hd Hup Hdown Xu Xd.
  apply up_iff in Hup. apply down_iff in Hdown.
  destruct (along_up _ _ y Hup) as [t [Ht0 [Ht1 Pt]]].
  destruct (along_down _ _ y Hdown) as [s [Hs0 [Hs1 Ps]]].
  fold Xu in Pt. fold Xd in Ps.
  assert (Hside_u : forall k, (k < length pts)%nat ->
            on_side o (vertex pts k) (vertex pts (S k)) Xu y).
  { intros k Hk. apply (crossing_on_side k u t); auto. lra. }
  assert (Hside_d : forall k, (k < length pts)%nat ->
            on_side o (vertex pts k) (vertex pts (S k)) Xd y).
  { intros k Hk. apply (crossing_on_side k d s); auto. lra. }
  assert (Eu : forall x, cross (vertex pts u) (vertex pts (S u)) x y
               == (Point.y (vertex pts (S u)) - Point.y (vertex pts u))
                  * (Xu - x)) by (intros x; apply cross_up; lra).
  assert (Ed : forall x, cross (vertex pts d) (vertex pts (S d)) x y
               == (Point.y (vertex pts (S d)) - Point.y (vertex pts d))
                  * (Xd - x)) by (intros x; apply cross_down; lra).
  pose proof (Hside_u d Hd) as Hud. pose proof (Eu Xd) as Eud.
  pose proof (Hside_d u Hu) as Hdu.
  destruct o; simpl in Hud, Hdu.
  - split; [nra|]. intros x. split.
    + intros Hin. pose proof (Hin u Hu) as H1. pose proof (Hin d Hd) as H2.
      simpl in H1, H2. pose proof (Eu x). pose proof (Ed x). split; nra.
    + intros Hx k Hk.
      apply (on_side_between Positive _ _ Xd Xu x y Hx); auto.
  - split; [nra|]. intros x. split.
    + intros Hin. pose proof (Hin u Hu) as H1. pose proof (Hin d Hd) as H2.
      simpl in H1, H2. pose proof (Eu x). pose proof (Ed x). split; nra.
    + intros Hx k Hk.
      apply (on_side_between Negative _ _ Xu Xd x y Hx); auto.
Qed.

End ConvexPolygon.

Lemma convex_row (o : orientation) (h : Heap) (p : Polygon.t)
      (ctx : Ctx.t) (y minY maxY : Q) :
  let pts := map h (Polygon.points p) in
  let edges := Polygon.build_edges pts in
  convex o pts ->
  is_min minY (vertex_ys h p) -> is_max maxY (vertex_ys h p) ->
  minY <= y < maxY ->
  exists a b,
    a <= b
    /\ Polygon.intersections edges y = [Num a; Num b]
    /\ Ctx.surface (Polygon.fill_row edges (Polygon.color p) y ctx)
       = Ctx.surface ctx ++ [span (Polygon.color p) y a b]
    /\ forall x, in_polygon o pts x y <-> a <= x <= b.
Proof.
  intros pts edges Hconvex Hmin Hmax Hy. unfold vertex_ys in Hmin, Hmax.
  fold pts in Hmin, Hmax.
  destruct (convex_two_crossings o pts Hconvex y minY maxY Hmin Hmax Hy)
    as [u [d [Hu [Hd [Hup [Hdown Hxs]]]]]].
  pose proof (section_of_convex o pts Hconvex y u d Hu Hd Hup Hdown) as Hsec.
  cbv zeta in Hxs, Hsec.
  set (Xu := interpolate (vertex pts u) (vertex pts (S u)) y) in *.
  set (Xd := interpolate (vertex pts (S d)) (vertex pts d) y) in *.
  assert (Hsorted : exists lo hi,
             Polygon.intersections edges y = [Num lo; Num hi] /\ lo <= hi
             /\ ((lo = Xu /\ hi = Xd) \/ (lo = Xd /\ hi = Xu))).
  { unfold edges. rewrite intersections_eq.
    destruct Hxs as [-> | ->].
    - destruct (sort_two_cases Xu Xd) as [lo [hi [E [Hle Hc]]]].
      exists lo, hi. tauto.
    - destruct (sort_two_cases Xd Xu) as [lo [hi [E [Hle Hc]]]].
      exists lo, hi. tauto. }
  destruct Hsorted as [lo [hi [Exs [Hle Hlohi]]]].
  exists lo, hi. split; [exact Hle | split; [exact Exs | split]].
  - rewrite (fill_row_surface edges _ y ctx [lo; hi] Exs). reflexivity.
  - intros x.
    destruct o; destruct Hsec as [Hord Hiff]; rewrite Hiff;
      destruct Hlohi as [[-> ->] | [-> ->]]; split; intros; lra.
Qed.

(** One span on each line: the paints of the lines as a list of rows. *)
Lemma rows_of_lines (color : Color) (paints : Q -> list Ctx.paint)
      (P : row -> Prop) (lines : list Q) :
  (forall y, In y lines ->
     exists a b, paints y = [span color y a b] /\ P (mkRow y a b)) ->
  exists rows,
    flat_map paints lines = map (row_span color) rows
    /\ map row_y rows = lines
    /\ Forall P rows.
Proof.
  induction lines as [|y lines IH]; intros H.
  - exists []. split; [reflexivity | split; [reflexivity | constructor]].
  - destruct (H y (or_introl eq_refl)) as (a & b & E & HP).
    destruct IH as (rows & E1 & E2 & HF).
    { intros y' Hy'. apply H. right. exact Hy'. }
    exists (mkRow y a b :: rows). simpl. rewrite E, E1, E2.
    split; [reflexivity | split; [reflexivity|]].
    constructor; assumption.
Qed.

(** What [fill] paints on a convex polygon: one span on each line of its
    loop, the section of the polygon by that line. *)
Lemma convex_fill_spans (o : orientation) (h : Heap) (p : Polygon.t)
      (ctx : Ctx.t) (minY maxY : Q) :
  let pts := map h (Polygon.points p) in
  let edges := Polygon.build_edges pts in
  convex o pts ->
  is_min minY (vertex_ys h p) -> is_max maxY (vertex_ys h p) ->
  exists rows,
    Ctx.surface (Polygon.fill h p ctx)
    = Ctx.surface ctx ++ map (row_span (Polygon.color p)) rows
    /\ map row_y rows = polygon_scan_lines h p
    /\ Forall (fun r =>
                 minY <= row_y r < maxY
                 /\ row_from r <= row_to r
                 /\ Polygon.intersections edges (row_y r)
                    = [Num (row_from r); Num (row_to r)]
                 /\ forall x, in_polygon o pts x (row_y r)
                              <-> row_from r <= x <= row_to r) rows.
Proof.
  intros pts edges Hconvex Hmin Hmax.
  destruct (fill_effect h p ctx) as [_ ->]. unfold fill_paints.
  fold pts. fold edges.
  destruct (rows_of_lines (Polygon.color p)
              (row_paints edges (Polygon.color p))
              (fun r =>
                 minY <= row_y r < maxY
                 /\ row_from r <= row_to r
                 /\ Polygon.intersections edges (row_y r)
                    = [Num (row_from r); Num (row_to r)]
                 /\ forall x, in_polygon o pts x (row_y r)
                              <-> row_from r <= x <= row_to r)
              (polygon_scan_lines h p)) as (rows & E1 & E2 & HF).
  - intros y Hin.
    assert (Hne : Polygon.points p <> []).
    { intros E. rewrite (polygon_scan_lines_empty h p E) in Hin.
      contradiction. }
    destruct (polygon_scan_lines_extent h p Hne) as [lo [hi [Hlo [Hhi E]]]].
    rewrite E in Hin. apply scan_lines_range in Hin.
    pose proof (is_min_unique _ _ _ Hlo Hmin) as Elo.
    pose proof (is_max_unique _ _ _ Hhi Hmax) as Ehi.
    assert (Hy : minY <= y < maxY) by lra.
    destruct (convex_row o h p ctx y minY maxY Hconvex Hmin Hmax Hy)
      as [a [b [Hab [Hxs [_ Hsec]]]]].
    exists a, b. split.
    + unfold row_paints. fold pts in Hxs. fold edges in Hxs.
      rewrite Hxs. reflexivity.
    + simpl. auto.
  - exists rows. rewrite E1. auto.
Qed.


(** The triangle (0,0), (10,0), (5,10) is convex. *)
Lemma triangle_simple : simple (map triangle_heap (Polygon.points triangle)).
Proof.
  intros i j t s Hi Hj Hne Ht Hs [Px Py]. simpl in Hi, Hj.
  destruct i as [|[|[|i]]]; try lia;
    destruct j as [|[|[|j]]]; try lia; try congruence;
    cbn in Px, Py.
  - left. split; [lra | split; [lra | reflexivity]].
  - right. split; [lra | split; [lra | reflexivity]].
  - right. split; [lra | split; [lra | reflexivity]].
  - left. split; [lra | split; [lra | reflexivity]].
  - left. split; [lra | split; [lra | reflexivity]].
  - right. split; [lra | split; [lra | reflexivity]].
Qed.

Lemma triangle_convex :
  convex Positive (map triangle_heap (Polygon.points triangle)).
Proof.
  split; [simpl; lia | split; [exact triangle_simple|]].
  intros i j Hi Hj. simpl in Hi, Hj.
  destruct i as [|[|[|i]]]; try lia;
    destruct j as [|[|[|j]]]; try lia; vm_compute; discriminate.
Qed.


(** ** Closed vertex loops give an even number of intersections

    For the polygon of a [fill], whose edges close a loop, the odd case
    of the pairing loop does not arise: along the loop the edges that go
    up through a scan line are as many as those that go down. *)

Lemma count_succ (f : nat -> bool) (k : nat) :
  count f (S k) = (count f k + if f k then 1 else 0)%nat.
Proof.
  unfold count. rewrite seq_S, filter_app, length_app. simpl.
  destruct (f k); reflexivity.
Qed.

Lemma ups_and_downs (pts : list Point.t) (y : Q) (k : nat) :
  (count (up pts y) k + (if above y (vertex pts 0) then 1 else 0)
   = count (down pts y) k + (if above y (vertex pts k) then 1 else 0))%nat.
Proof.
  induction k as [|k IH]; [reflexivity|].
  rewrite !count_succ. unfold up at 2, down at 2.
  destruct (above y (vertex pts k)), (above y (vertex pts (S k)));
    simpl; lia.
Qed.

Lemma ups_eq_downs (pts : list Point.t) (y : Q) :
  count (up pts y) (length pts) = count (down pts y) (length pts).
Proof.
  pose proof (ups_and_downs pts y (length pts)) as H.
  rewrite <- (above_periodic pts y 0) in H. simpl in H. lia.
Qed.

Lemma crossings_length (pts : list Point.t) (y : Q) (k : nat) :
  length (flat_map (crossing_x pts y) (seq 0 k))
  = (count (up pts y) k + count (down pts y) k)%nat.
Proof.
  induction k as [|k IH]; [reflexivity|].
  rewrite seq_S, flat_map_app, length_app, IH, !count_succ. simpl.
  unfold crossing_x.
  destruct (up pts y k) eqn:Hu, (down pts y k) eqn:Hd; simpl; try lia.
  exfalso. exact (up_down_exclusive pts y k Hu Hd).
Qed.

Lemma intersections_even (pts : list Point.t) (y : Q) :
  length (Polygon.intersections (Polygon.build_edges pts) y)
  = (2 * count (up pts y) (length pts))%nat.
Proof.
  rewrite intersections_eq, sort_length, crossings_length.
  rewrite <- ups_eq_downs. lia.
Qed.

(** ** Methods keep the context *)

Lemma addPoint_keeps_ctx (h : Heap) (cv cv' : Canvas.t) (l : loc) :
  Canvas.addPoint h cv l = Canvas.Normal cv' -> Canvas.ctx cv' = Canvas.ctx cv.
Proof.
  unfold Canvas.addPoint. destruct (Canvas.isOutOfBounds cv (h l));
    [discriminate|]. intros E. injection E as <-. reflexivity.
Qed.

Lemma addPolygon_keeps_ctx (h : Heap) (cv cv' : Canvas.t) (p : Polygon.t) :
  Canvas.addPolygon h cv p = Canvas.Normal cv' -> Canvas.ctx cv' = Canvas.ctx cv.
Proof.
  unfold Canvas.addPolygon. destruct (existsb _ _); [discriminate|].
  intros E. injection E as <-. reflexivity.
Qed.

(** ** The theorems at concrete inputs *)

(** A point on the corner of the surface is added; a point one unit
    beyond the right side is refused. *)
Lemma addPoint_inclusive_bounds_witness :
  let cv := Canvas.new 20 20 in
  (in_bounds cv (corner_heap 0%nat)
   /\ Canvas.addPoint corner_heap cv 0%nat = Canvas.Normal (push_point cv 0%nat))
  /\ (~ in_bounds cv (corner_heap 1%nat)
      /\ Canvas.addPoint corner_heap cv 1%nat
         = Canvas.Throw (Error "Point out of bounds") cv).
Proof.
  intros cv.
  assert (Hin : in_bounds cv (corner_heap 0%nat)).
  { unfold in_bounds. simpl. repeat split; discriminate. }
  assert (Hout : ~ in_bounds cv (corner_heap 1%nat)).
  { unfold in_bounds. simpl. intros [[_ H] _]. apply H. reflexivity. }
  split; split; [exact Hin | | exact Hout |].
  - exact (proj1 (proj1 (addPoint_inclusive_bounds corner_heap cv 0%nat)) Hin).
  - exact (proj1 (proj2 (addPoint_inclusive_bounds corner_heap cv 1%nat)) Hout).
Defined.

(** A polygon on points of the surface is added; with one point beyond
    the right side it is refused. *)
Lemma addPolygon_checks_current_points_witness :
  let cv := Canvas.new 20 20 in
  let inside := Polygon.mk [0; 2; 2]%nat (mkColor 255 0 0 1) in
  let outside := Polygon.mk [0; 1; 2]%nat (mkColor 255 0 0 1) in
  ((forall l, In l (Polygon.points inside) -> in_bounds cv (corner_heap l))
   /\ Canvas.addPolygon corner_heap cv inside
      = Canvas.Normal (push_polygon cv inside))
  /\ ((exists l, In l (Polygon.points outside) /\ ~ in_bounds cv (corner_heap l))
      /\ Canvas.addPolygon corner_heap cv outside
         = Canvas.Throw (Error "Polygon out of bounds") cv).
Proof.
  intros cv inside outside.
  assert (Hin : forall l, In l (Polygon.points inside) ->
                          in_bounds cv (corner_heap l)).
  { intros l [<- | [<- | [<- | []]]]; unfold in_bounds; simpl;
      repeat split; discriminate. }
  assert (Hout : exists l, In l (Polygon.points outside)
                           /\ ~ in_bounds cv (corner_heap l)).
  { exists 1%nat. split; [right; left; reflexivity|].
    unfold in_bounds. simpl. intros [[_ H] _]. apply H. reflexivity. }
  split; split; [exact Hin | | exact Hout |].
  - exact (proj1 (proj2 (addPolygon_checks_current_points corner_heap cv inside))
             Hin).
  - exact (proj1 (proj1 (addPolygon_checks_current_points corner_heap cv outside))
             Hout).
Defined.

(** The scan lines of the triangle (0,0), (10,0), (5,10): the integers
    from 0 to 9. *)
Lemma fill_scan_range_witness :
  Polygon.points triangle <> []
  /\ exists minY maxY,
       is_min minY (vertex_ys triangle_heap triangle)
       /\ is_max maxY (vertex_ys triangle_heap triangle)
       /\ (forall y, In y (polygon_scan_lines triangle_heap triangle) ->
             minY <= y < maxY)
       /\ (minY < maxY ->
           exists rest, polygon_scan_lines triangle_heap triangle = minY :: rest)
       /\ StronglySorted Qlt (polygon_scan_lines triangle_heap triangle)
       /\ (forall m : Z, minY == inject_Z m ->
             Forall2 (fun y n => y == inject_Z n)
                     (polygon_scan_lines triangle_heap triangle)
                     (integers_below m maxY)).
Proof.
  assert (Hne : Polygon.points triangle <> []) by discriminate.
  split; [exact Hne|].
  exact (proj2 (proj2 (fill_scan_range triangle_heap triangle
                         (Ctx.getContext (Ctx.mkElement 20 20)))) Hne).
Defined.

(** * Further properties of the program *)

(** ** Edges and intersections *)

Lemma getIntersection_Num (p1 p2 : Point.t) (y x : Q) :
  Polygon.getIntersection p1 p2 y = Num x ->
  Point.y p1 <= y < Point.y p2 /\ x = interpolate p1 p2 y.
Proof.
  intros H.
  destruct (Qlt_le_dec y (Point.y p1)) as [Hlo | Hlo].
  - rewrite getIntersection_outside in H by (intros [? ?]; lra).
    discriminate.
  - destruct (Qlt_le_dec y (Point.y p2)) as [Hhi | Hhi].
    + rewrite getIntersection_inside in H by (split; assumption).
      injection H as <-. split; [split; assumption | reflexivity].
    + rewrite getIntersection_outside in H by (intros [? ?]; lra).
    discriminate.
Qed.

Lemma along_between (a b : Point.t) (t : Q) :
  0 <= t <= 1 ->
  Point.x a <= fst (along a b t) <= Point.x b
  \/ Point.x b <= fst (along a b t) <= Point.x a.
Proof.
  intros Ht. unfold along. simpl.
  destruct (Qlt_le_dec (Point.x b) (Point.x a)); [right | left]; split; nra.
Qed.

(** X1: an intersection that [getIntersection] returns is a point of the
    edge: the scan line is within the half-open height range of the edge,
    the point [(x, y)] is on the segment from [p1] to [p2] (its upper end
    excluded), and [x] is between the x-coordinates of the two ends. *)
Theorem getIntersection_on_edge (p1 p2 : Point.t) (y x : Q)
        (Hx : Polygon.getIntersection p1 p2 y = Num x) :
  Point.y p1 <= y < Point.y p2
  /\ (exists t, 0 <= t /\ t < 1 /\ same_point (along p1 p2 t) (x, y))
  /\ (Point.x p1 <= x <= Point.x p2 \/ Point.x p2 <= x <= Point.x p1).
Proof.
  destruct (getIntersection_Num p1 p2 y x Hx) as [Hy ->].
  split; [exact Hy|].
  destruct (along_up p1 p2 y Hy) as [t [Ht0 [Ht1 [Px Py]]]].
  split; [exists t; repeat split; assumption|].
  pose proof (along_between p1 p2 t) as H. unfold along in H, Px.
  simpl in H, Px. destruct H as [H | H]; [lra | left | right]; lra.
Qed.

(** The left edge of the triangle at the scan line 5. *)
Lemma getIntersection_on_edge_witness :
  let p1 := Point.mk 0 0 0 in
  let p2 := Point.mk 5 10 0 in
  Polygon.getIntersection p1 p2 5 = Num 2.5
  /\ (Point.y p1 <= 5 < Point.y p2
      /\ (exists t, 0 <= t /\ t < 1 /\ same_point (along p1 p2 t) (2.5, 5))
      /\ (Point.x p1 <= 2.5 <= Point.x p2 \/ Point.x p2 <= 2.5 <= Point.x p1)).
Proof.
  intros p1 p2.
  assert (Hx : Polygon.getIntersection p1 p2 5 = Num 2.5) by reflexivity.
  split; [exact Hx|].
  exact (getIntersection_on_edge p1 p2 5 2.5 Hx).
Defined.

Lemma edge_at_oriented (pts : list Point.t) (i : nat) (e : Point.t * Point.t) :
  In e (edge_at pts i) ->
  Point.y (fst e) < Point.y (snd e)
  /\ (e = (vertex pts i, vertex pts (S i))
      \/ e = (vertex pts (S i), vertex pts i)).
Proof.
  unfold edge_at.
  destruct (Qeq_bool _ _) eqn:Eeq; [contradiction|].
  apply Qeq_bool_false_iff in Eeq.
  destruct (Qlt_bool _ _) eqn:Elt; intros [<- | []]; simpl.
  - apply Qlt_bool_iff in Elt. split; [exact Elt | right; reflexivity].
  - apply Qlt_bool_false_iff in Elt. split; [lra | left; reflexivity].
Qed.

Lemma edge_at_length (pts : list Point.t) (i : nat) :
  (length (edge_at pts i) <= 1)%nat.
Proof.
  unfold edge_at. destruct (Qeq_bool _ _); [simpl; lia|].
  destruct (Qlt_bool _ _); simpl; lia.
Qed.

Lemma flat_map_length_le {A B : Type} (f : A -> list B) (l : list A) :
  (forall a, length (f a) <= 1)%nat ->
  (length (flat_map f l) <= length l)%nat.
Proof.
  intros Hf. induction l as [|a l IH]; simpl; [lia|].
  rewrite length_app. specialize (Hf a). lia.
Qed.

(** X2: every edge that [fill] builds joins two consecutive vertices of
    the loop and has its strictly lower end first, as [getIntersection]
    expects; horizontal sides give no edge, so there are at most as many
    edges as vertices. *)
Theorem build_edges_oriented (pts : list Point.t) (e : Point.t * Point.t)
        (He : In e (Polygon.build_edges pts)) :
  Point.y (fst e) < Point.y (snd e)
  /\ (exists i, (i < length pts)%nat
                /\ (e = (vertex pts i, vertex pts (S i))
                    \/ e = (vertex pts (S i), vertex pts i)))
  /\ (length (Polygon.build_edges pts) <= length pts)%nat.
Proof.
  rewrite build_edges_eq in *. apply in_flat_map in He.
  destruct He as [i [Hi He]]. apply in_seq in Hi.
  destruct (edge_at_oriented pts i e He) as [Hlt Hends].
  split; [exact Hlt | split].
  - exists i. split; [lia | exact Hends].
  - apply Nat.le_trans with (length (seq 0 (length pts))).
    + apply flat_map_length_le. apply edge_at_length.
    + rewrite length_seq. lia.
Qed.

(** The right edge of the triangle, listed from (10,0) to (5,10). *)
Lemma build_edges_oriented_witness :
  let pts := map triangle_heap (Polygon.points triangle) in
  let e := (Point.mk 10 0 0, Point.mk 5 10 0) in
  In e (Polygon.build_edges pts)
  /\ (Point.y (fst e) < Point.y (snd e)
      /\ (exists i, (i < length pts)%nat
                    /\ (e = (vertex pts i, vertex pts (S i))
                        \/ e = (vertex pts (S i), vertex pts i)))
      /\ (length (Polygon.build_edges pts) <= length pts)%nat).
Proof.
  intros pts e.
  assert (He : In e (Polygon.build_edges pts)) by (left; reflexivity).
  split; [exact He|].
  exact (build_edges_oriented pts e He).
Defined.

(** X3: the list that the row loop pairs holds the valid intersections of
    the scan line and nothing else, in ascending order: it is a sorted
    rearrangement of the results of [getIntersection] that are not [NaN],
    and all its elements are rationals. *)
Theorem intersections_ascending (edges : list (Point.t * Point.t)) (y : Q) :
  exists qs,
    Polygon.intersections edges y = map Num qs
    /\ StronglySorted Qle qs
    /\ Permutation (map Num qs)
         (filter not_NaN
            (map (fun e => Polygon.getIntersection (fst e) (snd e) y) edges)).
Proof.
  destruct (intersections_sorted edges y) as [qs [E Hs]].
  exists qs. split; [exact E | split; [exact Hs|]].
  rewrite <- E. unfold Polygon.intersections. apply sort_perm.
Qed.

Lemma pairs_length (qs : list Q) : length (pairs qs) = (length qs / 2)%nat.
Proof. rewrite pairs_by_index, length_map, length_seq. reflexivity. Qed.

(** X4: on the polygon of a [fill], whose edges close a loop, every scan
    line has an even number of valid intersections, so the row loop
    leaves none without partner: with [2k] intersections it paints the [k]
    spans of the index pairs 0-1, 2-3, ... *)
Theorem closed_loop_pairs_up (h : Heap) (p : Polygon.t) (y : Q) (ctx : Ctx.t) :
  let edges := Polygon.build_edges (map h (Polygon.points p)) in
  exists qs k,
    Polygon.intersections edges y = map Num qs
    /\ length qs = (2 * k)%nat
    /\ Ctx.surface (Polygon.fill_row edges (Polygon.color p) y ctx)
       = Ctx.surface ctx
         ++ map (fun j => span (Polygon.color p) y
                               (nth (2 * j) qs 0) (nth (2 * j + 1) qs 0))
                (seq 0 k).
Proof.
  intros edges. destruct (intersections_finite edges y) as [qs E].
  pose proof (intersections_even (map h (Polygon.points p)) y) as Heven.
  fold edges in Heven. rewrite E, length_map in Heven.
  exists qs, (count (up (map h (Polygon.points p)) y)
                    (length (map h (Polygon.points p)))).
  split; [exact E | split; [exact Heven|]].
  rewrite (fill_row_surface edges _ y ctx qs E).
  rewrite pairs_by_index, map_map, Heven.
  rewrite Nat.mul_comm, Nat.div_mul by lia. reflexivity.
Qed.

(** ** Degenerate polygons and the bounding box *)

(** X5: a polygon without points, or whose points all have the same
    height, is not filled: [fill] returns the context as it was, with its
    surface, path and style untouched. *)
Theorem fill_flat_polygon (h : Heap) (p : Polygon.t) (ctx : Ctx.t)
        (Hflat : forall l l', In l (Polygon.points p) ->
                              In l' (Polygon.points p) ->
                              Point.y (h l) == Point.y (h l')) :
  Polygon.fill h p ctx = ctx.
Proof.
  unfold Polygon.fill.
  destruct (Polygon.points p) as [|l0 ls] eqn:Epts; [reflexivity|].
  destruct (Math_min_is_min (map Point.y (map h (l0 :: ls))))
    as [lo [Elo [Hlo _]]]; [discriminate|].
  destruct (Math_max_is_max (map Point.y (map h (l0 :: ls))))
    as [hi [Ehi [Hhi _]]]; [discriminate|].
  rewrite Elo, Ehi.
  rewrite map_map in Hlo, Hhi.
  apply in_map_iff in Hlo. destruct Hlo as [l [<- Hl]].
  apply in_map_iff in Hhi. destruct Hhi as [l' [<- Hl']].
  rewrite for_y_step.
  replace (Qlt_bool (Point.y (h l)) (Point.y (h l'))) with false;
    [reflexivity|].
  symmetry. apply Qlt_bool_false_iff.
  pose proof (Hflat l l' Hl Hl'). lra.
Qed.

(** A polygon on the two lower corners of the triangle. *)
Lemma fill_flat_polygon_witness :
  let p := Polygon.mk [0; 1; 0]%nat (mkColor 255 0 0 1) in
  let ctx := Canvas.ctx (Canvas.new 20 20) in
  (forall l l', In l (Polygon.points p) -> In l' (Polygon.points p) ->
                Point.y (triangle_heap l) == Point.y (triangle_heap l'))
  /\ Polygon.fill triangle_heap p ctx = ctx.
Proof.
  intros p ctx.
  assert (Hflat : forall l l', In l (Polygon.points p) ->
                               In l' (Polygon.points p) ->
                               Point.y (triangle_heap l)
                               == Point.y (triangle_heap l')).
  { intros l l' [<- | [<- | [<- | []]]] [<- | [<- | [<- | []]]]; reflexivity. }
  split; [exact Hflat|].
  exact (fill_flat_polygon triangle_heap p ctx Hflat).
Defined.

Lemma pairs_sorted (qs : list Q) :
  StronglySorted Qle qs ->
  forall a b, In (a, b) (pairs qs) -> a <= b /\ In a qs /\ In b qs.
Proof.
  induction qs as [|c|c d qs IH] using list_pair_ind; intros Hs a b Hin;
    try contradiction.
  inversion Hs as [|? ? Hs1 Hc]; subst.
  inversion Hs1 as [|? ? Hs2 Hd]; subst.
  destruct Hin as [E | Hin].
  - injection E as <- <-. inversion Hc; subst.
    split; [assumption | split; [left | right; left]; reflexivity].
  - destruct (IH Hs2 a b Hin) as [Hab [Ha Hb]].
    split; [exact Hab | split; right; right; assumption].
Qed.

Lemma crossing_x_between (pts : list Point.t) (y : Q) (i : nat) (q : Q) :
  In (Num q) (crossing_x pts y i) ->
  Point.x (vertex pts i) <= q <= Point.x (vertex pts (S i))
  \/ Point.x (vertex pts (S i)) <= q <= Point.x (vertex pts i).
Proof.
  unfold crossing_x.
  destruct (up pts y i) eqn:Hup; [|destruct (down pts y i) eqn:Hdown].
  - intros [E | []]. injection E as <-. apply up_iff in Hup.
    destruct (along_up _ _ y Hup) as [t [Ht0 [Ht1 [Px _]]]].
    pose proof (along_between (vertex pts i) (vertex pts (S i)) t) as H.
    unfold along in H, Px. simpl in H, Px.
    destruct H as [H | H]; [lra | left | right]; lra.
  - intros [E | []]. injection E as <-. apply down_iff in Hdown.
    destruct (along_up _ _ y Hdown) as [t [Ht0 [Ht1 [Px _]]]].
    pose proof (along_between (vertex pts (S i)) (vertex pts i) t) as H.
    unfold along in H, Px. simpl in H, Px.
    destruct H as [H | H]; [lra | right | left]; lra.
  - contradiction.
Qed.

Lemma intersection_in_x_range (pts : list Point.t) (y xlo xhi q : Q) :
  (forall v, In v pts -> xlo <= Point.x v <= xhi) ->
  In (Num q) (Polygon.intersections (Polygon.build_edges pts) y) ->
  xlo <= q <= xhi.
Proof.
  intros Hx Hq. rewrite intersections_eq in Hq.
  apply (Permutation_in _ (sort_perm sub _)) in Hq.
  apply in_flat_map in Hq. destruct Hq as [i [Hi Hq]].
  apply in_seq in Hi.
  assert (Hne : pts <> []) by (intros ->; simpl in Hi; lia).
  pose proof (Hx _ (vertex_In pts i Hne)) as H1.
  pose proof (Hx _ (vertex_In pts (S i) Hne)) as H2.
  destruct (crossing_x_between pts y i q Hq); lra.
Qed.

Lemma row_paints_in_x_range (pts : list Point.t) (color : Color)
      (y xlo xhi : Q) (paint : Ctx.paint) :
  (forall v, In v pts -> xlo <= Point.x v <= xhi) ->
  In paint (row_paints (Polygon.build_edges pts) color y) ->
  exists a b, paint = span color y a b /\ xlo <= a /\ a <= b /\ b <= xhi.
Proof.
  intros Hx Hp. unfold row_paints in Hp.
  destruct (intersections_sorted (Polygon.build_edges pts) y) as [qs [E Hs]].
  rewrite E, finite_values_map in Hp.
  apply in_map_iff in Hp. destruct Hp as [[a b] [<- Hab]].
  destruct (pairs_sorted qs Hs a b Hab) as [Hle [Ha Hb]].
  assert (Hin : forall q, In q qs -> xlo <= q <= xhi).
  { intros q Hq. apply (intersection_in_x_range pts y). exact Hx.
    rewrite E. apply in_map. exact Hq. }
  exists a, b. simpl. pose proof (Hin a Ha). pose proof (Hin b Hb).
  repeat split; try reflexivity; lra.
Qed.

(** X6: [fill] paints inside the bounding box of the polygon.  Each
    paint it adds to the surface is one horizontal span in the polygon's
    colour, on a scan line [y] with [minY <= y < maxY], from [a] to [b]
    with [a <= b], both within the range of the x-coordinates of the
    vertices. *)
Theorem fill_within_bounding_box (h : Heap) (p : Polygon.t) (ctx : Ctx.t)
        (xlo xhi : Q) (paint : Ctx.paint)
        (Hx : forall l, In l (Polygon.points p) ->
                        xlo <= Point.x (h l) <= xhi)
        (Hpaint : In paint (Ctx.surface (Polygon.fill h p ctx))) :
  In paint (Ctx.surface ctx)
  \/ exists y a b,
       paint = span (Polygon.color p) y a b
       /\ xlo <= a /\ a <= b /\ b <= xhi
       /\ exists minY maxY,
            is_min minY (vertex_ys h p) /\ is_max maxY (vertex_ys h p)
            /\ minY <= y < maxY.
Proof.
  destruct (fill_effect h p ctx) as [_ Hs]. rewrite Hs in Hpaint.
  apply in_app_or in Hpaint. destruct Hpaint as [Hold | Hpaint];
    [left; exact Hold | right].
  unfold fill_paints in Hpaint. apply in_flat_map in Hpaint.
  destruct Hpaint as [y [Hy Hp]].
  destruct (row_paints_in_x_range (map h (Polygon.points p)) (Polygon.color p)
              y xlo xhi paint) as [a [b [E [Ha [Hab Hb]]]]].
  - intros v Hv. apply in_map_iff in Hv. destruct Hv as [l [<- Hl]].
    apply Hx, Hl.
  - exact Hp.
  - exists y, a, b. repeat (split; [assumption|]).
    assert (Hne : Polygon.points p <> []).
    { intros E0. rewrite (polygon_scan_lines_empty h p E0) in Hy.
      contradiction. }
    destruct (polygon_scan_lines_extent h p Hne) as [lo [hi [Hlo [Hhi E1]]]].
    exists lo, hi. split; [exact Hlo | split; [exact Hhi|]].
    rewrite E1 in Hy. destruct (scan_lines_sound hi lo y Hy) as [Hlt [k Hk]].
    assert (Hk0 : 0 <= inject_Z (Z.of_nat k)).
    { change 0 with (inject_Z 0). rewrite <- Zle_Qle. lia. }
    lra.
Qed.

(** The span of the triangle at the scan line 5, inside [[0,10]]. *)
Lemma fill_within_bounding_box_witness :
  let ctx := Canvas.ctx (Canvas.new 20 20) in
  let paint := span (Polygon.color triangle) 5 2.5 7.5 in
  (forall l, In l (Polygon.points triangle) ->
             0 <= Point.x (triangle_heap l) <= 10)
  /\ In paint (Ctx.surface (Polygon.fill triangle_heap triangle ctx))
  /\ (In paint (Ctx.surface ctx)
      \/ exists y a b,
           paint = span (Polygon.color triangle) y a b
           /\ 0 <= a /\ a <= b /\ b <= 10
           /\ exists minY maxY,
                is_min minY (vertex_ys triangle_heap triangle)
                /\ is_max maxY (vertex_ys triangle_heap triangle)
                /\ minY <= y < maxY).
Proof.
  intros ctx paint.
  assert (Hx : forall l, In l (Polygon.points triangle) ->
                         0 <= Point.x (triangle_heap l) <= 10).
  { intros l [<- | [<- | [<- | []]]]; split; discriminate. }
  assert (Hpaint : In paint
                      (Ctx.surface (Polygon.fill triangle_heap triangle ctx))).
  { vm_compute. do 5 right. left. reflexivity. }
  split; [exact Hx | split; [exact Hpaint|]].
  exact (fill_within_bounding_box triangle_heap triangle ctx 0 10 paint
           Hx Hpaint).
Defined.

(** ** Filling and the store *)

(** X7: [fill] only adds to the surface.  What was painted before stays
    below the new spans; the spans depend on the polygon and the store
    only, not on the path or the style left in the context; the element
    and the transform of the context are kept. *)
Theorem fill_appends_spans (h : Heap) (p : Polygon.t) (c : Ctx.t) :
  Ctx.surface (Polygon.fill h p c) = Ctx.surface c ++ fill_paints h p
  /\ Ctx.canvas (Polygon.fill h p c) = Ctx.canvas c
  /\ Ctx.translation (Polygon.fill h p c) = Ctx.translation c.
Proof.
  destruct (fill_effect h p c) as [[Hc Ht] Hs]. auto.
Qed.

Lemma map_update_other (h : Heap) (l : loc) (q : Point.t) (ls : list loc) :
  ~ In l ls -> map (update h l q) ls = map h ls.
Proof.
  intros Hl. apply map_ext_in. intros l' Hl'. apply update_other.
  intros ->. contradiction.
Qed.

(** X8: moving a point changes the filling of the polygons that hold it
    and of no other: after the store is updated at [l], a polygon without
    [l] among its points is filled exactly as before. *)
Theorem fill_ignores_foreign_point (h : Heap) (l : loc) (q : Point.t)
        (p : Polygon.t) (c : Ctx.t)
        (Hl : ~ In l (Polygon.points p)) :
  Polygon.fill (update h l q) p c = Polygon.fill h p c.
Proof.
  unfold Polygon.fill. rewrite (map_update_other h l q _ Hl). reflexivity.
Qed.

(** The triangle, after a point that is not one of its corners moved. *)
Lemma fill_ignores_foreign_point_witness :
  let c := Canvas.ctx (Canvas.new 20 20) in
  ~ In 7%nat (Polygon.points triangle)
  /\ Polygon.fill (update triangle_heap 7%nat (Point.mk 3 3 0)) triangle c
     = Polygon.fill triangle_heap triangle c.
Proof.
  intros c.
  assert (Hl : ~ In 7%nat (Polygon.points triangle)).
  { intros [H | [H | [H | []]]]; discriminate H. }
  split; [exact Hl|].
  exact (fill_ignores_foreign_point triangle_heap 7%nat (Point.mk 3 3 0)
           triangle c Hl).
Defined.

(** ** The drag handler, event by event *)

Lemma hit_iff (h : Heap) (e : Drag.MouseEvent) (l : loc) :
  Drag.hit h (Drag.offsetX e) (Drag.offsetY e) l = true <-> near h e l.
Proof. unfold Drag.hit, near. apply Qle_bool_iff. Qed.

Lemma find_first {A : Type} (f : A -> bool) (pre post : list A) (a : A) :
  f a = true -> (forall b, In b pre -> f b = false) ->
  find f (pre ++ a :: post) = Some a.
Proof.
  intros Ha Hpre. induction pre as [|b pre IH]; simpl.
  - rewrite Ha. reflexivity.
  - rewrite (Hpre b) by (left; reflexivity).
    apply IH. intros c Hc. apply Hpre. right. exact Hc.
Qed.

Lemma find_none {A : Type} (f : A -> bool) (l : list A) :
  (forall b, In b l -> f b = false) -> find f l = None.
Proof.
  intros H. induction l as [|b l IH]; simpl; [reflexivity|].
  rewrite (H b) by (left; reflexivity).
  apply IH. intros c Hc. apply H. right. exact Hc.
Qed.

Lemma not_near_hit (h : Heap) (e : Drag.MouseEvent) (l : loc) :
  ~ near h e l -> Drag.hit h (Drag.offsetX e) (Drag.offsetY e) l = false.
Proof.
  intros H. destruct (Drag.hit _ _ _ l) eqn:E; [|reflexivity].
  apply hit_iff in E. contradiction.
Qed.

Lemma mousedown_grab (e : Drag.MouseEvent) (s : Drag.state)
      (pre post : list loc) (l : loc) :
  Canvas.points (Drag.canvas s) = pre ++ l :: post ->
  near (Drag.heap s) e l ->
  (forall l', In l' pre -> ~ near (Drag.heap s) e l') ->
  Drag.mousedown e s
  = Drag.mk (Drag.heap s) (Drag.canvas s) true (Some l)
            (Drag.offsetX e - Point.x (Drag.heap s l),
             Drag.offsetY e - Point.y (Drag.heap s l)).
Proof.
  intros Hpts Hl Hpre. unfold Drag.mousedown. rewrite Hpts.
  rewrite find_first; [reflexivity | apply hit_iff, Hl |].
  intros l' Hl'. apply not_near_hit, Hpre, Hl'.
Qed.

Lemma mousedown_miss (e : Drag.MouseEvent) (s : Drag.state) :
  (forall l, In l (Canvas.points (Drag.canvas s)) -> ~ near (Drag.heap s) e l) ->
  Drag.mousedown e s = s.
Proof.
  intros H. unfold Drag.mousedown. rewrite find_none; [reflexivity|].
  intros l Hl. apply not_near_hit, H, Hl.
Qed.

Lemma is_integer_minus (a b : Q) :
  is_integer a -> is_integer b -> is_integer (a - b).
Proof.
  intros [m Hm] [n Hn]. exists (m - n)%Z.
  unfold Z.sub. rewrite inject_Z_plus, inject_Z_opp, Hm, Hn. reflexivity.
Qed.

Lemma triangle_integer (l : loc) : integer_point (triangle_heap l).
Proof.
  destruct l as [|[|l]]; split; simpl;
    first [ exists 0%Z; reflexivity | exists 10%Z; reflexivity
          | exists 5%Z; reflexivity ].
Qed.

(** X9: with the points of the canvas and the pointer at integer
    coordinates, a pointer-down grabs the first point, in insertion order,
    that is within the hit radius of the pointer, and records the offset
    of the pointer from it; when no point is within the radius the state
    is left as it is, a drag in progress included. *)
Theorem mousedown_grabs_first_hit (e : Drag.MouseEvent) (s : Drag.state)
        (Hpoints : forall l, In l (Canvas.points (Drag.canvas s)) ->
                             integer_point (Drag.heap s l))
        (He : integer_event e) :
  (forall pre post l,
      Canvas.points (Drag.canvas s) = pre ++ l :: post ->
      near (Drag.heap s) e l ->
      (forall l', In l' pre -> ~ near (Drag.heap s) e l') ->
      Drag.mousedown e s
      = Drag.mk (Drag.heap s) (Drag.canvas s) true (Some l)
                (Drag.offsetX e - Point.x (Drag.heap s l),
                 Drag.offsetY e - Point.y (Drag.heap s l))
      /\ is_integer (Drag.offsetX e - Point.x (Drag.heap s l))
      /\ is_integer (Drag.offsetY e - Point.y (Drag.heap s l)))
  /\ ((forall l, In l (Canvas.points (Drag.canvas s)) ->
                 ~ near (Drag.heap s) e l) ->
      Drag.mousedown e s = s).
Proof.
  split.
  - intros pre post l Hpts Hl Hpre.
    split; [apply (mousedown_grab e s pre post l Hpts Hl Hpre)|].
    assert (Hin : In l (Canvas.points (Drag.canvas s))).
    { rewrite Hpts. apply in_or_app. right. left. reflexivity. }
    destruct (Hpoints l Hin) as [Hx Hy]. destruct He as [Hex Hey].
    split; apply is_integer_minus; assumption.
  - apply mousedown_miss.
Qed.

(** On the triangle: a pointer-down at (5,12) passes the two lower corners
    and grabs the apex; one at (100,-38) grabs nothing. *)
Lemma mousedown_grabs_first_hit_witness :
  let s := Drag.init triangle_heap triangle_scene in
  (forall l, In l (Canvas.points (Drag.canvas s)) ->
             integer_point (Drag.heap s l))
  /\ integer_event (Drag.mkEvent 5 12) /\ integer_event far_away
  /\ Drag.mousedown (Drag.mkEvent 5 12) s
     = Drag.mk triangle_heap triangle_scene true (Some 2%nat) (5 - 5, 12 - 10)
  /\ Drag.mousedown far_away s = s.
Proof.
  intros s.
  assert (Hpoints : forall l, In l (Canvas.points (Drag.canvas s)) ->
                              integer_point (Drag.heap s l))
    by (intros l _; apply triangle_integer).
  assert (He : integer_event (Drag.mkEvent 5 12))
    by (split; [exists 5%Z | exists 12%Z]; reflexivity).
  assert (He' : integer_event far_away)
    by (split; [exists 100%Z | exists (-38)%Z]; reflexivity).
  destruct (mousedown_grabs_first_hit (Drag.mkEvent 5 12) s Hpoints He)
    as [Hgrab _].
  destruct (mousedown_grabs_first_hit far_away s Hpoints He') as [_ Hmiss].
  split; [exact Hpoints | split; [exact He | split; [exact He'|]]].
  split.
  - apply (Hgrab [0; 1]%nat [] 2%nat); [reflexivity | vm_compute; discriminate|].
    intros l' [<- | [<- | []]] H; vm_compute in H; apply H; reflexivity.
  - apply Hmiss.
    intros l [<- | [<- | [<- | []]]] H; vm_compute in H; apply H; reflexivity.
Defined.

(** X10: a grabbed point follows the pointer.  With the points of the
    canvas and the pointer at integer coordinates, after a pointer-down
    that grabs the point [l], a pointer move to any position displaces [l]
    by the displacement of the pointer since the grab, keeps its [z], and
    leaves every other point where it was; a move back to the position of
    the grab puts the point back.  The point is at integer coordinates
    again, and so are all the points of the canvas. *)
Theorem grabbed_point_follows_pointer (e0 e1 : Drag.MouseEvent)
        (s : Drag.state) (pre post : list loc) (l : loc)
        (Hpoints : forall l, In l (Canvas.points (Drag.canvas s)) ->
                             integer_point (Drag.heap s l))
        (He0 : integer_event e0) (He1 : integer_event e1)
        (Hpts : Canvas.points (Drag.canvas s) = pre ++ l :: post)
        (Hl : near (Drag.heap s) e0 l)
        (Hpre : forall l', In l' pre -> ~ near (Drag.heap s) e0 l') :
  exists s',
    Drag.mousemove e1 (Drag.mousedown e0 s) = Drag.Normal s'
    /\ Point.x (Drag.heap s' l)
       == Point.x (Drag.heap s l) + (Drag.offsetX e1 - Drag.offsetX e0)
    /\ Point.y (Drag.heap s' l)
       == Point.y (Drag.heap s l) + (Drag.offsetY e1 - Drag.offsetY e0)
    /\ Point.z (Drag.heap s' l) = Point.z (Drag.heap s l)
    /\ (forall l', l' <> l -> Drag.heap s' l' = Drag.heap s l')
    /\ (forall l', In l' (Canvas.points (Drag.canvas s')) ->
                   integer_point (Drag.heap s' l')).
Proof.
  rewrite (mousedown_grab e0 s pre post l Hpts Hl Hpre).
  unfold Drag.mousemove. simpl. eexists. split; [reflexivity|]. simpl.
  rewrite update_same. simpl.
  split; [ring | split; [ring | split; [reflexivity|]]].
  split; [intros l' Hne; apply update_other, Hne|].
  intros l' Hin. destruct (Nat.eq_dec l' l) as [-> | Hne].
  - rewrite update_same.
    assert (Hl0 : In l (Canvas.points (Drag.canvas s))).
    { rewrite Hpts. apply in_or_app. right. left. reflexivity. }
    destruct (Hpoints l Hl0) as [Hx Hy].
    destruct He0 as [H0x H0y]. destruct He1 as [H1x H1y].
    split; simpl; repeat apply is_integer_minus; assumption.
  - rewrite update_other by exact Hne. apply Hpoints, Hin.
Qed.

(** The apex of the triangle, grabbed at (5,12) and moved to (100,-38). *)
Lemma grabbed_point_follows_pointer_witness :
  let s := Drag.init triangle_heap triangle_scene in
  let e0 := Drag.mkEvent 5 12 in
  (forall l, In l (Canvas.points (Drag.canvas s)) ->
             integer_point (Drag.heap s l))
  /\ integer_event e0 /\ integer_event far_away
  /\ Canvas.points (Drag.canvas s) = [0; 1]%nat ++ 2%nat :: []
  /\ near (Drag.heap s) e0 2%nat
  /\ (forall l', In l' [0; 1]%nat -> ~ near (Drag.heap s) e0 l')
  /\ exists s',
       Drag.mousemove far_away (Drag.mousedown e0 s) = Drag.Normal s'
       /\ Point.x (Drag.heap s' 2%nat)
          == Point.x (Drag.heap s 2%nat)
             + (Drag.offsetX far_away - Drag.offsetX e0)
       /\ Point.y (Drag.heap s' 2%nat)
          == Point.y (Drag.heap s 2%nat)
             + (Drag.offsetY far_away - Drag.offsetY e0)
       /\ Point.z (Drag.heap s' 2%nat) = Point.z (Drag.heap s 2%nat)
       /\ (forall l', l' <> 2%nat -> Drag.heap s' l' = Drag.heap s l')
       /\ (forall l', In l' (Canvas.points (Drag.canvas s')) ->
                      integer_point (Drag.heap s' l')).
Proof.
  intros s e0.
  assert (Hpoints : forall l, In l (Canvas.points (Drag.canvas s)) ->
                              integer_point (Drag.heap s l))
    by (intros l _; apply triangle_integer).
  assert (He0 : integer_event e0)
    by (split; [exists 5%Z | exists 12%Z]; reflexivity).
  assert (He1 : integer_event far_away)
    by (split; [exists 100%Z | exists (-38)%Z]; reflexivity).
  assert (Hpts : Canvas.points (Drag.canvas s) = [0; 1]%nat ++ 2%nat :: [])
    by reflexivity.
  assert (Hl : near (Drag.heap s) e0 2%nat) by (vm_compute; discriminate).
  assert (Hpre : forall l', In l' [0; 1]%nat -> ~ near (Drag.heap s) e0 l').
  { intros l' [<- | [<- | []]] H; vm_compute in H; apply H; reflexivity. }
  split; [exact Hpoints | split; [exact He0 | split; [exact He1|]]].
  split; [exact Hpts | split; [exact Hl | split; [exact Hpre|]]].
  exact (grabbed_point_follows_pointer e0 far_away s [0; 1]%nat [] 2%nat
           Hpoints He0 He1 Hpts Hl Hpre).
Defined.

(** ** The drag handler, over any sequence of events *)

Lemma clearRect_frame (x y w h : Q) (c : Ctx.t) :
  same_frame c (Ctx.clearRect x y w h c).
Proof.
  unfold Ctx.clearRect. destruct (Ctx.covers_bitmap c x y w h);
    split; reflexivity.
Qed.

Lemma clear_and_draw_frame (h : Heap) (cv : Canvas.t) :
  same_frame (Canvas.ctx cv) (Canvas.ctx (Canvas.clear_and_draw h cv)).
Proof.
  unfold Canvas.clear_and_draw. simpl.
  eapply same_frame_trans; [apply clearRect_frame|].
  eapply same_frame_trans; [apply (fold_draw h (Canvas.points cv))|].
  apply (fold_fill h (Canvas.polygons cv)).
Qed.

Lemma kept_refl (s : Drag.state) : kept s s.
Proof. split; reflexivity. Qed.

Lemma kept_trans (s1 s2 s3 : Drag.state) :
  kept s1 s2 -> kept s2 s3 -> kept s1 s3.
Proof.
  intros [P1 Q1 D1 O1 Z1] [P2 Q2 D2 O2 Z2]. split; try congruence.
  - intros l Hl. rewrite O2, O1; [reflexivity | exact Hl |].
    rewrite P1. exact Hl.
Qed.

Lemma mousedown_step (e : Drag.MouseEvent) (s : Drag.state) :
  drags_scene_point s ->
  drags_scene_point (Drag.mousedown e s)
  /\ kept s (Drag.mousedown e s)
  /\ (shows_scene s -> shows_scene (Drag.mousedown e s)).
Proof.
  intros Hs. unfold Drag.mousedown.
  destruct (find _ _) as [l|] eqn:Hfind.
  - split; [|split; [split; reflexivity | exact (fun H => H)]].
    intros l' H. simpl in H. injection H as <-.
    apply find_some in Hfind. apply Hfind.
  - split; [exact Hs | split; [apply kept_refl | exact (fun H => H)]].
Qed.

Lemma mouseup_step (e : Drag.MouseEvent) (s : Drag.state) :
  drags_scene_point (Drag.mouseup e s)
  /\ kept s (Drag.mouseup e s)
  /\ (shows_scene s -> shows_scene (Drag.mouseup e s)).
Proof.
  split; [|split; [split; reflexivity | exact (fun H => H)]].
  intros l H. discriminate H.
Qed.

Lemma mousemove_step (e : Drag.MouseEvent) (s : Drag.state) :
  dragging_consistent s -> drags_scene_point s ->
  exists s',
    Drag.mousemove e s = Drag.Normal s'
    /\ dragging_consistent s' /\ drags_scene_point s'
    /\ kept s s'
    /\ (shows_scene s -> shows_scene s').
Proof.
  intros Hc Hs. unfold Drag.mousemove.
  destruct (Drag.drag_flag s) eqn:Hflag.
  2:{ exists s. split; [reflexivity|]. split; [exact Hc|].
      split; [exact Hs|]. split; [apply kept_refl | exact (fun H => H)]. }
  destruct (Drag.drag_point s) as [l|] eqn:Hpoint.
  2:{ exfalso. apply (Hc Hflag). exact Hpoint. }
  eexists. split; [reflexivity|].
  split; [intros _; simpl; discriminate|].
  split; [intros l' H; simpl in H; apply Hs; rewrite Hpoint; exact H|].
  split.
  - split; simpl; try reflexivity.
    + unfold Canvas.dom.
      apply (clear_and_draw_frame _ (Drag.canvas s)).
    + intros l' Hl'. apply update_other. intros ->. apply Hl'.
      apply Hs. exact Hpoint.
    + intros l'. unfold update.
      destruct (Nat.eqb l' l) eqn:E; [|reflexivity].
      apply Nat.eqb_eq in E. subst l'. reflexivity.
  - intros [Hshift _]. split; simpl.
    + apply clear_and_draw_keeps_shift, Hshift.
    + destruct (clear_and_draw_effect
                  (update (Drag.heap s) l
                     (Point.mk (Drag.offsetX e - fst (Drag.drag_offset s))
                               (Drag.offsetY e - snd (Drag.drag_offset s))
                               (Point.z (Drag.heap s l))))
                  (Drag.canvas s) Hshift) as (_ & Hsurf & _ & _).
      exact Hsurf.
Qed.

Lemma dispatch_step (ev : Page.event) (s : Drag.state) :
  dragging_consistent s -> drags_scene_point s ->
  exists s',
    Page.dispatch ev s = Drag.Normal s'
    /\ dragging_consistent s' /\ drags_scene_point s'
    /\ kept s s'
    /\ (shows_scene s -> shows_scene s').
Proof.
  intros Hc Hs. destruct ev as [e|e|e]; simpl.
  - exists (Drag.mousedown e s). split; [reflexivity|].
    split; [apply mousedown_consistent, Hc|].
    apply mousedown_step, Hs.
  - apply mousemove_step; assumption.
  - exists (Drag.mouseup e s). split; [reflexivity|].
    split; [apply mouseup_consistent|].
    apply mouseup_step.
Qed.

Lemma run_steps (evs : list Page.event) :
  forall s,
    dragging_consistent s -> drags_scene_point s ->
    snd (Page.run evs s) = []
    /\ kept s (fst (Page.run evs s))
    /\ (shows_scene s -> shows_scene (fst (Page.run evs s))).
Proof.
  induction evs as [|ev evs IH]; intros s Hc Hs; simpl.
  - split; [reflexivity | split; [apply kept_refl | exact (fun H => H)]].
  - destruct (dispatch_step ev s Hc Hs) as (s' & -> & Hc' & Hs' & Hk & Hshow).
    destruct (IH s' Hc' Hs') as (He & Hk' & Hshow').
    split; [exact He|]. split; [eapply kept_trans; eassumption|].
    intros H. apply Hshow', Hshow, H.
Qed.

Lemma init_drags_scene_point (h : Heap) (cv : Canvas.t) :
  drags_scene_point (Drag.init h cv).
Proof. intros l H. discriminate H. Qed.

(** X11: the listeners installed by [addDragHandler] never throw, and
    never add, remove or reorder a point or a polygon, whatever events
    arrive in whatever order: after any sequence of pointer events no
    exception has been reported, the canvas holds the same points and
    polygons on the same element, only points of the canvas have been
    moved, and no point has changed its [z]. *)
Theorem drag_handler_keeps_scene (evs : list Page.event) (h : Heap)
        (cv : Canvas.t) :
  let s' := fst (Page.run evs (Drag.init h cv)) in
  snd (Page.run evs (Drag.init h cv)) = []
  /\ Canvas.points (Drag.canvas s') = Canvas.points cv
  /\ Canvas.polygons (Drag.canvas s') = Canvas.polygons cv
  /\ Canvas.dom (Drag.canvas s') = Canvas.dom cv
  /\ (forall l, ~ In l (Canvas.points cv) -> Drag.heap s' l = h l)
  /\ (forall l, Point.z (Drag.heap s' l) = Point.z (h l)).
Proof.
  destruct (run_steps evs (Drag.init h cv) (init_consistent h cv)
              (init_drags_scene_point h cv)) as (He & [P Q D O Z] & _).
  simpl in *. auto 6.
Qed.

(** X12: the picture follows the points.  When the surface shows the
    scene at the time the handler is installed, as it does after a
    redraw, then after any sequence of pointer events the surface shows
    the scene as the store has it then: the circles of the points where
    they are now, then the spans of the polygons over them. *)
Theorem drag_handler_shows_scene (evs : list Page.event) (h : Heap)
        (cv : Canvas.t)
        (Hshift : half_pixel_shift (Canvas.ctx cv))
        (Hshown : Ctx.surface (Canvas.ctx cv) = scene_paints h cv) :
  let s' := fst (Page.run evs (Drag.init h cv)) in
  Ctx.surface (Canvas.ctx (Drag.canvas s'))
  = scene_paints (Drag.heap s') (Drag.canvas s').
Proof.
  destruct (run_steps evs (Drag.init h cv) (init_consistent h cv)
              (init_drags_scene_point h cv)) as (_ & _ & Hshow).
  apply Hshow. split; assumption.
Qed.

(** The triangle, redrawn, then its apex grabbed, dragged and released. *)
Lemma drag_handler_shows_scene_witness :
  let cv := Canvas.clear_and_draw triangle_heap triangle_scene in
  let evs := [Page.mousedown (Drag.mkEvent 5 12); Page.mousemove far_away;
              Page.mouseup far_away] in
  let s' := fst (Page.run evs (Drag.init triangle_heap cv)) in
  half_pixel_shift (Canvas.ctx cv)
  /\ Ctx.surface (Canvas.ctx cv) = scene_paints triangle_heap cv
  /\ Ctx.surface (Canvas.ctx (Drag.canvas s'))
     = scene_paints (Drag.heap s') (Drag.canvas s').
Proof.
  intros cv evs.
  assert (Hshift : half_pixel_shift (Canvas.ctx cv)).
  { apply clear_and_draw_keeps_shift, new_half_pixel_shift. }
  assert (Hshown : Ctx.surface (Canvas.ctx cv) = scene_paints triangle_heap cv).
  { destruct (clear_and_draw_effect triangle_heap triangle_scene
                (new_half_pixel_shift 20 20)) as (_ & Hsurf & Hp & Hq).
    fold cv in Hsurf, Hp, Hq. rewrite Hsurf. symmetry.
    apply scene_paints_ext; assumption. }
  split; [exact Hshift | split; [exact Hshown|]].
  exact (drag_handler_shows_scene evs triangle_heap cv Hshift Hshown).
Defined.

(** ** Scene initialisation *)

Lemma forEach_app {A : Type} (f : A -> Init.world -> Init.outcome)
      (l1 l2 : list A) :
  forall w,
    Init.forEach f (l1 ++ l2) w
    = match Init.forEach f l1 w with
      | Init.Normal w' => Init.forEach f l2 w'
      | Init.Throw e w' => Init.Throw e w'
      end.
Proof.
  induction l1 as [|a l1 IH]; intros w; simpl; [reflexivity|].
  destruct (f a w) as [w'|e w']; [apply IH | reflexivity].
Qed.

Lemma first_failure {A : Type} (P : A -> Prop)
      (Hdec : forall a, P a \/ ~ P a) (l : list A) :
  Forall P l
  \/ exists pre a post, l = pre ++ a :: post /\ Forall P pre /\ ~ P a.
Proof.
  induction l as [|a l IH]; [left; constructor|].
  destruct (Hdec a) as [Ha | Ha].
  - destruct IH as [IH | (pre & b & post & -> & Hpre & Hb)].
    + left. constructor; assumption.
    + right. exists (a :: pre), b, post. split; [reflexivity|].
      split; [constructor; assumption | exact Hb].
  - right. exists [], a, l. split; [reflexivity|].
    split; [constructor | exact Ha].
Qed.

Lemma in_bounds_dec (cv : Canvas.t) (p : Point.t) :
  in_bounds cv p \/ ~ in_bounds cv p.
Proof.
  destruct (Canvas.isOutOfBounds cv p) eqn:E.
  - right. apply isOutOfBounds_true_iff, E.
  - left. apply isOutOfBounds_false_iff, E.
Qed.

Lemma valid_polygon_dec (cfg : Init.config) (n : nat) (p : list nat) :
  valid_polygon cfg n p \/ ~ valid_polygon cfg n p.
Proof.
  unfold valid_polygon.
  destruct (Forall_dec (fun i => (i < n)%nat) (fun i => lt_dec i n) p)
    as [Hall | Hall]; [|right; tauto].
  destruct p as [|i0 p].
  - right. intros [[i [H _]] _]. discriminate H.
  - destruct (lt_dec i0 (length (Init.vertex_color cfg))) as [Hi | Hi].
    + left. split; [exists i0; split; [reflexivity | exact Hi] | exact Hall].
    + right. intros [[i [H Hlt]] _]. simpl in H. injection H as <-.
      contradiction.
Qed.

(** *** The vertices *)

Lemma add_vertex_inside (v : Q * Q * Q) (w : Init.world) :
  in_bounds (Init.canvas w) (point_of v) ->
  Init.add_vertex v w
  = Init.Normal
      (Init.mkWorld (update (Init.heap w) (Init.next w) (point_of v))
                    (S (Init.next w))
                    (push_point (Init.canvas w) (Init.next w))).
Proof.
  intros Hin. destruct v as [[x y] z]. unfold Init.add_vertex. simpl.
  unfold Canvas.addPoint. rewrite update_same.
  simpl in Hin.
  rewrite (proj2 (isOutOfBounds_false_iff _ _) Hin). reflexivity.
Qed.

Lemma add_vertex_outside (v : Q * Q * Q) (w : Init.world) :
  ~ in_bounds (Init.canvas w) (point_of v) ->
  Init.add_vertex v w
  = Init.Throw (Error "Point out of bounds")
      (Init.mkWorld (update (Init.heap w) (Init.next w) (point_of v))
                    (S (Init.next w)) (Init.canvas w)).
Proof.
  intros Hout. destruct v as [[x y] z]. unfold Init.add_vertex. simpl.
  unfold Canvas.addPoint. rewrite update_same.
  simpl in Hout.
  rewrite (proj2 (isOutOfBounds_true_iff _ _) Hout). reflexivity.
Qed.

Lemma add_vertices_inside (vs : list (Q * Q * Q)) :
  forall w,
    Forall (fun v => in_bounds (Init.canvas w) (point_of v)) vs ->
    Init.forEach Init.add_vertex vs w
    = Init.Normal
        (Init.mkWorld
           (store_points (Init.heap w) (Init.next w) vs)
           (Init.next w + length vs)%nat
           (Canvas.mk (Canvas.ctx (Init.canvas w))
                      (Canvas.points (Init.canvas w)
                       ++ seq (Init.next w) (length vs))
                      (Canvas.polygons (Init.canvas w)))).
Proof.
  induction vs as [|v vs IH]; intros w Hall.
  - destruct w as [h n [c P Q]]. simpl.
    rewrite Nat.add_0_r, app_nil_r. reflexivity.
  - inversion Hall as [|? ? Hv Hvs]; subst.
    simpl Init.forEach. rewrite (add_vertex_inside v w Hv).
    rewrite IH by exact Hvs. simpl.
    rewrite <- app_assoc, Nat.add_succ_r. reflexivity.
Qed.

Lemma store_points_snoc (pre : list (Q * Q * Q)) :
  forall h n v,
    store_points h n (pre ++ [v])
    = update (store_points h n pre) (n + length pre)%nat (point_of v).
Proof.
  induction pre as [|a pre IH]; intros h n v; simpl.
  - rewrite Nat.add_0_r. reflexivity.
  - rewrite IH, Nat.add_succ_r. reflexivity.
Qed.

Lemma add_vertices_outside (pre post : list (Q * Q * Q)) (v : Q * Q * Q)
      (w : Init.world) :
  Forall (fun v => in_bounds (Init.canvas w) (point_of v)) pre ->
  ~ in_bounds (Init.canvas w) (point_of v) ->
  Init.forEach Init.add_vertex (pre ++ v :: post) w
  = Init.Throw (Error "Point out of bounds")
      (Init.mkWorld
         (store_points (Init.heap w) (Init.next w) (pre ++ [v]))
         (S (Init.next w + length pre)%nat)
         (Canvas.mk (Canvas.ctx (Init.canvas w))
                    (Canvas.points (Init.canvas w)
                     ++ seq (Init.next w) (length pre))
                    (Canvas.polygons (Init.canvas w)))).
Proof.
  intros Hpre Hv. rewrite forEach_app, (add_vertices_inside pre w Hpre).
  simpl Init.forEach. rewrite add_vertex_outside by exact Hv. simpl.
  rewrite store_points_snoc. reflexivity.
Qed.

Lemma store_points_below (vs : list (Q * Q * Q)) :
  forall h n l, (l < n)%nat -> store_points h n vs l = h l.
Proof.
  induction vs as [|v vs IH]; intros h n l Hl; simpl; [reflexivity|].
  rewrite IH by lia. apply update_other. lia.
Qed.

Lemma store_points_at (vs : list (Q * Q * Q)) :
  forall h n k v,
    nth_error vs k = Some v -> store_points h n vs (n + k)%nat = point_of v.
Proof.
  induction vs as [|a vs IH]; intros h n k v Hk.
  - destruct k; discriminate Hk.
  - destruct k as [|k]; simpl in *.
    + injection Hk as ->. rewrite Nat.add_0_r.
      rewrite store_points_below by lia. apply update_same.
    + rewrite Nat.add_succ_r. apply (IH _ (S n) k v Hk).
Qed.

(** *** The polygons *)

Lemma defined_prefix_complete (P : list loc) (p : list nat) :
  Forall (fun i => (i < length P)%nat) p ->
  Init.defined_prefix (map (nth_error P) p)
  = (map (fun i => nth i P 0%nat) p, true).
Proof.
  induction 1 as [|i p Hi _ IH]; simpl; [reflexivity|].
  rewrite IH. rewrite (nth_error_nth' P 0%nat Hi). reflexivity.
Qed.

Lemma defined_prefix_incomplete (P : list loc) (p : list nat) :
  ~ Forall (fun i => (i < length P)%nat) p ->
  snd (Init.defined_prefix (map (nth_error P) p)) = false.
Proof.
  induction p as [|i p IH]; intros Hnot.
  - exfalso. apply Hnot. constructor.
  - simpl. destruct (nth_error P i) as [l|] eqn:E; [|reflexivity].
    destruct (Init.defined_prefix (map (nth_error P) p)) as [pre c] eqn:D.
    simpl in *. apply IH. intros Hall. apply Hnot. constructor; [|exact Hall].
    apply nth_error_Some. rewrite E. discriminate.
Qed.

Lemma defined_prefix_In (P : list loc) (p : list nat) (l : loc) :
  In l (fst (Init.defined_prefix (map (nth_error P) p))) -> In l P.
Proof.
  induction p as [|i p IH]; simpl; [intros []|].
  destruct (nth_error P i) as [l'|] eqn:E; [|intros []].
  destruct (Init.defined_prefix (map (nth_error P) p)) as [pre c].
  simpl in *. intros [<- | H].
  - eapply nth_error_In, E.
  - apply IH, H.
Qed.

Lemma add_polygon_valid (cfg : Init.config) (p : list nat) (w : Init.world) :
  points_in_bounds w ->
  valid_polygon cfg (length (Canvas.points (Init.canvas w))) p ->
  Init.add_polygon cfg p w
  = Init.Normal
      (Init.mkWorld (Init.heap w) (Init.next w)
         (push_polygon (Init.canvas w)
            (polygon_of cfg (Canvas.points (Init.canvas w)) p))).
Proof.
  intros Hw [(i0 & Hhd & Hi0) Hall].
  unfold Init.add_polygon, polygon_of, color_of. rewrite Hhd.
  destruct (nth_error (Init.vertex_color cfg) i0) as [[[r g] b]|] eqn:E.
  2:{ apply nth_error_None in E. lia. }
  rewrite (defined_prefix_complete _ _ Hall).
  rewrite (proj1 (addPolygon_inside _ _ _)); [reflexivity|].
  simpl. intros l Hl. apply Hw.
  apply in_map_iff in Hl. destruct Hl as (i & <- & Hi).
  apply nth_In. rewrite Forall_forall in Hall. apply Hall, Hi.
Qed.

Lemma add_polygon_invalid (cfg : Init.config) (p : list nat) (w : Init.world) :
  points_in_bounds w ->
  ~ valid_polygon cfg (length (Canvas.points (Init.canvas w))) p ->
  Init.add_polygon cfg p w = Init.Throw TypeError w.
Proof.
  intros Hw Hnot. unfold Init.add_polygon.
  destruct (hd_error p) as [i0|] eqn:Hhd; [|reflexivity].
  destruct (nth_error (Init.vertex_color cfg) i0) as [[[r g] b]|] eqn:E;
    [|reflexivity].
  assert (Hall : ~ Forall (fun i => (i < length (Canvas.points (Init.canvas w)))%nat) p).
  { intros Hall. apply Hnot. split; [|exact Hall].
    exists i0. split; [exact Hhd|]. apply nth_error_Some. rewrite E.
    discriminate. }
  pose proof (defined_prefix_incomplete _ _ Hall) as Hc.
  pose proof (defined_prefix_In (Canvas.points (Init.canvas w)) p) as Hin.
  destruct (Init.defined_prefix _) as [pre c]. simpl in Hc, Hin. subst c.
  rewrite (proj1 (addPolygon_inside _ _ _)); [reflexivity|].
  simpl. intros l Hl. apply Hw, Hin, Hl.
Qed.

Lemma add_polygons_valid (cfg : Init.config) (ps : list (list nat)) :
  forall w,
    points_in_bounds w ->
    Forall (valid_polygon cfg (length (Canvas.points (Init.canvas w)))) ps ->
    Init.forEach (Init.add_polygon cfg) ps w
    = Init.Normal
        (Init.mkWorld (Init.heap w) (Init.next w)
           (Canvas.mk (Canvas.ctx (Init.canvas w))
                      (Canvas.points (Init.canvas w))
                      (Canvas.polygons (Init.canvas w)
                       ++ map (polygon_of cfg (Canvas.points (Init.canvas w)))
                              ps))).
Proof.
  induction ps as [|p ps IH]; intros w Hw Hall.
  - destruct w as [h n [c P Q]]. simpl. rewrite app_nil_r. reflexivity.
  - inversion Hall as [|? ? Hp Hps]; subst.
    simpl Init.forEach. rewrite (add_polygon_valid cfg p w Hw Hp).
    rewrite IH; [|exact Hw|exact Hps]. simpl.
    rewrite <- app_assoc. reflexivity.
Qed.

Lemma add_polygons_invalid (cfg : Init.config) (pre post : list (list nat))
      (p : list nat) (w : Init.world) :
  points_in_bounds w ->
  Forall (valid_polygon cfg (length (Canvas.points (Init.canvas w)))) pre ->
  ~ valid_polygon cfg (length (Canvas.points (Init.canvas w))) p ->
  Init.forEach (Init.add_polygon cfg) (pre ++ p :: post) w
  = Init.Throw TypeError
      (Init.mkWorld (Init.heap w) (Init.next w)
         (Canvas.mk (Canvas.ctx (Init.canvas w))
                    (Canvas.points (Init.canvas w))
                    (Canvas.polygons (Init.canvas w)
                     ++ map (polygon_of cfg (Canvas.points (Init.canvas w)))
                            pre))).
Proof.
  intros Hw Hpre Hp.
  rewrite forEach_app, (add_polygons_valid cfg pre w Hw Hpre).
  simpl Init.forEach. rewrite add_polygon_invalid; [reflexivity | exact Hw|].
  exact Hp.
Qed.

(** *** The script *)

Lemma load_vertices (cfg : Init.config) (h : Heap) :
  Forall (vertex_in_bounds cfg) (Init.vertex_pos cfg) ->
  Init.forEach Init.add_vertex (Init.vertex_pos cfg)
    (Init.mkWorld h 0%nat (fresh_canvas cfg))
  = Init.Normal (populated cfg h []).
Proof.
  intros Hv.
  rewrite (add_vertices_inside _ (Init.mkWorld h 0%nat (fresh_canvas cfg)) Hv).
  reflexivity.
Qed.

Lemma populated_in_bounds (cfg : Init.config) (h : Heap)
      (ps : list (list nat)) :
  Forall (vertex_in_bounds cfg) (Init.vertex_pos cfg) ->
  points_in_bounds (populated cfg h ps).
Proof.
  intros Hv l Hl. simpl in Hl. apply in_seq in Hl.
  destruct (nth_error (Init.vertex_pos cfg) l) as [v|] eqn:E.
  2:{ apply nth_error_None in E. lia. }
  pose proof (store_points_at _ h 0%nat l v E) as Hat.
  simpl in Hat |- *. rewrite Hat.
  rewrite Forall_forall in Hv. apply (Hv v). eapply nth_error_In, E.
Qed.

Lemma populated_length (cfg : Init.config) (h : Heap) (ps : list (list nat)) :
  length (Canvas.points (Init.canvas (populated cfg h ps)))
  = length (Init.vertex_pos cfg).
Proof. simpl. apply length_seq. Qed.

Lemma load_polygons (cfg : Init.config) (h : Heap) (ps : list (list nat)) :
  Forall (vertex_in_bounds cfg) (Init.vertex_pos cfg) ->
  Forall (valid_polygon cfg (length (Init.vertex_pos cfg))) ps ->
  Init.forEach (Init.add_polygon cfg) ps (populated cfg h [])
  = Init.Normal (populated cfg h ps).
Proof.
  intros Hv Hp.
  rewrite add_polygons_valid; [reflexivity | apply populated_in_bounds, Hv|].
  rewrite populated_length. exact Hp.
Qed.

Lemma load_valid (cfg : Init.config) (h : Heap) :
  valid_config cfg -> Page.load cfg h = Init.Normal (loaded cfg h).
Proof.
  intros [Hv Hp]. unfold Page.load, Init.initCanvas.
  change (Canvas.new _ _) with (fresh_canvas cfg).
  rewrite (load_vertices cfg h Hv), (load_polygons cfg h _ Hv Hp).
  reflexivity.
Qed.

Lemma load_vertex_throws (cfg : Init.config) (h : Heap)
      (pre post : list (Q * Q * Q)) (v : Q * Q * Q) :
  Init.vertex_pos cfg = pre ++ v :: post ->
  Forall (vertex_in_bounds cfg) pre ->
  ~ vertex_in_bounds cfg v ->
  Page.load cfg h
  = Init.Throw (Error "Point out of bounds")
      (Init.mkWorld (store_points h 0%nat (pre ++ [v])) (S (length pre))
         (Canvas.mk (Canvas.ctx (fresh_canvas cfg)) (seq 0 (length pre)) [])).
Proof.
  intros E Hpre Hv. unfold Page.load, Init.initCanvas.
  change (Canvas.new _ _) with (fresh_canvas cfg). rewrite E.
  rewrite (add_vertices_outside pre post v
             (Init.mkWorld h 0%nat (fresh_canvas cfg)) Hpre Hv).
  reflexivity.
Qed.

Lemma load_polygon_throws (cfg : Init.config) (h : Heap)
      (pre post : list (list nat)) (p : list nat) :
  Forall (vertex_in_bounds cfg) (Init.vertex_pos cfg) ->
  Init.polygon cfg = pre ++ p :: post ->
  Forall (valid_polygon cfg (length (Init.vertex_pos cfg))) pre ->
  ~ valid_polygon cfg (length (Init.vertex_pos cfg)) p ->
  Page.load cfg h = Init.Throw TypeError (populated cfg h pre).
Proof.
  intros Hv E Hpre Hp. unfold Page.load, Init.initCanvas.
  change (Canvas.new _ _) with (fresh_canvas cfg).
  rewrite (load_vertices cfg h Hv), E.
  rewrite (add_polygons_invalid cfg pre post p (populated cfg h []));
    [reflexivity | apply populated_in_bounds, Hv | |];
    rewrite populated_length; assumption.
Qed.

Lemma polygons_of_seq (cfg : Init.config) (n : nat) (ps : list (list nat)) :
  Forall (valid_polygon cfg n) ps ->
  map (polygon_of cfg (seq 0 n)) ps
  = map (fun p => Polygon.mk p (color_of cfg p)) ps.
Proof.
  intros Hps. apply map_ext_in. intros p Hp.
  rewrite Forall_forall in Hps. destruct (Hps p Hp) as [_ Hall].
  unfold polygon_of. f_equal.
  rewrite <- (map_id p) at 2. apply map_ext_in. intros i Hi.
  rewrite Forall_forall in Hall. apply seq_nth, Hall, Hi.
Qed.

Lemma loaded_shows_scene (cfg : Init.config) (h : Heap) :
  half_pixel_shift (Canvas.ctx (Init.canvas (loaded cfg h)))
  /\ Ctx.surface (Canvas.ctx (Init.canvas (loaded cfg h)))
     = scene_paints (Init.heap (loaded cfg h)) (Init.canvas (loaded cfg h)).
Proof.
  unfold loaded.
  set (w := populated cfg h (Init.polygon cfg)).
  assert (Hshift : half_pixel_shift (Canvas.ctx (Init.canvas w)))
    by apply new_half_pixel_shift.
  destruct (clear_and_draw_effect (Init.heap w) (Init.canvas w) Hshift)
    as (_ & Hsurf & Hp & Hq).
  split.
  - apply clear_and_draw_keeps_shift, Hshift.
  - change (Ctx.surface
              (Canvas.ctx (Canvas.clear_and_draw (Init.heap w) (Init.canvas w)))
            = scene_paints (Init.heap w)
                (Canvas.clear_and_draw (Init.heap w) (Init.canvas w))).
    rewrite Hsurf. symmetry. apply scene_paints_ext; assumption.
Qed.

Lemma load_cases (cfg : Init.config) (h : Heap) :
  (valid_config cfg /\ Page.load cfg h = Init.Normal (loaded cfg h))
  \/ (exists w, Page.load cfg h = Init.Throw (Error "Point out of bounds") w
                /\ Ctx.surface (Canvas.ctx (Init.canvas w)) = [])
  \/ (exists w, Page.load cfg h = Init.Throw TypeError w
                /\ Ctx.surface (Canvas.ctx (Init.canvas w)) = []).
Proof.
  destruct (first_failure (vertex_in_bounds cfg)
              (fun v => in_bounds_dec (fresh_canvas cfg) (point_of v))
              (Init.vertex_pos cfg))
    as [Hv | (pre & v & post & E & Hpre & Hv)].
  - destruct (first_failure (valid_polygon cfg (length (Init.vertex_pos cfg)))
                (valid_polygon_dec cfg (length (Init.vertex_pos cfg)))
                (Init.polygon cfg))
      as [Hp | (pre & p & post & E & Hpre & Hp)].
    + left. split; [split; assumption | apply load_valid; split; assumption].
    + right. right. eexists. split.
      * apply (load_polygon_throws cfg h pre post p Hv E Hpre Hp).
      * reflexivity.
  - right. left. eexists. split.
    + apply (load_vertex_throws cfg h pre post v E Hpre Hv).
    + reflexivity.
Qed.

Lemma square_config_valid : valid_config square_config.
Proof.
  split.
  - repeat constructor; discriminate.
  - repeat constructor; try (simpl; lia).
    + exists 0%nat. split; [reflexivity | simpl; lia].
    + exists 0%nat. split; [reflexivity | simpl; lia].
Qed.

(** X13: a configuration whose vertices all lie within the canvas and
    whose polygons are non-empty arrays of existing vertex indices, the
    first of them with a colour, initialises the canvas without an
    exception: the canvas then holds one point per vertex, in the order of
    the configuration and with its coordinates, one polygon per index
    array, over these very points and in the colour of its first vertex
    with alpha 0.5, and the surface shows this scene. *)
Theorem load_valid_config (cfg : Init.config) (h : Heap)
        (Hvalid : valid_config cfg) :
  exists w,
    Page.load cfg h = Init.Normal w
    /\ Canvas.points (Init.canvas w) = seq 0 (length (Init.vertex_pos cfg))
    /\ (forall k v, nth_error (Init.vertex_pos cfg) k = Some v ->
                    Init.heap w k = point_of v)
    /\ Canvas.polygons (Init.canvas w)
       = map (fun p => Polygon.mk p (color_of cfg p)) (Init.polygon cfg)
    /\ Ctx.surface (Canvas.ctx (Init.canvas w))
       = scene_paints (Init.heap w) (Init.canvas w).
Proof.
  exists (loaded cfg h). split; [apply load_valid, Hvalid|].
  split; [reflexivity|]. split; [|split].
  - intros k v Hk. apply (store_points_at _ h 0%nat k v Hk).
  - apply polygons_of_seq, Hvalid.
  - apply loaded_shows_scene.
Qed.

Lemma load_valid_config_witness :
  valid_config square_config
  /\ exists w,
       Page.load square_config blank = Init.Normal w
       /\ Canvas.points (Init.canvas w) = [0; 1; 2; 3]%nat
       /\ (forall k v, nth_error (Init.vertex_pos square_config) k = Some v ->
                       Init.heap w k = point_of v)
       /\ Canvas.polygons (Init.canvas w)
          = map (fun p => Polygon.mk p (color_of square_config p))
                (Init.polygon square_config)
       /\ Ctx.surface (Canvas.ctx (Init.canvas w))
          = scene_paints (Init.heap w) (Init.canvas w).
Proof.
  split; [exact square_config_valid|].
  exact (load_valid_config square_config blank square_config_valid).
Defined.

Lemma loaded_well_formed (cfg : Init.config) (h : Heap) :
  valid_config cfg ->
  points_in_bounds (loaded cfg h)
  /\ (forall p, In p (Canvas.polygons (Init.canvas (loaded cfg h))) ->
                Polygon.points p <> []
                /\ forall l, In l (Polygon.points p) ->
                             In l (Canvas.points (Init.canvas (loaded cfg h))))
  /\ NoDup (Canvas.points (Init.canvas (loaded cfg h))).
Proof.
  intros [Hv Hp]. split; [|split].
  - intros l Hl.
    pose proof (populated_in_bounds cfg h (Init.polygon cfg) Hv l Hl) as Hin.
    set (w := populated cfg h (Init.polygon cfg)) in *.
    change (in_bounds (Canvas.clear_and_draw (Init.heap w) (Init.canvas w))
                      (Init.heap w l)).
    destruct (clear_and_draw_frame (Init.heap w) (Init.canvas w)) as [Hc _].
    unfold in_bounds, Canvas.dom in *. rewrite Hc. exact Hin.
  - intros p Hin.
    change (In p (map (polygon_of cfg (seq 0 (length (Init.vertex_pos cfg))))
                      (Init.polygon cfg))) in Hin.
    rewrite (polygons_of_seq _ _ _ Hp) in Hin.
    apply in_map_iff in Hin. destruct Hin as (q & <- & Hq).
    rewrite Forall_forall in Hp. destruct (Hp q Hq) as [(i0 & Hhd & _) Hall].
    simpl. split.
    + intros ->. discriminate Hhd.
    + intros l Hl. apply in_seq. rewrite Forall_forall in Hall.
      specialize (Hall l Hl). lia.
  - apply seq_NoDup.
Qed.

(** X14: when the initialisation succeeds, the configuration was valid and
    the scene is well formed: every point of the canvas lies within its
    bounds, every polygon has at least one corner and all its corners are
    points of the canvas, so that a point and the polygon corners at it
    are one object, and no point is listed twice. *)
Theorem load_success_scene (cfg : Init.config) (h : Heap) (w : Init.world)
        (Hload : Page.load cfg h = Init.Normal w) :
  valid_config cfg
  /\ points_in_bounds w
  /\ (forall p, In p (Canvas.polygons (Init.canvas w)) ->
                Polygon.points p <> []
                /\ forall l, In l (Polygon.points p) ->
                             In l (Canvas.points (Init.canvas w)))
  /\ NoDup (Canvas.points (Init.canvas w)).
Proof.
  destruct (load_cases cfg h)
    as [[Hvalid E] | [(w' & E & _) | (w' & E & _)]];
    rewrite E in Hload; try discriminate Hload.
  injection Hload as <-. split; [exact Hvalid|].
  apply loaded_well_formed, Hvalid.
Qed.

Lemma load_success_scene_witness :
  let w := loaded square_config blank in
  Page.load square_config blank = Init.Normal w
  /\ valid_config square_config
  /\ points_in_bounds w
  /\ (forall p, In p (Canvas.polygons (Init.canvas w)) ->
                Polygon.points p <> []
                /\ forall l, In l (Polygon.points p) ->
                             In l (Canvas.points (Init.canvas w)))
  /\ NoDup (Canvas.points (Init.canvas w)).
Proof.
  intros w.
  assert (Hload : Page.load square_config blank = Init.Normal w)
    by exact (load_valid square_config blank square_config_valid).
  split; [exact Hload|].
  exact (load_success_scene square_config blank w Hload).
Defined.

(** X15: the first vertex outside the canvas stops the initialisation
    with the error "Point out of bounds": the vertices before it have been
    added as points, with their coordinates, no later vertex and no
    polygon has been added, and nothing has been drawn. *)
Theorem load_vertex_out_of_bounds (cfg : Init.config) (h : Heap)
        (pre post : list (Q * Q * Q)) (v : Q * Q * Q)
        (Hvs : Init.vertex_pos cfg = pre ++ v :: post)
        (Hpre : Forall (vertex_in_bounds cfg) pre)
        (Hv : ~ vertex_in_bounds cfg v) :
  exists w,
    Page.load cfg h = Init.Throw (Error "Point out of bounds") w
    /\ Canvas.points (Init.canvas w) = seq 0 (length pre)
    /\ (forall k u, nth_error pre k = Some u -> Init.heap w k = point_of u)
    /\ Canvas.polygons (Init.canvas w) = []
    /\ Ctx.surface (Canvas.ctx (Init.canvas w)) = [].
Proof.
  eexists. split; [apply (load_vertex_throws cfg h pre post v Hvs Hpre Hv)|].
  split; [reflexivity|]. split; [|split; reflexivity].
  intros k u Hk. simpl.
  assert (Hlt : (k < length pre)%nat).
  { apply nth_error_Some. rewrite Hk. discriminate. }
  rewrite store_points_snoc, update_other by (simpl; lia).
  apply (store_points_at pre h 0%nat k u Hk).
Qed.

Lemma load_vertex_out_of_bounds_witness :
  let pre := [(0, 0, 0); (10, 0, 0)] in
  let v := (10, 30, 0) in
  Init.vertex_pos outside_config = pre ++ v :: [(0, 10, 0)]
  /\ Forall (vertex_in_bounds outside_config) pre
  /\ ~ vertex_in_bounds outside_config v
  /\ exists w,
       Page.load outside_config blank
       = Init.Throw (Error "Point out of bounds") w
       /\ Canvas.points (Init.canvas w) = seq 0 (length pre)
       /\ (forall k u, nth_error pre k = Some u -> Init.heap w k = point_of u)
       /\ Canvas.polygons (Init.canvas w) = []
       /\ Ctx.surface (Canvas.ctx (Init.canvas w)) = [].
Proof.
  intros pre v.
  assert (Hvs : Init.vertex_pos outside_config = pre ++ v :: [(0, 10, 0)])
    by reflexivity.
  assert (Hpre : Forall (vertex_in_bounds outside_config) pre)
    by (repeat constructor; discriminate).
  assert (Hv : ~ vertex_in_bounds outside_config v).
  { intros [_ [_ H]]. vm_compute in H. apply H. reflexivity. }
  split; [exact Hvs | split; [exact Hpre | split; [exact Hv|]]].
  exact (load_vertex_out_of_bounds outside_config blank pre [(0, 10, 0)] v
           Hvs Hpre Hv).
Defined.

(** X16: with all vertices within the canvas, the first polygon that is
    empty, whose first index has no colour, or that names a vertex that
    does not exist stops the initialisation with a [TypeError]: all the
    points and the polygons before it have been added, and nothing has
    been drawn. *)
Theorem load_invalid_polygon (cfg : Init.config) (h : Heap)
        (pre post : list (list nat)) (p : list nat)
        (Hv : Forall (vertex_in_bounds cfg) (Init.vertex_pos cfg))
        (Hps : Init.polygon cfg = pre ++ p :: post)
        (Hpre : Forall (valid_polygon cfg (length (Init.vertex_pos cfg))) pre)
        (Hp : ~ valid_polygon cfg (length (Init.vertex_pos cfg)) p) :
  exists w,
    Page.load cfg h = Init.Throw TypeError w
    /\ Canvas.points (Init.canvas w) = seq 0 (length (Init.vertex_pos cfg))
    /\ Canvas.polygons (Init.canvas w)
       = map (fun p => Polygon.mk p (color_of cfg p)) pre
    /\ Ctx.surface (Canvas.ctx (Init.canvas w)) = [].
Proof.
  exists (populated cfg h pre).
  split; [apply (load_polygon_throws cfg h pre post p Hv Hps Hpre Hp)|].
  split; [reflexivity|]. split; [|reflexivity].
  apply polygons_of_seq, Hpre.
Qed.

Lemma load_invalid_polygon_witness :
  let cfg := dangling_config in
  let pre := [[0; 1; 2]%nat] in
  let p := [0; 1; 5]%nat in
  Forall (vertex_in_bounds cfg) (Init.vertex_pos cfg)
  /\ Init.polygon cfg = pre ++ p :: []
  /\ Forall (valid_polygon cfg (length (Init.vertex_pos cfg))) pre
  /\ ~ valid_polygon cfg (length (Init.vertex_pos cfg)) p
  /\ exists w,
       Page.load cfg blank = Init.Throw TypeError w
       /\ Canvas.points (Init.canvas w) = seq 0 (length (Init.vertex_pos cfg))
       /\ Canvas.polygons (Init.canvas w)
          = map (fun p => Polygon.mk p (color_of cfg p)) pre
       /\ Ctx.surface (Canvas.ctx (Init.canvas w)) = [].
Proof.
  intros cfg pre p.
  assert (Hv : Forall (vertex_in_bounds cfg) (Init.vertex_pos cfg))
    by (repeat constructor; discriminate).
  assert (Hps : Init.polygon cfg = pre ++ p :: []) by reflexivity.
  assert (Hpre : Forall (valid_polygon cfg (length (Init.vertex_pos cfg))) pre).
  { repeat constructor; try (simpl; lia).
    exists 0%nat. split; [reflexivity | simpl; lia]. }
  assert (Hp : ~ valid_polygon cfg (length (Init.vertex_pos cfg)) p).
  { intros [_ Hall]. rewrite Forall_forall in Hall.
    assert (H : (5 < 3)%nat) by (apply Hall; simpl; auto).
    lia. }
  split; [exact Hv | split; [exact Hps | split; [exact Hpre|]]].
  split; [exact Hp|].
  exact (load_invalid_polygon cfg blank pre [] p Hv Hps Hpre Hp).
Defined.

(** X17: a failed initialisation draws nothing, and fails in one of two
    ways only: with the error "Point out of bounds" or with a
    [TypeError].  The error "Polygon out of bounds" is never raised by
    [initCanvas] on a fresh canvas, since a polygon is built from points
    that [addPoint] has accepted. *)
Theorem load_failure (cfg : Init.config) (h : Heap) (e : exn)
        (w : Init.world)
        (Hload : Page.load cfg h = Init.Throw e w) :
  (e = Error "Point out of bounds" \/ e = TypeError)
  /\ Ctx.surface (Canvas.ctx (Init.canvas w)) = [].
Proof.
  destruct (load_cases cfg h)
    as [[_ E] | [(w' & E & Hs) | (w' & E & Hs)]];
    rewrite E in Hload; try discriminate Hload;
    injection Hload as <- <-; auto.
Qed.

Lemma load_failure_witness :
  let w := populated dangling_config blank [[0; 1; 2]%nat] in
  Page.load dangling_config blank = Init.Throw TypeError w
  /\ (TypeError = Error "Point out of bounds" \/ TypeError = TypeError)
  /\ Ctx.surface (Canvas.ctx (Init.canvas w)) = [].
Proof.
  intros w.
  assert (Hload : Page.load dangling_config blank = Init.Throw TypeError w).
  { apply (load_polygon_throws dangling_config blank [[0; 1; 2]%nat] []
             [0; 1; 5]%nat).
    - repeat constructor; discriminate.
    - reflexivity.
    - repeat constructor; try (simpl; lia).
      exists 0%nat. split; [reflexivity | simpl; lia].
    - intros [_ Hall]. rewrite Forall_forall in Hall.
      assert (H : (5 < 3)%nat) by (apply Hall; simpl; auto).
      lia. }
  split; [exact Hload|].
  exact (load_failure dangling_config blank TypeError w Hload).
Defined.

(** X18: the page as a whole.  Once the initialisation has succeeded and
    the drag handler is installed, whatever pointer events arrive, no
    exception is reported, the canvas keeps the points and polygons of the
    configuration, and the surface shows the scene with the points where
    they are now. *)
Theorem page_shows_scene (cfg : Init.config) (h : Heap) (w : Init.world)
        (evs : list Page.event)
        (Hload : Page.load cfg h = Init.Normal w) :
  let s := fst (Page.run evs (Page.addDragHandler w)) in
  snd (Page.run evs (Page.addDragHandler w)) = []
  /\ Canvas.points (Drag.canvas s) = seq 0 (length (Init.vertex_pos cfg))
  /\ Canvas.polygons (Drag.canvas s)
     = map (fun p => Polygon.mk p (color_of cfg p)) (Init.polygon cfg)
  /\ Ctx.surface (Canvas.ctx (Drag.canvas s))
     = scene_paints (Drag.heap s) (Drag.canvas s).
Proof.
  destruct (load_cases cfg h)
    as [[Hvalid E] | [(w' & E & _) | (w' & E & _)]];
    rewrite E in Hload; try discriminate Hload.
  injection Hload as <-. unfold Page.addDragHandler.
  destruct (run_steps evs
              (Drag.init (Init.heap (loaded cfg h)) (Init.canvas (loaded cfg h)))
              (init_consistent _ _) (init_drags_scene_point _ _))
    as (He & [P Q _ _ _] & Hshow).
  split; [exact He|]. split; [exact P|]. split.
  - rewrite Q. apply (polygons_of_seq _ _ _ (proj2 Hvalid)).
  - apply Hshow. apply loaded_shows_scene.
Qed.

Lemma page_shows_scene_witness :
  let w := loaded square_config blank in
  let evs := [Page.mousemove (Drag.mkEvent 3 3);
              Page.mousedown (Drag.mkEvent 12 8);
              Page.mousemove (Drag.mkEvent 40 (-5));
              Page.mouseup (Drag.mkEvent 40 (-5))] in
  let s := fst (Page.run evs (Page.addDragHandler w)) in
  Page.load square_config blank = Init.Normal w
  /\ snd (Page.run evs (Page.addDragHandler w)) = []
  /\ Canvas.points (Drag.canvas s)
     = seq 0 (length (Init.vertex_pos square_config))
  /\ Canvas.polygons (Drag.canvas s)
     = map (fun p => Polygon.mk p (color_of square_config p))
           (Init.polygon square_config)
  /\ Ctx.surface (Canvas.ctx (Drag.canvas s))
     = scene_paints (Drag.heap s) (Drag.canvas s).
Proof.
  intros w evs.
  assert (Hload : Page.load square_config blank = Init.Normal w)
    by exact (load_valid square_config blank square_config_valid).
  split; [exact Hload|].
  exact (page_shows_scene square_config blank w evs Hload).
Defined.

(** ** Rectangles *)

Lemma rectangle_scan_lines (x0 y0 x1 y1 : Q) (color : Color) :
  y0 < y1 ->
  polygon_scan_lines (rectangle_heap x0 y0 x1 y1) (rectangle color)
  = scan_lines y0 y1.
Proof.
  intros Hy. unfold polygon_scan_lines, vertex_ys, Math_min, Math_max.
  cbn [rectangle Polygon.points map rectangle_heap Point.y fold_left lt].
  assert (E1 : Qlt_bool y0 y0 = false) by cmp.
  assert (E2 : Qlt_bool y1 y0 = false) by cmp.
  assert (E3 : Qlt_bool y0 y1 = true) by cmp.
  assert (E4 : Qlt_bool y1 y1 = false) by cmp.
  repeat first [ rewrite E1 | rewrite E2 | rewrite E3 | rewrite E4
               | progress cbn [lt] ].
  reflexivity.
Qed.

Lemma rectangle_row (x0 y0 x1 y1 : Q) (color : Color) (y : Q) :
  x0 <= x1 -> y0 <= y < y1 ->
  exists a b,
    row_paints
      (Polygon.build_edges
         (map (rectangle_heap x0 y0 x1 y1) (Polygon.points (rectangle color))))
      color y
    = [span color y a b]
    /\ a == x0 /\ b == x1.
Proof.
  intros Hx Hy. unfold row_paints. rewrite intersections_eq.
  cbn [rectangle Polygon.points map rectangle_heap length seq flat_map].
  set (P0 := Point.mk x0 y0 0). set (P1 := Point.mk x1 y0 0).
  set (P2 := Point.mk x1 y1 0). set (P3 := Point.mk x0 y1 0).
  set (pts := [P0; P1; P2; P3]).
  assert (V0 : vertex pts 0 = P0) by reflexivity.
  assert (V1 : vertex pts 1 = P1) by reflexivity.
  assert (V2 : vertex pts 2 = P2) by reflexivity.
  assert (V3 : vertex pts 3 = P3) by reflexivity.
  assert (V4 : vertex pts 4 = P0) by reflexivity.
  assert (C0 : crossing_x pts y 0 = []).
  { apply crossing_x_none.
    - destruct (up pts y 0) eqn:E; [|reflexivity].
      apply up_iff in E. rewrite V0, V1 in E. simpl in E. lra.
    - destruct (down pts y 0) eqn:E; [|reflexivity].
      apply down_iff in E. rewrite V0, V1 in E. simpl in E. lra. }
  assert (C1 : crossing_x pts y 1 = [Num (interpolate P1 P2 y)]).
  { rewrite crossing_x_up, V1, V2; [reflexivity|].
    apply up_iff. rewrite V1, V2. simpl. lra. }
  assert (C2 : crossing_x pts y 2 = []).
  { apply crossing_x_none.
    - destruct (up pts y 2) eqn:E; [|reflexivity].
      apply up_iff in E. rewrite V2, V3 in E. simpl in E. lra.
    - destruct (down pts y 2) eqn:E; [|reflexivity].
      apply down_iff in E. rewrite V2, V3 in E. simpl in E. lra. }
  assert (C3 : crossing_x pts y 3 = [Num (interpolate P0 P3 y)]).
  { rewrite crossing_x_down, V3, V4; [reflexivity|].
    apply down_iff. rewrite V3, V4. simpl. lra. }
  rewrite C0, C1, C2, C3. cbn [app].
  assert (I1 : interpolate P1 P2 y == x1).
  { unfold interpolate. simpl. field. lra. }
  assert (I0 : interpolate P0 P3 y == x0).
  { unfold interpolate. simpl. field. lra. }
  set (i1 := interpolate P1 P2 y) in *. set (i0 := interpolate P0 P3 y) in *.
  clearbody i1 i0.
  destruct (sort_two_cases i1 i0)
    as (lo & hi & -> & Hle & [[-> ->] | [-> ->]]).
  - exists i1, i0. split; [reflexivity|]. split; lra.
  - exists i0, i1. split; [reflexivity|]. split; assumption.
Qed.

Lemma Forall2_rows (R : Q -> Z -> Prop) (P : row -> Prop) (rows : list row) :
  forall ns,
    Forall2 R (map row_y rows) ns -> Forall P rows ->
    Forall2 (fun r n => R (row_y r) n /\ P r) rows ns.
Proof.
  induction rows as [|r rows IH]; intros ns H2 HP.
  - inversion H2. constructor.
  - inversion H2 as [|? n ? ns' Hr Hrest]; subst.
    inversion HP as [|? ? Hp Hps]; subst.
    constructor; [split; assumption | apply IH; assumption].
Qed.

(** X19: a rectangle with its sides parallel to the axes and its lower
    side at an integer height [y0] is filled from side to side: [fill]
    adds exactly one span for each integer line from [y0] up to, and
    without, the upper side [y1], in ascending order, each from the left
    side [x0] to the right side [x1], and nothing else.  On every height
    of [[y0, y1)] the row body paints that one span. *)
Theorem rectangle_fill (x0 y0 x1 y1 : Q) (color : Color) (m : Z)
        (Hx : x0 <= x1) (Hy : y0 < y1) (Hm : y0 == inject_Z m) :
  let h := rectangle_heap x0 y0 x1 y1 in
  let p := rectangle color in
  let edges := Polygon.build_edges (map h (Polygon.points p)) in
  (forall c, exists rows,
      Ctx.surface (Polygon.fill h p c)
      = Ctx.surface c ++ map (row_span color) rows
      /\ Forall2 (fun r n => row_y r == inject_Z n
                             /\ row_from r == x0 /\ row_to r == x1)
                 rows (integers_below m y1))
  /\ (forall y c, y0 <= y < y1 ->
        exists a b,
          Ctx.surface (Polygon.fill_row edges color y c)
          = Ctx.surface c ++ [span color y a b]
          /\ a == x0 /\ b == x1).
Proof.
  intros h p edges. split.
  - intros c. destruct (fill_effect h p c) as [_ ->].
    unfold fill_paints. unfold h at 2, p at 3.
    rewrite (rectangle_scan_lines x0 y0 x1 y1 color Hy).
    destruct (rows_of_lines color
                (row_paints edges color)
                (fun r => row_from r == x0 /\ row_to r == x1)
                (scan_lines y0 y1)) as (rows & E1 & E2 & HF).
    + intros y Hin. apply scan_lines_range in Hin.
      destruct (rectangle_row x0 y0 x1 y1 color y Hx Hin)
        as (a & b & E & Ha & Hb).
      exists a, b. split; [exact E | split; assumption].
    + exists rows. split; [rewrite <- E1; reflexivity|].
      apply (Forall2_rows (fun y n => y == inject_Z n)
               (fun r => row_from r == x0 /\ row_to r == x1)); [|exact HF].
      rewrite E2.
      apply scan_lines_integers, Hm.
  - intros y c Hyr. rewrite fill_row_paints.
    destruct (rectangle_row x0 y0 x1 y1 color y Hx Hyr)
      as (a & b & E & Ha & Hb).
    exists a, b. split; [|split; assumption].
    unfold edges, h, p. rewrite E. reflexivity.
Qed.

Lemma rectangle_fill_witness :
  let color := mkColor 0 0 255 ALPHA in
  let h := rectangle_heap 2 1 8 (7 # 2) in
  let p := rectangle color in
  let edges := Polygon.build_edges (map h (Polygon.points p)) in
  2 <= 8 /\ 1 < 7 # 2 /\ 1 == inject_Z 1
  /\ (forall c, exists rows,
         Ctx.surface (Polygon.fill h p c)
         = Ctx.surface c ++ map (row_span color) rows
         /\ Forall2 (fun r n => row_y r == inject_Z n
                                /\ row_from r == 2 /\ row_to r == 8)
                    rows (integers_below 1 (7 # 2)))
  /\ (forall y c, 1 <= y < 7 # 2 ->
        exists a b,
          Ctx.surface (Polygon.fill_row edges color y c)
          = Ctx.surface c ++ [span color y a b]
          /\ a == 2 /\ b == 8).
Proof.
  intros color h p edges.
  assert (Hx : 2 <= 8) by discriminate.
  assert (Hy : 1 < 7 # 2) by reflexivity.
  assert (Hm : 1 == inject_Z 1) by reflexivity.
  split; [exact Hx | split; [exact Hy | split; [exact Hm|]]].
  exact (rectangle_fill 2 1 8 (7 # 2) color 1 Hx Hy Hm).
Defined.
